(** * Krojanty: capture rules, auto-defeat and move synchronisation

    A shallow embedding of [src/capture.c], of the move functions of
    [src/net.c] and of [src/args.c], with the global game state of
    [include/app.h] made an explicit record that every function takes and
    returns.

    - C [int] values are integers of [Z]; the result of an addition or a
      subtraction is wrapped to 32 bits ([wrap]).
    - C arrays are lists read and written by index; an access outside the
      array makes the function return [None].
    - [set_victory_message] (status.c) is recorded as an event in the
      [victory] field: the GTK label it updates is not part of the model. *)

From Stdlib Require Import ZArith Lia Ascii String Bool.
From stdpp Require Import base tactics option list.

Local Open Scope Z_scope.

(** ** Machine integers *)

Definition wrap (z : Z) : Z := (z + 2147483648) mod 4294967296 - 2147483648.

Definition int_add (a b : Z) : Z := wrap (a + b).
Definition int_sub (a b : Z) : Z := wrap (a - b).
Definition int_mul (a b : Z) : Z := wrap (a * b).

Definition int_range (z : Z) : Prop := -2147483648 <= z <= 2147483647.

(** ** Data model (include/app.h) *)

Record Piece := mkPiece {
  row : Z;
  col : Z;
  color : ascii;   (* 'B' or 'R' *)
  type : ascii     (* 'K' or 'P' *)
}.

Definition chr_B : ascii := "B"%char.
Definition chr_R : ascii := "R"%char.
Definition chr_K : ascii := "K"%char.
Definition chr_P : ascii := "P"%char.

(** The globals of app.h, and the calls made to [set_victory_message]:
    [(blue_won, reason)], oldest first. *)
Record State := mkState {
  pieces : list Piece;            (* Piece pieces[20] *)
  piece_count : Z;
  cell_control : list (list Z);   (* int cell_control[9][9] *)
  selected_piece : Z;
  current_turn : ascii;
  game_over : Z;
  score_blue : Z;
  score_red : Z;
  pieces_blue : Z;
  pieces_red : Z;
  victory : list (bool * string)
}.

Definition with_pieces (ps : list Piece) (n : Z) (s : State) : State :=
  mkState ps n (cell_control s) (selected_piece s) (current_turn s)
          (game_over s) (score_blue s) (score_red s) (pieces_blue s)
          (pieces_red s) (victory s).

Definition with_cell_control (cc : list (list Z)) (s : State) : State :=
  mkState (pieces s) (piece_count s) cc (selected_piece s) (current_turn s)
          (game_over s) (score_blue s) (score_red s) (pieces_blue s)
          (pieces_red s) (victory s).

Definition with_selected_piece (v : Z) (s : State) : State :=
  mkState (pieces s) (piece_count s) (cell_control s) v (current_turn s)
          (game_over s) (score_blue s) (score_red s) (pieces_blue s)
          (pieces_red s) (victory s).

Definition with_game_over (v : Z) (s : State) : State :=
  mkState (pieces s) (piece_count s) (cell_control s) (selected_piece s)
          (current_turn s) v (score_blue s) (score_red s) (pieces_blue s)
          (pieces_red s) (victory s).

Definition with_scores (sb sr pb pr : Z) (s : State) : State :=
  mkState (pieces s) (piece_count s) (cell_control s) (selected_piece s)
          (current_turn s) (game_over s) sb sr pb pr (victory s).

(** [set_victory_message(blue_won, reason)] *)
Definition set_victory_message (blue_won : bool) (reason : string)
    (s : State) : State :=
  mkState (pieces s) (piece_count s) (cell_control s) (selected_piece s)
          (current_turn s) (game_over s) (score_blue s) (score_red s)
          (pieces_blue s) (pieces_red s) (victory s ++ [(blue_won, reason)]).

(** The live pieces: the first [piece_count] slots of the array. *)
Definition live (s : State) : list Piece :=
  take (Z.to_nat (piece_count s)) (pieces s).

(** ** Array accesses *)

(** [pieces[i]] as an rvalue. *)
Definition read_piece (ps : list Piece) (i : Z) : option Piece :=
  if 0 <=? i then ps !! Z.to_nat i else None.

(** [pieces[i] = p] *)
Definition write_piece (ps : list Piece) (i : Z) (p : Piece)
    : option (list Piece) :=
  if (0 <=? i) && (i <? Z.of_nat (length ps))
  then Some (<[Z.to_nat i := p]> ps) else None.

(** [cell_control[r][c]] as an rvalue. *)
Definition read_cell (cc : list (list Z)) (r c : Z) : option Z :=
  if (0 <=? r) && (0 <=? c)
  then line ← cc !! Z.to_nat r; line !! Z.to_nat c
  else None.

(** [cell_control[r][c] = v] *)
Definition write_cell (cc : list (list Z)) (r c v : Z)
    : option (list (list Z)) :=
  if (0 <=? r) && (0 <=? c) then
    line ← cc !! Z.to_nat r;
    if c <? Z.of_nat (length line)
    then Some (<[Z.to_nat r := <[Z.to_nat c := v]> line]> cc)
    else None
  else None.

(** ** Helpers of game.c *)

Fixpoint find_from (l : list Piece) (i r c : Z) : Z :=
  match l with
  | [] => -1
  | p :: l' =>
      if (row p =? r) && (col p =? c) then i else find_from l' (i + 1) r c
  end.

(** Modelled from the spec: [find_piece_at] of game.c, which is not among
    the sources. It locates the piece at a cell: the index of the first
    live piece standing on [(r, c)], and [-1] when the cell holds none. *)
Definition find_piece_at (s : State) (r c : Z) : Z :=
  find_from (live s) 0 r c.

Definition count_cells (v : Z) (cc : list (list Z)) : Z :=
  Z.of_nat (length (filter (λ x, x = v) (concat cc))).

Definition count_pieces (f : Piece → bool) (l : list Piece) : Z :=
  Z.of_nat (length (filter (λ p, f p = true) l)).

(** Modelled from the spec: [update_scores] of game.c, which is not among
    the sources. The score of a colour is the number of cells it controls
    plus its surviving soldiers; the pieces remaining are counted per
    colour. Nothing else is changed. *)
Definition update_scores (s : State) : State :=
  let any c p := Ascii.eqb (color p) c in
  let soldier c p := Ascii.eqb (color p) c && negb (Ascii.eqb (type p) chr_K) in
  with_scores
    (count_cells 1 (cell_control s) + count_pieces (soldier chr_B) (live s))
    (count_cells 2 (cell_control s) + count_pieces (soldier chr_R) (live s))
    (count_pieces (any chr_B) (live s))
    (count_pieces (any chr_R) (live s))
    s.

(** ** Removal of a captured piece

    [for (int k = idx; k < piece_count - 1; ++k) pieces[k] = pieces[k+1];]
    with [n] the number of iterations left. *)
Fixpoint shift_down (n : nat) (k : Z) (ps : list Piece)
    : option (list Piece) :=
  match n with
  | O => Some ps
  | S n' =>
      p ← read_piece ps (k + 1);
      ps' ← write_piece ps k p;
      shift_down n' (k + 1) ps'
  end.

(** The loop above followed by [--piece_count]. *)
Definition remove_piece (idx : Z) (s : State) : option State :=
  ps' ← shift_down (Z.to_nat (int_sub (piece_count s) 1 - idx)) idx
                   (pieces s);
  Some (with_pieces ps' (int_sub (piece_count s) 1) s).

(** * capture.c *)

(** [(ally == 'B') ? 'R' : 'B'] *)
Definition enemy_of (ally : ascii) : ascii :=
  if Ascii.eqb ally chr_B then chr_R else chr_B.

Definition dr_tab : list Z := [-1; 1; 0; 0].
Definition dc_tab : list Z := [0; 0; -1; 1].
Definition tab_get (tab : list Z) (d : Z) : Z := nth (Z.to_nat d) tab 0.

(** [r < 0 || r > 8 || c < 0 || c > 8] *)
Definition off_board (r c : Z) : bool :=
  (r <? 0) || (r >? 8) || (c <? 0) || (c >? 8).

(** [idx1 >= 0 && pieces[idx1].color == enemy &&
     idx2 >= 0 && pieces[idx2].color == ally], evaluated left to right. *)
Definition flanked (s : State) (idx1 idx2 : Z) (ally enemy : ascii)
    : option bool :=
  if idx1 >=? 0 then
    p1 ← read_piece (pieces s) idx1;
    if Ascii.eqb (color p1) enemy then
      if idx2 >=? 0 then
        p2 ← read_piece (pieces s) idx2;
        Some (Ascii.eqb (color p2) ally)
      else Some false
    else Some false
  else Some false.

Definition msg_blue_king : string := "Le roi bleu a été capturé.".
Definition msg_red_king : string := "Le roi rouge a été capturé.".

(** The King branch shared by both rules: the victory message, the removal
    of the piece, [game_over = 1] and [return]. *)
Definition capture_king (idx : Z) (king : Piece) (s : State) : option State :=
  let blue_king_captured := Ascii.eqb (color king) chr_B in
  let s1 := set_victory_message (negb blue_king_captured)
              (if blue_king_captured then msg_blue_king else msg_red_king) s in
  s2 ← remove_piece idx s1;
  Some (with_game_over 1 s2).

(** [if (selected_piece > idx) --selected_piece;] *)
Definition adjust_selected (idx : Z) (s : State) : State :=
  if selected_piece s >? idx
  then with_selected_piece (int_sub (selected_piece s) 1) s else s.

(** The soldier branch of the Linca rule, up to the restart of the scan. *)
Definition linca_take (idx1 r1 c1 : Z) (s : State) : option State :=
  cc ← (if (r1 >=? 0) && (r1 <? 9) && (c1 >=? 0) && (c1 <? 9)
        then write_cell (cell_control s) r1 c1 0
        else Some (cell_control s));
  s1 ← remove_piece idx1 (with_cell_control cc s);
  Some (adjust_selected idx1 s1).

(** The [for (int d = 0; d < 4; ++d)] loop of [check_linca_capture]; every
    iteration uses one unit of [fuel]. A capture sets [d = -1], so that the
    [++d] of the loop resumes the scan at direction 0. *)
Fixpoint linca_loop (fuel : nat) (r c : Z) (ally enemy : ascii) (d : Z)
    (s : State) : option State :=
  match fuel with
  | O => None
  | S fuel' =>
      if negb (d <? 4) then Some s else
      let r1 := int_add r (tab_get dr_tab d) in
      let c1 := int_add c (tab_get dc_tab d) in
      let r2 := int_add r (int_mul 2 (tab_get dr_tab d)) in
      let c2 := int_add c (int_mul 2 (tab_get dc_tab d)) in
      if off_board r2 c2 then linca_loop fuel' r c ally enemy (d + 1) s else
      let idx1 := find_piece_at s r1 c1 in
      let idx2 := find_piece_at s r2 c2 in
      flanked s idx1 idx2 ally enemy ≫= λ hit : bool,
      if hit then
        p1 ← read_piece (pieces s) idx1;
        if Ascii.eqb (type p1) chr_K then capture_king idx1 p1 s
        else
          s' ← linca_take idx1 r1 c1 s;
          linca_loop fuel' r c ally enemy (-1 + 1) s'
      else linca_loop fuel' r c ally enemy (d + 1) s
  end.

(** Iterations granted to the loop: four per live piece and four more
    (every restart follows the removal of a live piece). *)
Definition linca_fuel (s : State) : nat :=
  4 * Z.to_nat (piece_count s) + 5.

Definition check_linca_capture (moved_index : Z) (s : State)
    : option State :=
  moved ← read_piece (pieces s) moved_index;
  let r := row moved in
  let c := col moved in
  let ally := color moved in
  let enemy := enemy_of ally in
  linca_loop (linca_fuel s) r c ally enemy 0 s.

(** The tally loop of [check_auto_defeat]:
    [(blue_count, blue_king, red_count, red_king)]. *)
Fixpoint tally (n : nat) (i : Z) (ps : list Piece) (acc : Z * Z * Z * Z)
    : option (Z * Z * Z * Z) :=
  match n with
  | O => Some acc
  | S n' =>
      p ← read_piece ps i;
      let '(bc, bk, rc, rk) := acc in
      let acc' :=
        if Ascii.eqb (color p) chr_B then
          if Ascii.eqb (type p) chr_K then (bc, int_add bk 1, rc, rk)
          else (int_add bc 1, bk, rc, rk)
        else
          if Ascii.eqb (type p) chr_K then (bc, bk, rc, int_add rk 1)
          else (bc, bk, int_add rc 1, rk) in
      tally n' (i + 1) ps acc'
  end.

Definition msg_blue_defeat : string :=
  "Les bleus n'ont plus qu'un pion et un roi.".
Definition msg_red_defeat : string :=
  "Les rouges n'ont plus qu'un pion et un roi.".

Definition check_auto_defeat (s : State) : option State :=
  t ← tally (Z.to_nat (piece_count s)) 0 (pieces s) (0, 0, 0, 0);
  let '(blue_count, blue_king, red_count, red_king) := t in
  let s1 :=
    if (game_over s =? 0) && (blue_count =? 1) && (blue_king =? 1)
    then with_game_over 1 (set_victory_message false msg_blue_defeat s)
    else s in
  let s2 :=
    if (game_over s1 =? 0) && (red_count =? 1) && (red_king =? 1)
    then with_game_over 1 (set_victory_message true msg_red_defeat s1)
    else s1 in
  Some s2.

(** [if (back_row >= 0 && back_row < 9 && back_col >= 0 && back_col < 9)
     { idx_back = find_piece_at(...);
       if (idx_back >= 0 && pieces[idx_back].color == enemy) return; }] *)
Definition seltou_protected (s : State) (back_row back_col : Z)
    (enemy : ascii) : option bool :=
  if (back_row >=? 0) && (back_row <? 9) && (back_col >=? 0) && (back_col <? 9)
  then
    let idx_back := find_piece_at s back_row back_col in
    if idx_back >=? 0 then
      pb ← read_piece (pieces s) idx_back;
      Some (Ascii.eqb (color pb) enemy)
    else Some false
  else Some false.

Definition check_seltou_capture (moved_index old_row old_col : Z) (s : State)
    : option State :=
  moved ← read_piece (pieces s) moved_index;
  let ally := color moved in
  let enemy := enemy_of ally in
  let r := row moved in
  let c := col moved in
  if negb (r =? old_row) && negb (c =? old_col) then Some s else
  if (r =? old_row) && (c =? old_col) then Some s else
  let dr := if negb (r =? old_row) then (if r >? old_row then 1 else -1)
            else 0 in
  let dc := if negb (c =? old_col) then (if c >? old_col then 1 else -1)
            else 0 in
  let enemy_row := int_add r dr in
  let enemy_col := int_add c dc in
  if off_board enemy_row enemy_col then Some s else
  let idx_enemy := find_piece_at s enemy_row enemy_col in
  if idx_enemy <? 0 then Some s else
  pe ← read_piece (pieces s) idx_enemy;
  if negb (Ascii.eqb (color pe) enemy) then Some s else
  let back_row := int_add enemy_row dr in
  let back_col := int_add enemy_col dc in
  seltou_protected s back_row back_col enemy ≫= λ guarded : bool,
  if guarded then Some s else
  if Ascii.eqb (type pe) chr_K then capture_king idx_enemy pe s else
  cc ← write_cell (cell_control s) enemy_row enemy_col 0;
  s1 ← remove_piece idx_enemy (with_cell_control cc s);
  _ ← read_piece (pieces s1) idx_enemy;   (* read by the printf *)
  check_auto_defeat (update_scores (adjust_selected idx_enemy s1)).

(** * net.c: sending and receiving a move *)

(** A C string: the characters before the first NUL. *)
Fixpoint strlen (s : string) : Z :=
  match s with
  | EmptyString => 0
  | String ch s' => if Ascii.eqb ch zero then 0 else 1 + strlen s'
  end.

(** ** [TCP_Send_Message]

    The socket is an oracle: [reply k len] is what the [k]-th call of
    [send] returns when asked to send [len] bytes. A call is logged as
    [(offset, len, returned)]. *)
Definition send_call : Type := Z * Z * Z.


(** [while (total < 4) { r = send(s, move + total, 4 - total, 0); ... }],
    one unit of [fuel] per test of the loop condition. *)
Fixpoint send_loop (fuel : nat) (reply : nat → Z → Z) (k : nat) (total : Z)
    : option (Z * list send_call) :=
  match fuel with
  | O => None
  | S fuel' =>
      if total <? 4 then
        let r := reply k (int_sub 4 total) in
        let call := (total, int_sub 4 total, r) in
        if r <=? 0 then Some (-1, [call])
        else
          '(n, log) ← send_loop fuel' reply (S k) (int_add total r);
          Some (n, call :: log)
      else Some (total, [])
  end.

(** [move] is [None] for a NULL pointer. The result is the value returned
    and the calls made to [send]. Four sends of one byte at least, and a
    last test of the condition, bound the loop. *)
Definition TCP_Send_Message (reply : nat → Z → Z) (move : option string)
    : option (Z * list send_call) :=
  match move with
  | None => Some (-1, [])
  | Some m =>
      if negb (strlen m =? 4) then Some (-1, [])
      else send_loop 5 reply 0 0
  end.

(** ** [gui_move_piece_callback] *)

Definition INVALID_SOCKET : Z := -1.

(** What the callback asks of GTK and of the socket layer. *)
Inductive effect : Type :=
| QueueDraw
| Shutdown (s : Z)
| Close (s : Z).

(** The globals the callback works on: the game, and of net.c [g_socket]
    and [my_color]; [effects] lists the calls made, oldest first. *)
Record World := mkWorld {
  game : State;
  g_socket : Z;
  my_color : ascii;
  effects : list effect
}.

Definition with_game (g : State) (w : World) : World :=
  mkWorld g (g_socket w) (my_color w) (effects w).

Definition do_effect (e : effect) (w : World) : World :=
  mkWorld (game w) (g_socket w) (my_color w) (effects w ++ [e]).

(** A [char] as an [int] (signed). *)
Definition char_code (ch : ascii) : Z :=
  let n := Z.of_nat (nat_of_ascii ch) in
  if n <? 128 then n else n - 256.

(** [toupper] in the C locale. *)
Definition toupper (x : Z) : Z :=
  if (97 <=? x) && (x <=? 122) then x - 32 else x.

Definition msg_invalid_move : string :=
  "L'adversaire a joué un coup invalide.".

(** The code under the label [invalid_move]. *)
Definition invalid_move (w : World) : World :=
  let g1 := with_game_over 1 (game w) in
  let g2 := set_victory_message (Ascii.eqb (my_color w) chr_B)
              msg_invalid_move g1 in
  let w1 := do_effect QueueDraw (with_game g2 w) in
  if negb (g_socket w1 =? INVALID_SOCKET) then
    let w2 := do_effect (Close (g_socket w1))
                (do_effect (Shutdown (g_socket w1)) w1) in
    mkWorld (game w2) INVALID_SOCKET (my_color w2) (effects w2)
  else w1.

(** The origin and destination named by a token:
    [(from_row, from_col, to_row, to_col)]. *)
Definition decode (msg : string) : option (Z * Z * Z * Z) :=
  c0 ← String.get 0 msg;
  c1 ← String.get 1 msg;
  c2 ← String.get 2 msg;
  c3 ← String.get 3 msg;
  let N := 9 in
  let from_col := toupper (char_code c0) - 65 in
  let from_row := N - (char_code c1 - 48) in
  let to_col := toupper (char_code c2) - 65 in
  let to_row := N - (char_code c3 - 48) in
  Some (from_row, from_col, to_row, to_col).

Section PeerMove.

(** [can_move] and [move_piece] are functions of game.c: the callback is
    studied for any legality test of the game state and any way of
    applying a move. *)
Variable can_move : Z → Z → Z → State → bool.
Variable move_piece : Z → Z → Z → World → World.

Definition gui_move_piece_callback (msg : string) (w : World)
    : option World :=
  if negb (strlen msg =? 4) then Some w else
  '(from_row, from_col, to_row, to_col) ← decode msg;
  let piece_idx := find_piece_at (game w) from_row from_col in
  if piece_idx <? 0 then Some (invalid_move w) else
  p ← read_piece (pieces (game w)) piece_idx;
  if negb (Ascii.eqb (color p) (current_turn (game w)))
  then Some (invalid_move w) else
  if negb (can_move piece_idx to_row to_col (game w))
  then Some (invalid_move w) else
  Some (do_effect QueueDraw (move_piece piece_idx to_row to_col w)).

End PeerMove.

(** ** [recv_move]

    The socket is an oracle here too: [incoming k len] is what the [k]-th
    call of [recv] returns when asked for [len] bytes at most, with the
    bytes it has stored at the address given. *)
Definition BUFFER_SIZE : nat := 5.

(** When [recv] reports bytes, they are no more than it was asked for, and
    it has stored as many as it reports. *)
Definition recv_ok (incoming : nat → Z → Z * list ascii) : Prop :=
  ∀ k len, 0 < (incoming k len).1 →
    (incoming k len).1 <= len
    ∧ Z.of_nat (length (incoming k len).2) = (incoming k len).1.

(** [buffer[i] = ch] *)
Definition write_char (buffer : list ascii) (i : Z) (ch : ascii)
    : option (list ascii) :=
  if (0 <=? i) && (i <? Z.of_nat (length buffer))
  then Some (<[Z.to_nat i := ch]> buffer) else None.

(** The bytes that [recv] stores from [buffer + off] on. *)
Fixpoint store (buffer : list ascii) (off : Z) (data : list ascii)
    : option (list ascii) :=
  match data with
  | [] => Some buffer
  | ch :: data' =>
      buffer' ← write_char buffer off ch;
      store buffer' (off + 1) data'
  end.

(** [while (total < 4) { r = recv(s, buffer + total, 4 - total, 0); ... }]
    and what follows the loop, one unit of [fuel] per test of the loop
    condition. The result is the value returned, the number of calls made
    to [recv] so far, the buffer, and the chunks received, oldest first. A
    call of [recv] that reports no byte has stored none. *)
Fixpoint recv_loop (fuel : nat) (incoming : nat → Z → Z * list ascii)
    (k : nat) (total : Z) (buffer : list ascii)
    : option (Z * nat * list ascii * list (list ascii)) :=
  match fuel with
  | O => None
  | S fuel' =>
      if total <? 4 then
        let '(r, data) := incoming k (int_sub 4 total) in
        if r <=? 0 then Some (r, S k, buffer, [])
        else
          buffer' ← store buffer total data;
          '(n, k', b, chunks) ←
            recv_loop fuel' incoming (S k) (int_add total r) buffer';
          Some (n, k', b, data :: chunks)
      else
        buffer' ← write_char buffer 4 zero;
        Some (total, k, buffer', [])
  end.

(** Four calls that store one byte at least, and a last test of the
    condition, bound the loop. *)
Definition recv_move (incoming : nat → Z → Z * list ascii) (k : nat)
    (buffer : list ascii)
    : option (Z * nat * list ascii * list (list ascii)) :=
  recv_loop 5 incoming k 0 buffer.

(** ** [server_loop] and [client_loop] *)

(** [g_strdup(buffer)]: the characters before the first NUL; the copy
    leaves the array when there is none. *)
Fixpoint g_strdup (buffer : list ascii) : option string :=
  match buffer with
  | [] => None
  | ch :: buffer' =>
      if Ascii.eqb ch zero then Some EmptyString
      else String ch <$> g_strdup buffer'
  end.

(** [ctx->running] is written by the thread of the interface: [running i]
    is what the [i]-th test of the loop condition reads. The result is the
    messages handed to [g_idle_add] for [gui_move_piece_callback], oldest
    first, and the chunks received. One unit of [fuel] per test of the
    condition. The store [ctx->running = 0] that ends the function is not
    part of the result. *)
Fixpoint server_loop (fuel : nat) (incoming : nat → Z → Z * list ascii)
    (running : nat → bool) (i k : nat) (buffer : list ascii)
    : option (list string * list (list ascii)) :=
  match fuel with
  | O => None
  | S fuel' =>
      if running i then
        '(bytes_received, k', buffer', chunks) ←
          recv_move incoming k buffer;
        if bytes_received <=? 0 then Some ([], chunks)
        else
          msg_copy ← g_strdup buffer';
          '(msgs, log) ←
            server_loop fuel' incoming running (S i) k' buffer';
          Some (msg_copy :: msgs, chunks ++ log)
      else Some ([], [])
  end.

(** [client_loop] is the same code, the text it prints apart. *)
Definition client_loop := server_loop.

(** * args.c: the command line

    An argument is the string of its characters before the NUL. The
    functions of the C library are parameters: [strtol tok] is the value
    that [strtol(tok, &end, 10)] returns with the text left at [end],
    [atoi] is the function of that name, and [malloc n] tells whether the
    allocation of [n] bytes succeeds. *)

Inductive game_mode_t : Type :=
| MODE_LOCAL
| MODE_SERVER
| MODE_CLIENT
| MODE_NONE.

Definition mode_eqb (a b : game_mode_t) : bool :=
  match a, b with
  | MODE_LOCAL, MODE_LOCAL | MODE_SERVER, MODE_SERVER
  | MODE_CLIENT, MODE_CLIENT | MODE_NONE, MODE_NONE => true
  | _, _ => false
  end.

Record args_t := mk_args {
  mode : game_mode_t;
  is_ia : Z;
  is_ia_both : Z;
  host : option string;   (* NULL, or the string allocated *)
  port : Z;
  help : Z;
  error : Z
}.

Definition init_args : args_t := mk_args MODE_NONE 0 0 None 0 0 0.

Definition with_mode (m : game_mode_t) (a : args_t) : args_t :=
  mk_args m (is_ia a) (is_ia_both a) (host a) (port a) (help a) (error a).
Definition with_ia (ia both : Z) (a : args_t) : args_t :=
  mk_args (mode a) ia both (host a) (port a) (help a) (error a).
Definition with_host (h : option string) (a : args_t) : args_t :=
  mk_args (mode a) (is_ia a) (is_ia_both a) h (port a) (help a) (error a).
Definition with_port (p : Z) (a : args_t) : args_t :=
  mk_args (mode a) (is_ia a) (is_ia_both a) (host a) p (help a) (error a).
Definition with_help (v : Z) (a : args_t) : args_t :=
  mk_args (mode a) (is_ia a) (is_ia_both a) (host a) (port a) v (error a).
Definition with_error (v : Z) (a : args_t) : args_t :=
  mk_args (mode a) (is_ia a) (is_ia_both a) (host a) (port a) (help a) v.

(** [*s]: the first character, NUL for the empty string. *)
Definition deref (s : string) : ascii :=
  match s with
  | EmptyString => zero
  | String ch _ => ch
  end.

(** [strchr(s, ch)] for a [ch] that is not NUL: the offset of the first
    [ch] of [s], if any. *)
Fixpoint strchr (s : string) (ch : ascii) : option nat :=
  match s with
  | EmptyString => None
  | String x s' => if Ascii.eqb x ch then Some O else S <$> strchr s' ch
  end.

(** [s + n], for [n] at most the length of [s]. *)
Fixpoint advance (s : string) (n : nat) {struct n} : string :=
  match n, s with
  | O, _ => s
  | S n', String _ s' => advance s' n'
  | S _, EmptyString => EmptyString
  end.

(** [strncpy(dst, s, n); dst[n] = 0], for [n] at most the length of [s]. *)
Fixpoint strncpy (s : string) (n : nat) {struct n} : string :=
  match n, s with
  | O, _ => EmptyString
  | S n', String ch s' => String ch (strncpy s' n')
  | S _, EmptyString => EmptyString
  end.

Section Libc.
Variable strtol : string → Z * string.
Variable atoi : string → Z.
Variable malloc : Z → bool.

(** The result is the value returned, [*host] and [*port]. *)
Definition parse_address (addr_str : string) (host : option string)
    (port : Z) : Z * option string * Z :=
  match strchr addr_str ":" with
  | None => (-1, host, port)
  | Some colon_pos =>
      let port := atoi (advance addr_str (S colon_pos)) in
      if (port <=? 0) || (port >? 65535) then (-1, host, port)
      else
        let host_len := Z.of_nat colon_pos in
        if malloc (int_add host_len 1)
        then (0, Some (strncpy addr_str colon_pos), port)
        else (-1, None, port)
  end.

(** [tok] is [None] for a NULL pointer; [out_port] is never NULL in this
    program. The result is the value returned and [*out_port]. *)
Definition parse_port_token (tok : option string) (out_port : Z) : Z * Z :=
  match tok with
  | None => (-1, out_port)
  | Some tok =>
      let '(val, end_) := strtol tok in
      if Ascii.eqb (deref tok) zero || negb (Ascii.eqb (deref end_) zero)
      then (-1, out_port)
      else if (val <=? 0) || (val >? 65535) then (-1, out_port)
      else (0, val)
  end.

(** The loop of [parse_args] over [argv[i]], [argv[i+1]], ...: [inl] for a
    [return] from within the loop, [inr] with [args] and [ia_count] when
    the loop runs to its end. *)
Fixpoint parse_loop (toks : list string) (args : args_t) (ia_count : Z)
    : args_t + args_t * Z :=
  match toks with
  | [] => inr (args, ia_count)
  | tok :: toks' =>
      if String.eqb tok "-h" || String.eqb tok "--help"
      then inl (with_help 1 args)
      else if String.eqb tok "-l" || String.eqb tok "--local"
      then parse_loop toks' (with_mode MODE_LOCAL args) ia_count
      else if String.eqb tok "-s" || String.eqb tok "--server"
      then parse_loop toks' (with_mode MODE_SERVER args) ia_count
      else if String.eqb tok "-c" || String.eqb tok "--client"
      then parse_loop toks' (with_mode MODE_CLIENT args) ia_count
      else if String.eqb tok "-ia" || String.eqb tok "--ia"
      then parse_loop toks' args (int_add ia_count 1)
      else if negb (Ascii.eqb (deref tok) "-") then
        if mode_eqb (mode args) MODE_SERVER && (port args =? 0) then
          let '(ret, p) := parse_port_token (Some tok) (port args) in
          if negb (ret =? 0) then inl (with_error 1 (with_port p args))
          else parse_loop toks' (with_port p args) ia_count
        else if mode_eqb (mode args) MODE_CLIENT
                && bool_decide (host args = None) then
          let '(ret, h, p) := parse_address tok (host args) (port args) in
          if negb (ret =? 0)
          then inl (with_error 1 (with_port p (with_host h args)))
          else parse_loop toks' (with_port p (with_host h args)) ia_count
        else inl (with_error 1 args)
      else inl (with_error 1 args)
  end.

(** The code after the loop. *)
Definition finish_args (args : args_t) (ia_count : Z) : args_t :=
  let args := with_ia (if ia_count >=? 1 then 1 else 0)
                      (if ia_count >=? 2 then 1 else 0) args in
  let args := if mode_eqb (mode args) MODE_NONE
              then with_error 1 args else args in
  let args := if mode_eqb (mode args) MODE_SERVER && (port args =? 0)
              then with_error 1 args else args in
  if mode_eqb (mode args) MODE_CLIENT
     && (bool_decide (host args = None) || (port args =? 0))
  then with_error 1 args else args.

(** [argc] is the length of [argv]. *)
Definition parse_args (argv : list string) : args_t :=
  let argc := Z.of_nat (length argv) in
  if argc <? 2 then with_error 1 init_args
  else
    match parse_loop (drop 1 argv) init_args 0 with
    | inl args => args
    | inr (args, ia_count) => finish_args args ia_count
    end.

End Libc.

(** [free_args]; [None] for a NULL pointer. *)
Definition free_args (args : option args_t) : option args_t :=
  match args with
  | Some a => if bool_decide (host a = None) then Some a
              else Some (with_host None a)
  | None => None
  end.

(** * Positions and vocabulary of the properties *)

(** ** Positions used by the unit tests (tests/TestCapture.c)

    [reset_game_state()] followed by [pieces[piece_count++] = ...] for every
    piece of [ps]; the slots left of the 20 hold a piece outside the board. *)
Definition empty_board : list (list Z) := replicate 9 (replicate 9 0).

Definition spare : Piece := mkPiece (-1) (-1) chr_P chr_P.

Definition test_state (ps : list Piece) : State :=
  mkState (ps ++ replicate (20 - length ps)%nat spare)
          (Z.of_nat (length ps)) empty_board (-1) chr_B 0 0 0 0 0 [].

Definition soldier (r c : Z) (col : ascii) : Piece := mkPiece r c col chr_P.
Definition king (r c : Z) (col : ascii) : Piece := mkPiece r c col chr_K.

(** ** Well-formed states *)

(** The array has its 20 slots and [piece_count] of them are live. *)
Definition array_ok (s : State) : Prop :=
  length (pieces s) = 20%nat ∧ 0 <= piece_count s <= 20.

(** The grid has its 9 rows of 9 cells. *)
Definition board_ok (cc : list (list Z)) : Prop :=
  length cc = 9%nat ∧ ∀ (i : nat) (line : list Z),
    cc !! i = Some line → length line = 9%nat.

(** ** Cells *)

Definition stands_on (r c : Z) (p : Piece) : Prop := row p = r ∧ col p = c.

(** ** One capture *)

(** The live piece of index [i] has left the array. *)
Definition removed (i : nat) (s s' : State) : Prop :=
  array_ok s' ∧ live s' = delete i (live s)
  ∧ piece_count s' = piece_count s - 1.

(** ** The scan of [check_linca_capture] as a run of captures *)

Section LincaScan.
Variables (r c : Z) (ally : ascii).

(** The two cells examined in direction [d]. *)
Definition near (d : Z) : Z * Z :=
  (int_add r (tab_get dr_tab d), int_add c (tab_get dc_tab d)).
Definition far (d : Z) : Z * Z :=
  (int_add r (int_mul 2 (tab_get dr_tab d)),
   int_add c (int_mul 2 (tab_get dc_tab d))).

Definition near_idx (d : Z) (s : State) : Z :=
  find_piece_at s (near d).1 (near d).2.

(** The test made in direction [d]: does the scan capture there? *)
Definition scan_dir (d : Z) (s : State) : option bool :=
  if off_board (far d).1 (far d).2 then Some false
  else flanked s (near_idx d s) (find_piece_at s (far d).1 (far d).2)
               ally (enemy_of ally).

(** The captures of one call, in order: soldiers, each followed by a new
    scan, and at most one King, which ends the call. *)
Inductive linca_run : State → State → Prop :=
| run_done s :
    (∀ d, 0 <= d < 4 → scan_dir d s = Some false) →
    linca_run s s
| run_king s d p1 s' :
    0 <= d < 4 →
    scan_dir d s = Some true →
    read_piece (pieces s) (near_idx d s) = Some p1 →
    type p1 = chr_K →
    capture_king (near_idx d s) p1 s = Some s' →
    linca_run s s'
| run_soldier s d p1 s1 s' :
    0 <= d < 4 →
    scan_dir d s = Some true →
    read_piece (pieces s) (near_idx d s) = Some p1 →
    type p1 ≠ chr_K →
    linca_take (near_idx d s) (near d).1 (near d).2 s = Some s1 →
    linca_run s1 s' →
    linca_run s s'.

End LincaScan.

(** ** The tally of [check_auto_defeat] *)

Definition is_king (p : Piece) : bool := Ascii.eqb (type p) chr_K.
Definition is_blue (p : Piece) : bool := Ascii.eqb (color p) chr_B.

(** The four counters as the loop computes them: a piece that is not blue
    counts as red, a piece that is not a King counts as a soldier. *)
Definition tally_of (l : list Piece) : Z * Z * Z * Z :=
  (count_pieces (λ p, is_blue p && negb (is_king p)) l,
   count_pieces (λ p, is_blue p && is_king p) l,
   count_pieces (λ p, negb (is_blue p) && negb (is_king p)) l,
   count_pieces (λ p, negb (is_blue p) && is_king p) l).

Definition blue_loses (s : State) : State :=
  with_game_over 1 (set_victory_message false msg_blue_defeat s).
Definition red_loses (s : State) : State :=
  with_game_over 1 (set_victory_message true msg_red_defeat s).

(** ** Auto-defeat in the terms of the rules *)

(** A piece of the game: Blue or Red, King or soldier. *)
Definition valid_piece (p : Piece) : Prop :=
  (color p = chr_B ∨ color p = chr_R) ∧ (type p = chr_K ∨ type p = chr_P).

Definition valid_pieceb (p : Piece) : bool :=
  (Ascii.eqb (color p) chr_B || Ascii.eqb (color p) chr_R)
  && (Ascii.eqb (type p) chr_K || Ascii.eqb (type p) chr_P).

Definition kings_of (x : ascii) (l : list Piece) : Z :=
  count_pieces (λ p, Ascii.eqb (color p) x && Ascii.eqb (type p) chr_K) l.
Definition soldiers_of (x : ascii) (l : list Piece) : Z :=
  count_pieces (λ p, Ascii.eqb (color p) x && Ascii.eqb (type p) chr_P) l.

(** Colour [x] is reduced to exactly one King and exactly one soldier. *)
Definition lone (x : ascii) (l : list Piece) : Prop :=
  kings_of x l = 1 ∧ soldiers_of x l = 1.

(** The position of [test_auto_defeat]: both sides hold a King and one
    soldier. *)
Definition tie_state : State :=
  test_state [king 0 0 chr_B; soldier 0 1 chr_B;
              king 8 8 chr_R; soldier 8 7 chr_R].

(** ** The steps of [check_seltou_capture] *)

(** [(x > old) ? 1 : -1] when [x != old], and 0 otherwise. *)
Definition step_of (x old : Z) : Z :=
  if x =? old then 0 else if x >? old then 1 else -1.

(** The move changed the row or the column, and not both. *)
Definition straight (moved : Piece) (old_row old_col : Z) : bool :=
  xorb (row moved =? old_row) (col moved =? old_col).

(** The cell ahead of the moved piece, and the cell one step further. *)
Definition target (moved : Piece) (old_row old_col : Z) : Z * Z :=
  (int_add (row moved) (step_of (row moved) old_row),
   int_add (col moved) (step_of (col moved) old_col)).
Definition behind (moved : Piece) (old_row old_col : Z) : Z * Z :=
  (int_add (target moved old_row old_col).1 (step_of (row moved) old_row),
   int_add (target moved old_row old_col).2 (step_of (col moved) old_col)).

(** The soldier branch of the Seltou rule. *)
Definition seltou_take (idx er ec : Z) (s : State) : option State :=
  cc ← write_cell (cell_control s) er ec 0;
  s1 ← remove_piece idx (with_cell_control cc s);
  _ ← read_piece (pieces s1) idx;
  check_auto_defeat (update_scores (adjust_selected idx s1)).

(** ** Positions with one piece per cell *)

Definition cell_of (p : Piece) : Z * Z := (row p, col p).

(** No two live pieces stand on the same cell. *)
Definition one_per_cell (l : list Piece) : Prop := NoDup (cell_of <$> l).

(** ** What a call of [check_seltou_capture] does *)

Definition on_board (r c : Z) : Prop := 0 <= r <= 8 ∧ 0 <= c <= 8.

(** A piece of colour [e] stands on the board cell [(br, bc)]. *)
Definition guarded_by (l : list Piece) (br bc : Z) (e : ascii) : Prop :=
  on_board br bc ∧ ∃ q, q ∈ l ∧ stands_on br bc q ∧ color q = e.

(** The outcome of a call for the piece [moved] that came from
    [(old_row, old_col)]: nothing, for one of the reasons the code tests,
    or the capture of the piece found on the cell ahead. *)
Inductive seltou_outcome (moved : Piece) (old_row old_col : Z)
    (s s' : State) : Prop :=
| seltou_nothing :
    s' = s →
    straight moved old_row old_col = false
    ∨ off_board (target moved old_row old_col).1
                (target moved old_row old_col).2 = true
    ∨ (∀ p, p ∈ live s →
         ¬ stands_on (target moved old_row old_col).1
                     (target moved old_row old_col).2 p)
    ∨ (∃ p, p ∈ live s
         ∧ stands_on (target moved old_row old_col).1
                     (target moved old_row old_col).2 p
         ∧ read_piece (pieces s)
             (find_piece_at s (target moved old_row old_col).1
                              (target moved old_row old_col).2) = Some p
         ∧ color p ≠ enemy_of (color moved))
    ∨ guarded_by (live s) (behind moved old_row old_col).1
                 (behind moved old_row old_col).2 (enemy_of (color moved)) →
    seltou_outcome moved old_row old_col s s'
| seltou_taken idx pe :
    straight moved old_row old_col = true →
    on_board (target moved old_row old_col).1
             (target moved old_row old_col).2 →
    idx = find_piece_at s (target moved old_row old_col).1
                        (target moved old_row old_col).2 →
    0 <= idx < piece_count s →
    live s !! Z.to_nat idx = Some pe →
    stands_on (target moved old_row old_col).1
              (target moved old_row old_col).2 pe →
    color pe = enemy_of (color moved) →
    seltou_protected s (behind moved old_row old_col).1
      (behind moved old_row old_col).2 (enemy_of (color moved)) = Some false →
    (if is_king pe then capture_king idx pe s
     else seltou_take idx (target moved old_row old_col).1
            (target moved old_row old_col).2 s) = Some s' →
    seltou_outcome moved old_row old_col s s'.

(** The position of [test_seltou_deux_pieces] with the rear piece turned
    Blue: Blue has moved from (3,4) to (4,4), a Red soldier stands ahead on
    (5,4) and a Blue soldier behind it on (6,4). *)
Definition ally_behind_state : State :=
  test_state [soldier 4 4 chr_B; soldier 5 4 chr_R; soldier 6 4 chr_B].

(** The position of [test_seltou_deux_pieces]: two Red soldiers in a row
    ahead of the Blue piece moved from (3,4) to (4,4). *)
Definition deux_pieces_state : State :=
  test_state [soldier 4 4 chr_B; soldier 5 4 chr_R; soldier 6 4 chr_R].

(** The position of [test_seltou_out_of_bounds2]: a piece on (-3,-6) said
    to come from (0,-3), and a piece on (-1,0). *)
Definition out_of_bounds_state : State :=
  test_state [soldier (-3) (-6) chr_B; soldier (-1) 0 chr_R].

(** ** The pieces taken by a call *)

(** The cell [(i, j)] held one of the soldiers of [taken]. *)
Definition cleared_by (taken : list Piece) (i j : Z) : bool :=
  existsb (λ p, negb (is_king p) && (row p =? i) && (col p =? j)) taken.

(** The list left by deleting, one after the other, the indices [idxs]. *)
Definition deletions (idxs : list nat) (l : list Piece) : list Piece :=
  foldl (λ l i, delete i l) l idxs.

(** The pieces that these deletions take away, in the order of their
    removal. *)
Fixpoint taken_at (idxs : list nat) (l : list Piece) : list Piece :=
  match idxs with
  | [] => []
  | i :: idxs' =>
      match l !! i with
      | Some p => p :: taken_at idxs' (delete i l)
      | None => taken_at idxs' (delete i l)
      end
  end.

(** The victory recorded when a piece of colour [a] takes a King. *)
Definition king_victory (a : ascii) : bool * string :=
  (Ascii.eqb a chr_B, if Ascii.eqb a chr_B then msg_red_king else msg_blue_king).

(** [s'] is [s] after the capture of the pieces [taken], removed from the
    live pieces at the successive indices [idxs]: the survivors keep their
    order and their fields, [piece_count] has dropped by one per piece
    taken, and the cells of the board that changed are those of the
    soldiers taken, now 0. *)
Record history (s s' : State) (taken : list Piece) (idxs : list nat)
    : Prop := mkHistory {
  hist_array : array_ok s';
  hist_board : board_ok (cell_control s');
  hist_live : live s' = deletions idxs (live s);
  hist_idxs : length idxs = length taken;
  hist_perm : live s ≡ₚ taken ++ live s';
  hist_count : piece_count s' = piece_count s - Z.of_nat (length taken);
  hist_cells : ∀ i j, on_board i j →
    read_cell (cell_control s') i j =
      if cleared_by taken i j then Some 0 else read_cell (cell_control s) i j
}.

(** How a call of [check_linca_capture] by a piece of colour [a] ends:
    with soldiers only and the match as it was, or with a King, taken last,
    and the match won by [a]. *)
Definition linca_ending (a : ascii) (s s' : State) (taken : list Piece)
    : Prop :=
  (Forall (λ p, is_king p = false) taken
   ∧ game_over s' = game_over s ∧ victory s' = victory s)
  ∨ (∃ front k, taken = front ++ [k]
       ∧ Forall (λ p, is_king p = false) front ∧ is_king k = true
       ∧ game_over s' = 1
       ∧ victory s' = victory s ++
           [(Ascii.eqb a chr_B,
             if Ascii.eqb a chr_B then msg_red_king else msg_blue_king)]).

(** The position of [test_linca_simple_capture]: a Red soldier between the
    Blue piece just moved to (4,4) and a Blue soldier. *)
Definition linca_simple_state : State :=
  test_state [soldier 4 4 chr_B; soldier 4 5 chr_R; soldier 4 6 chr_B].

(** Blue has moved from (3,4) to (4,4); the Red King stands ahead on (5,4),
    a cell marked as controlled by Red. *)
Definition king_ahead_state : State :=
  with_cell_control (<[5%nat := <[4%nat := 2]> (replicate 9 0)]> empty_board)
    (test_state [soldier 4 4 chr_B; king 5 4 chr_R]).

(** Blue has moved from (5,4) to (4,4). The Red King on (3,4) is flanked by
    the Blue soldier on (2,4), and the Red soldier on (4,5) by the Blue
    soldier on (4,6). *)
Definition king_first_state : State :=
  test_state [soldier 4 4 chr_B; king 3 4 chr_R; soldier 2 4 chr_B;
              soldier 4 5 chr_R; soldier 4 6 chr_B].

(** ** The sandwich rule in the terms of the rules *)

(** The four orthogonal steps, in the order of the scan. *)
Definition directions : list (Z * Z) := [(-1, 0); (1, 0); (0, -1); (0, 1)].

(** [p] is an enemy piece next to the piece of colour [ally] standing on
    [(r, c)], with a piece of colour [ally] directly beyond it, on the
    board. *)
Definition sandwiched (l : list Piece) (r c : Z) (ally : ascii) (p : Piece)
    : bool :=
  Ascii.eqb (color p) (enemy_of ally)
  && existsb (λ d : Z * Z,
       (row p =? r + d.1) && (col p =? c + d.2)
       && negb (off_board (r + 2 * d.1) (c + 2 * d.2))
       && existsb (λ q, (row q =? r + 2 * d.1) && (col q =? c + 2 * d.2)
                        && Ascii.eqb (color q) ally) l)
       directions.

(** The cell [(i, j)] holds a sandwiched piece. *)
Definition sandwich_on (l : list Piece) (r c : Z) (a : ascii) (i j : Z)
    : bool :=
  existsb (λ p, sandwiched l r c a p && (row p =? i) && (col p =? j)) l.

(** ** Sending a move *)






(** A socket that takes three bytes at most at a time. *)
Definition three_at_most (k : nat) (len : Z) : Z := Z.min 3 len.

(** A socket whose peer is gone: every call fails. *)
Definition dead_socket (k : nat) (len : Z) : Z := -1.

(** ** Receiving a move *)

(** It is Blue's turn and the socket is open; the token ["A1A2"] of the
    peer names the Red soldier on (8,0). *)
Definition peer_world : World :=
  mkWorld (test_state [soldier 0 0 chr_B; soldier 8 0 chr_R]) 7 chr_B [].

Definition any_move (idx to_row to_col : Z) (g : State) : bool := true.
Definition no_change (idx to_row to_col : Z) (w : World) : World := w.

(** ** Positions of the further properties *)

(** [linca_simple_state] with the Blue soldier of (4,6), index 2,
    selected. *)
Definition selected_state : State :=
  with_selected_piece 2 linca_simple_state.

(** Blue has moved the piece of index 1 from (3,4) to (4,4); the Red
    soldier ahead on (5,4) has index 0. Far from them a Red soldier on
    (0,6) stands between the Blue soldiers of (0,5), index 2, and
    (0,7). *)
Definition stale_index_state : State :=
  test_state [soldier 5 4 chr_R; soldier 4 4 chr_B; soldier 0 5 chr_B;
              soldier 0 6 chr_R; soldier 0 7 chr_B].

(** Blue has moved from (3,4) to (4,4) and faces the Red soldier of
    (5,4), which nothing protects; Red has one more soldier and its King,
    Blue its King and two soldiers. *)
Definition last_soldier_state : State :=
  test_state [soldier 4 4 chr_B; soldier 5 4 chr_R; king 0 0 chr_B;
              soldier 0 1 chr_B; king 8 8 chr_R; soldier 8 0 chr_R].

(** The same pieces with the Red soldier sandwiched on (4,5) between the
    Blue piece just moved to (4,4) and the Blue soldier of (4,6). *)
Definition last_sandwich_state : State :=
  test_state [soldier 4 4 chr_B; soldier 4 5 chr_R; soldier 4 6 chr_B;
              king 0 0 chr_B; king 8 8 chr_R; soldier 8 0 chr_R].

(** [p] is not of the colour opposed to [a]. *)
Definition spared (a : ascii) (p : Piece) : bool :=
  negb (Ascii.eqb (color p) (enemy_of a)).

(** ** Receiving frames *)


(** [buffer] with [data] stored from index [off] on. *)
Definition patch (buffer : list ascii) (off : nat) (data : list ascii)
    : list ascii :=
  take off buffer ++ data ++ drop (off + length data) buffer.

(** The C string held by the bytes [l] followed by a NUL. *)
Fixpoint cstr (l : list ascii) : string :=
  match l with
  | [] => EmptyString
  | ch :: l' => if Ascii.eqb ch zero then EmptyString else String ch (cstr l')
  end.

(** The chunks are what the calls number [k], [k + 1], ... of [recv] have
    stored, each asked for the bytes that the frame still lacked after
    [total] bytes, and each having reported bytes. *)
Fixpoint received (incoming : nat → Z → Z * list ascii) (k : nat)
    (total : Z) (chunks : list (list ascii)) : Prop :=
  match chunks with
  | [] => True
  | chunk :: chunks' =>
      0 < (incoming k (4 - total)).1
      ∧ chunk = (incoming k (4 - total)).2
      ∧ received incoming (S k) (total + Z.of_nat (length chunk)) chunks'
  end.

(** The same over the frames of a whole run of the loop: after the fourth
    byte of a frame the next call asks for 4 bytes again. *)
Fixpoint stream (incoming : nat → Z → Z * list ascii) (k : nat)
    (total : Z) (log : list (list ascii)) : Prop :=
  match log with
  | [] => True
  | chunk :: log' =>
      0 < (incoming k (4 - total)).1
      ∧ chunk = (incoming k (4 - total)).2
      ∧ stream incoming (S k) ((total + Z.of_nat (length chunk)) mod 4) log'
  end.

(** A socket for the examples: the [k]-th call of [recv] gives the [k]-th
    chunk of [script], cut to the length asked for; when the script is
    over the peer has closed the connection. *)
Definition scripted (script : list (list ascii)) (k : nat) (len : Z)
    : Z * list ascii :=
  match script !! k with
  | Some chunk =>
      (Z.of_nat (length (take (Z.to_nat len) chunk)),
       take (Z.to_nat len) chunk)
  | None => (0, [])
  end.

(** The peer sends ["A1A2"] in two chunks, then one byte, and closes. *)
Definition short_script : list (list ascii) :=
  [["A"; "1"]; ["A"; "2"]; ["B"]]%char.

(** A buffer not yet written. *)
Definition fresh_buffer : list ascii := replicate BUFFER_SIZE "x"%char.

(** The flag [running] is cleared before the sixth test. *)
Definition five_rounds (i : nat) : bool := (i <? 5)%nat.

(** The letters and digits that name the columns and the rows of the
    board in a token. *)
Definition is_column (ch : ascii) : Prop :=
  65 <= char_code ch <= 73 ∨ 97 <= char_code ch <= 105.
Definition is_rank (ch : ascii) : Prop := 49 <= char_code ch <= 57.

(** The string of the four characters. *)
Definition token (c0 c1 c2 c3 : ascii) : string :=
  String c0 (String c1 (String c2 (String c3 EmptyString))).

(** The world of [peer_world] with the socket already closed. *)
Definition closed_world : World :=
  mkWorld (game peer_world) INVALID_SOCKET chr_B [].

(** ** The command line *)

Definition help_tokens : list string := ["-h"; "--help"]%string.
Definition local_tokens : list string :=
  ["-l"; "--local"; "-ia"; "--ia"]%string.
Definition option_tokens : list string :=
  ["-l"; "--local"; "-s"; "--server"; "-c"; "--client"; "-ia"; "--ia"]%string.
Definition valid_port (p : Z) : Prop := 1 <= p <= 65535.

(** What holds of [args] at every test of the loop condition. *)
Definition loop_inv (a : args_t) : Prop :=
  error a = 0 ∧ help a = 0 ∧ is_ia a = 0 ∧ is_ia_both a = 0
  ∧ (port a = 0 ∨ valid_port (port a)).

(** A libc for the examples: [strtol] and [atoi] as they read a text that
    starts with neither a blank nor a sign and holds no number beyond the
    range of [int], and a [malloc] that succeeds. *)
Fixpoint digits (s : string) (acc : Z) : Z * string :=
  match s with
  | EmptyString => (acc, EmptyString)
  | String ch s' =>
      let d := Z.of_nat (nat_of_ascii ch) - 48 in
      if (0 <=? d) && (d <=? 9) then digits s' (10 * acc + d) else (acc, s)
  end.
Definition strtol_dec (tok : string) : Z * string := digits tok 0.
Definition atoi_dec (s : string) : Z := (digits s 0).1.
Definition malloc_ok (n : Z) : bool := true.

(** * Properties *)

(** ** The test positions *)

Lemma test_state_array_ok ps :
  (length ps ≤ 20)%nat → array_ok (test_state ps).
Proof.
  intros H. unfold array_ok, test_state. simpl.
  rewrite length_app, length_replicate. lia.
Qed.

Lemma test_state_live ps :
  (length ps ≤ 20)%nat → live (test_state ps) = ps.
Proof.
  intros H. unfold live, test_state. simpl.
  rewrite Nat2Z.id. by rewrite take_app_length.
Qed.

Lemma empty_board_ok : board_ok empty_board.
Proof.
  split; [reflexivity|]. intros i line Hl.
  apply list_elem_of_lookup_2 in Hl. unfold empty_board in Hl.
  apply elem_of_replicate in Hl as [-> _]. reflexivity.
Qed.

(** ** Machine integers *)

Lemma wrap_id z : int_range z → wrap z = z.
Proof.
  unfold int_range, wrap. intros H.
  rewrite Z.mod_small by lia. lia.
Qed.

Lemma wrap_range z : int_range (wrap z).
Proof.
  unfold int_range, wrap.
  pose proof (Z.mod_pos_bound (z + 2147483648) 4294967296). lia.
Qed.

Lemma int_add_id a b : int_range (a + b) → int_add a b = a + b.
Proof. apply wrap_id. Qed.

Lemma int_sub_id a b : int_range (a - b) → int_sub a b = a - b.
Proof. apply wrap_id. Qed.

(** ** The unit tests of tests/TestCapture.c *)

Example test_linca_simple_capture :
  ∃ s', check_linca_capture 0 linca_simple_state = Some s'
    ∧ piece_count s' = 2 ∧ find_piece_at s' 4 5 = -1.
Proof. eexists. split_and!; [vm_compute; reflexivity|..]; reflexivity. Qed.

Example test_seltou_simple_capture :
  ∃ s', check_seltou_capture 0 3 4
          (test_state [soldier 4 4 chr_B; soldier 5 4 chr_R]) = Some s'
    ∧ piece_count s' = 1 ∧ find_piece_at s' 5 4 = -1.
Proof. eexists. split_and!; [vm_compute; reflexivity|..]; reflexivity. Qed.

Example test_auto_defeat :
  ∃ s', check_auto_defeat tie_state = Some s' ∧ game_over s' = 1.
Proof. eexists. split; [vm_compute; reflexivity|reflexivity]. Qed.

Example test_seltou_out_of_bounds :
  ∃ s', check_seltou_capture 0 0 0
          (test_state [soldier 0 0 chr_B; soldier (-1) 0 chr_R]) = Some s'
    ∧ piece_count s' = 2.
Proof. eexists. split; [vm_compute; reflexivity|reflexivity]. Qed.

Example test_seltou_out_of_bounds2 :
  ∃ s', check_seltou_capture 0 0 (-3) out_of_bounds_state = Some s'
    ∧ piece_count s' = 2.
Proof. eexists. split; [vm_compute; reflexivity|reflexivity]. Qed.

Example test_seltou_out_of_bounds3 :
  ∃ s', check_seltou_capture 0 0 (wrap 2456000000)
          (test_state [soldier (wrap 2456000000) 4300000 chr_B;
                       soldier (-1) 0 chr_R]) = Some s'
    ∧ piece_count s' = 2.
Proof. eexists. split; [vm_compute; reflexivity|reflexivity]. Qed.

Example test_double_capture_seltou_linca :
  ∃ s', check_seltou_capture 0 3 4
          (test_state [soldier 4 4 chr_B; soldier 5 4 chr_R;
                       soldier 4 5 chr_R; soldier 4 6 chr_B])
        ≫= check_linca_capture 0 = Some s'
    ∧ find_piece_at s' 5 4 = -1 ∧ find_piece_at s' 6 4 = -1
    ∧ piece_count s' = 2.
Proof. eexists. split_and!; [vm_compute; reflexivity|..]; reflexivity. Qed.

Example test_triple_capture :
  ∃ s', check_seltou_capture 0 1 4
          (test_state [soldier 2 4 chr_B; soldier 3 4 chr_R;
                       soldier 2 5 chr_R; soldier 2 6 chr_B;
                       soldier 2 3 chr_R; soldier 2 2 chr_B])
        ≫= check_linca_capture 0 = Some s'
    ∧ find_piece_at s' 3 4 = -1 ∧ find_piece_at s' 4 5 = -1
    ∧ find_piece_at s' 4 3 = -1 ∧ piece_count s' = 3.
Proof. eexists. split_and!; [vm_compute; reflexivity|..]; reflexivity. Qed.

Example test_linca_deux_pieces :
  ∃ s', check_linca_capture 0
          (test_state [soldier 4 3 chr_B; soldier 4 5 chr_R;
                       soldier 4 6 chr_R; soldier 4 7 chr_B]) = Some s'
    ∧ piece_count s' = 4.
Proof. eexists. split; [vm_compute; reflexivity|reflexivity]. Qed.

Example test_seltou_deux_pieces :
  ∃ s', check_seltou_capture 0 3 4 deux_pieces_state = Some s'
    ∧ piece_count s' = 3.
Proof. eexists. split; [vm_compute; reflexivity|reflexivity]. Qed.

(** ** [find_piece_at] *)

Lemma find_from_miss l i r c :
  find_from l i r c = -1 → 0 <= i → ∀ p, p ∈ l → ¬ stands_on r c p.
Proof.
  revert i. induction l as [|q l IH]; intros i Hf Hi p Hp.
  - by apply not_elem_of_nil in Hp.
  - simpl in Hf. apply elem_of_cons in Hp.
    destruct ((row q =? r) && (col q =? c)) eqn:E; [lia|].
    destruct Hp as [->|Hp].
    + unfold stands_on. intros [? ?]. subst.
      rewrite !Z.eqb_refl in E. discriminate.
    + eapply IH; eauto. lia.
Qed.

Lemma find_from_hit l i r c :
  find_from l i r c ≠ -1 → 0 <= i →
  ∃ p, l !! Z.to_nat (find_from l i r c - i) = Some p ∧ stands_on r c p
       ∧ i <= find_from l i r c < i + Z.of_nat (length l).
Proof.
  revert i. induction l as [|q l IH]; intros i Hf Hi; [done|].
  simpl in *. destruct ((row q =? r) && (col q =? c)) eqn:E.
  - exists q. apply andb_true_iff in E as [E1 E2].
    apply Z.eqb_eq in E1, E2. rewrite Z.sub_diag. simpl.
    split_and!; [done|by split|lia|lia].
  - destruct (IH (i + 1) Hf ltac:(lia)) as (p & Hl & Hs & Hr).
    exists p. split_and!; [|done|lia|lia].
    replace (Z.to_nat (find_from l (i + 1) r c - i))
      with (S (Z.to_nat (find_from l (i + 1) r c - (i + 1)))) by lia.
    apply Hl.
Qed.

Lemma find_from_neg l i r c :
  0 <= i → find_from l i r c < 0 → find_from l i r c = -1.
Proof.
  intros Hi Hn. destruct (decide (find_from l i r c = -1)) as [|Hne]; [done|].
  destruct (find_from_hit l i r c Hne Hi) as (? & _ & _ & ?). lia.
Qed.

(** A hit is the first piece of the list standing on the cell. *)
Lemma find_from_first l i r c (j : nat) p :
  0 <= i → l !! j = Some p → stands_on r c p →
  i <= find_from l i r c <= i + Z.of_nat j.
Proof.
  revert i j. induction l as [|q l IH]; intros i j Hi Hl Hs; [done|].
  simpl. destruct ((row q =? r) && (col q =? c)) eqn:E; [lia|].
  destruct j as [|j].
  - simpl in Hl. injection Hl as ->. destruct Hs as [<- <-].
    rewrite !Z.eqb_refl in E. discriminate.
  - simpl in Hl. specialize (IH (i + 1) j ltac:(lia) Hl Hs). lia.
Qed.

Lemma live_length s :
  array_ok s → length (live s) = Z.to_nat (piece_count s).
Proof.
  intros [Hl Hc]. unfold live. rewrite length_take. lia.
Qed.

Lemma live_lookup s (i : nat) :
  (i < Z.to_nat (piece_count s))%nat → live s !! i = pieces s !! i.
Proof. intros. unfold live. by apply lookup_take_lt. Qed.

(** What a search returns: [-1], or the index of a live piece on the cell. *)
Lemma find_piece_at_spec s r c :
  array_ok s →
  (find_piece_at s r c = -1 ∧ ∀ p, p ∈ live s → ¬ stands_on r c p) ∨
  (∃ p, 0 <= find_piece_at s r c < piece_count s
        ∧ read_piece (pieces s) (find_piece_at s r c) = Some p
        ∧ live s !! Z.to_nat (find_piece_at s r c) = Some p
        ∧ stands_on r c p).
Proof.
  intros Hok. unfold find_piece_at.
  destruct (decide (find_from (live s) 0 r c = -1)) as [E|E].
  - left. split; [done|]. by apply find_from_miss with (i := 0).
  - right. destruct (find_from_hit _ 0 r c E ltac:(lia)) as (p & Hl & Hs & Hr).
    rewrite Z.sub_0_r in Hl. rewrite live_length in Hr by done.
    exists p. destruct Hok as [? ?]. split_and!; [lia|lia| |done|done].
    unfold read_piece. destruct (0 <=? _) eqn:E0; [|lia].
    rewrite <- live_lookup; [done|lia].
Qed.

(** ** Removal is a compaction *)

Lemma shift_down_spec n k ps :
  0 <= k → (Z.to_nat k + n < length ps)%nat →
  ∃ ps', shift_down n k ps = Some ps' ∧ length ps' = length ps ∧
    ∀ j : nat, ps' !! j =
      if decide (Z.to_nat k ≤ j < Z.to_nat k + n)%nat
      then ps !! S j else ps !! j.
Proof.
  revert k ps. induction n as [|n IH]; intros k ps Hk Hlen.
  - exists ps. split_and!; [done..|]. intros j. case_decide; [lia|done].
  - simpl. unfold read_piece.
    destruct (0 <=? k + 1) eqn:E1; [|lia].
    destruct (lookup_lt_is_Some_2 ps (Z.to_nat (k + 1)) ltac:(lia)) as [p Hp].
    rewrite Hp. simpl. unfold write_piece.
    destruct ((0 <=? k) && (k <? Z.of_nat (length ps))) eqn:E2;
      [|apply andb_false_iff in E2 as [?|?]; lia].
    simpl.
    destruct (IH (k + 1) (<[Z.to_nat k := p]> ps) ltac:(lia)) as (ps' & Hs & Hl & Hj).
    { rewrite length_insert. lia. }
    exists ps'. rewrite length_insert in Hl. split_and!; [done..|].
    intros j. rewrite Hj.
    replace (Z.to_nat (k + 1)) with (S (Z.to_nat k)) in * by lia.
    repeat case_decide; try lia.
    + apply list_lookup_insert_ne. lia.
    + assert (j = Z.to_nat k) as -> by lia.
      rewrite list_lookup_insert_eq by lia. done.
    + apply list_lookup_insert_ne. lia.
Qed.

(** Removing the live piece of index [idx] deletes it from the live pieces,
    which keep their order, and only decrements [piece_count]. *)
Lemma remove_piece_spec idx s :
  array_ok s → 0 <= idx < piece_count s →
  ∃ ps', remove_piece idx s = Some (with_pieces ps' (piece_count s - 1) s)
    ∧ length ps' = 20%nat
    ∧ take (Z.to_nat (piece_count s - 1)) ps'
      = delete (Z.to_nat idx) (live s).
Proof.
  intros [Hlen Hpc] Hidx. unfold remove_piece.
  rewrite (int_sub_id (piece_count s) 1) by (unfold int_range; lia).
  destruct (shift_down_spec (Z.to_nat (piece_count s - 1 - idx)) idx (pieces s))
    as (ps' & Hs & Hl & Hj); [lia|lia|].
  rewrite Hs. simpl. exists ps'. split_and!; [done|congruence|].
  apply list_eq. intros j.
  destruct (decide (j < Z.to_nat (piece_count s - 1))%nat) as [Hlt|Hge].
  - rewrite lookup_take_lt by done. rewrite Hj. rewrite list_lookup_delete.
    repeat case_decide; try lia; symmetry; apply live_lookup; lia.
  - rewrite lookup_take_ge by lia. symmetry. apply lookup_ge_None_2.
    rewrite length_delete.
    + unfold live. rewrite length_take. lia.
    + apply lookup_lt_is_Some_2. unfold live. rewrite length_take. lia.
Qed.

(** ** Writing a cell of the grid *)

Lemma write_cell_spec cc r c v :
  board_ok cc → 0 <= r < 9 → 0 <= c < 9 →
  ∃ cc', write_cell cc r c v = Some cc' ∧ board_ok cc' ∧
    ∀ i j, read_cell cc' i j =
      if decide (i = r ∧ j = c) then Some v else read_cell cc i j.
Proof.
  intros [Hrows Hcols] Hr Hc. unfold write_cell.
  destruct ((0 <=? r) && (0 <=? c)) eqn:E;
    [|apply andb_false_iff in E as [?|?]; lia].
  destruct (lookup_lt_is_Some_2 cc (Z.to_nat r) ltac:(lia)) as [line Hline].
  rewrite Hline. simpl. pose proof (Hcols _ _ Hline) as Hlen.
  destruct (c <? Z.of_nat (length line)) eqn:E2; [|lia].
  eexists. split; [done|]. split.
  - split; [by rewrite length_insert|].
    intros i l. destruct (decide (i = Z.to_nat r)) as [->|Hne].
    + rewrite list_lookup_insert_eq by lia. intros [= <-].
      by rewrite length_insert.
    + rewrite list_lookup_insert_ne by done. apply Hcols.
  - intros i j. unfold read_cell.
    destruct ((0 <=? i) && (0 <=? j)) eqn:E3.
    + apply andb_true_iff in E3 as [? ?].
      destruct (decide (Z.to_nat i = Z.to_nat r)) as [Hi|Hi].
      * rewrite Hi. rewrite list_lookup_insert_eq by lia. simpl.
        assert (i = r) as -> by lia. rewrite Hline. simpl.
        destruct (decide (Z.to_nat j = Z.to_nat c)) as [Hj|Hj].
        -- rewrite Hj. rewrite list_lookup_insert_eq by lia.
           case_decide; [done|lia].
        -- rewrite list_lookup_insert_ne by done. case_decide; [lia|done].
      * rewrite list_lookup_insert_ne by done. case_decide; [lia|done].
    + case_decide; [|done]. apply andb_false_iff in E3 as [?|?]; lia.
Qed.

(** ** One capture *)

Lemma adjust_selected_fields idx s :
  pieces (adjust_selected idx s) = pieces s
  ∧ piece_count (adjust_selected idx s) = piece_count s
  ∧ cell_control (adjust_selected idx s) = cell_control s
  ∧ game_over (adjust_selected idx s) = game_over s
  ∧ victory (adjust_selected idx s) = victory s
  ∧ current_turn (adjust_selected idx s) = current_turn s.
Proof. unfold adjust_selected. by destruct (selected_piece s >? idx). Qed.

(** The King branch: the piece leaves, the grid is not touched, the match
    is over and the side that is not the King's has won. *)
Lemma capture_king_spec idx p s :
  array_ok s → 0 <= idx < piece_count s →
  ∃ s', capture_king idx p s = Some s'
    ∧ removed (Z.to_nat idx) s s'
    ∧ cell_control s' = cell_control s
    ∧ game_over s' = 1
    ∧ victory s' = victory s ++
        [(negb (Ascii.eqb (color p) chr_B),
          if Ascii.eqb (color p) chr_B then msg_blue_king else msg_red_king)].
Proof.
  intros Hok Hidx. unfold capture_king.
  set (s1 := set_victory_message _ _ s).
  destruct (remove_piece_spec idx s1) as (ps' & Hr & Hl & Ht); [done..|].
  rewrite Hr. simpl. eexists. split; [done|].
  unfold removed, array_ok. destruct Hok as [_ ?].
  split_and!; simpl; try done; lia.
Qed.

(** The soldier branch of the Linca rule: the piece leaves, its cell is
    cleared when it lies on the board, and no other cell changes. *)
Lemma linca_take_spec idx r1 c1 s :
  array_ok s → board_ok (cell_control s) → 0 <= idx < piece_count s →
  ∃ s', linca_take idx r1 c1 s = Some s'
    ∧ removed (Z.to_nat idx) s s'
    ∧ board_ok (cell_control s')
    ∧ game_over s' = game_over s
    ∧ victory s' = victory s
    ∧ ∀ i j, read_cell (cell_control s') i j =
        if decide (i = r1 ∧ j = c1 ∧ 0 <= r1 < 9 ∧ 0 <= c1 < 9)
        then Some 0 else read_cell (cell_control s) i j.
Proof.
  intros Hok Hb Hidx. unfold linca_take.
  assert (∃ cc, (if (r1 >=? 0) && (r1 <? 9) && (c1 >=? 0) && (c1 <? 9)
                 then write_cell (cell_control s) r1 c1 0
                 else Some (cell_control s)) = Some cc
            ∧ board_ok cc
            ∧ ∀ i j, read_cell cc i j =
                if decide (i = r1 ∧ j = c1 ∧ 0 <= r1 < 9 ∧ 0 <= c1 < 9)
                then Some 0 else read_cell (cell_control s) i j)
    as (cc & -> & Hbcc & Hcc).
  { destruct ((r1 >=? 0) && (r1 <? 9) && (c1 >=? 0) && (c1 <? 9)) eqn:E.
    - repeat (apply andb_true_iff in E as [E ?]).
      destruct (write_cell_spec (cell_control s) r1 c1 0) as (cc & Hw & ? & Hcc);
        [done|lia|lia|].
      exists cc. split_and!; [done..|]. intros i j. rewrite Hcc.
      repeat case_decide; try done; lia.
    - exists (cell_control s). split_and!; [done..|]. intros i j.
      case_decide; [|done].
      repeat (apply andb_false_iff in E as [E|E]); lia. }
  simpl. set (s0 := with_cell_control cc s).
  destruct (remove_piece_spec idx s0) as (ps' & Hr & Hl & Ht); [done..|].
  rewrite Hr. simpl. eexists. split; [done|].
  destruct (adjust_selected_fields idx
              (with_pieces ps' (piece_count s - 1) s0))
    as (E1 & E2 & E3 & E4 & E5 & _).
  unfold removed, array_ok. destruct Hok as [_ ?].
  split_and!.
  - by rewrite E1.
  - rewrite E2. simpl. lia.
  - rewrite E2. simpl. lia.
  - unfold live at 1. rewrite E1, E2. apply Ht.
  - by rewrite E2.
  - by rewrite E3.
  - by rewrite E4.
  - by rewrite E5.
  - by rewrite E3.
Qed.

(** ** The scan of [check_linca_capture] *)

Section LincaScanFacts.
Variables (r c : Z) (ally : ascii).

Lemma linca_loop_unfold fuel d s :
  linca_loop (S fuel) r c ally (enemy_of ally) d s =
  if negb (d <? 4) then Some s else
  scan_dir r c ally d s ≫= λ hit : bool,
  if hit then
    p1 ← read_piece (pieces s) (near_idx r c d s);
    if Ascii.eqb (type p1) chr_K then capture_king (near_idx r c d s) p1 s
    else
      s' ← linca_take (near_idx r c d s) (near r c d).1 (near r c d).2 s;
      linca_loop fuel r c ally (enemy_of ally) 0 s'
  else linca_loop fuel r c ally (enemy_of ally) (d + 1) s.
Proof.
  simpl. unfold scan_dir, near_idx, near, far. simpl.
  destruct (negb (d <? 4)); [done|].
  by destruct (off_board _ _).
Qed.

Lemma linca_loop_run fuel d s s' :
  0 <= d →
  (∀ d', 0 <= d' < d → scan_dir r c ally d' s = Some false) →
  linca_loop fuel r c ally (enemy_of ally) d s = Some s' →
  linca_run r c ally s s'.
Proof.
  revert d s. induction fuel as [|fuel IH]; intros d s Hd Hbefore; [done|].
  rewrite linca_loop_unfold.
  destruct (d <? 4) eqn:E; simpl.
  - destruct (scan_dir r c ally d s) as [[|]|] eqn:Hscan; simpl; [| |done].
    + destruct (read_piece (pieces s) (near_idx r c d s)) as [p1|] eqn:Hp1;
        simpl; [|done].
      destruct (Ascii.eqb (type p1) chr_K) eqn:Hk.
      * apply Ascii.eqb_eq in Hk. intros Hc.
        eapply run_king; eauto. lia.
      * apply Ascii.eqb_neq in Hk.
        destruct (linca_take _ _ _ s) as [s1|] eqn:Ht; simpl; [|done].
        intros Hloop. eapply run_soldier; eauto; [lia|].
        eapply (IH 0); [lia| |done]. intros; lia.
    + intros Hloop. eapply (IH (d + 1)); [lia| |done].
      intros d' Hd'. destruct (decide (d' = d)) as [->|]; [done|].
      apply Hbefore. lia.
  - intros [= <-]. apply run_done. intros d' Hd'. apply Hbefore. lia.
Qed.

Lemma flanked_hit s r1 c1 r2 c2 e a :
  array_ok s →
  flanked s (find_piece_at s r1 c1) (find_piece_at s r2 c2) a e = Some true →
  ∃ p1 p2,
    0 <= find_piece_at s r1 c1 < piece_count s
    ∧ read_piece (pieces s) (find_piece_at s r1 c1) = Some p1
    ∧ live s !! Z.to_nat (find_piece_at s r1 c1) = Some p1
    ∧ stands_on r1 c1 p1 ∧ color p1 = e
    ∧ p2 ∈ live s ∧ stands_on r2 c2 p2 ∧ color p2 = a.
Proof.
  intros Hok. unfold flanked.
  destruct (find_piece_at_spec s r1 c1 Hok) as [[-> _]|(p1 & H1 & Hr1 & Hl1 & Hs1)];
    [done|].
  destruct (find_piece_at s r1 c1 >=? 0) eqn:E1; [|lia].
  rewrite Hr1. simpl.
  destruct (Ascii.eqb (color p1) e) eqn:Ec; [|done].
  apply Ascii.eqb_eq in Ec.
  destruct (find_piece_at_spec s r2 c2 Hok) as [[-> _]|(p2 & H2 & Hr2 & Hl2 & Hs2)];
    [done|].
  destruct (find_piece_at s r2 c2 >=? 0) eqn:E2; [|lia].
  rewrite Hr2. simpl. intros [= Ea]. apply Ascii.eqb_eq in Ea.
  exists p1, p2. split_and!; try done; try lia.
  by eapply list_elem_of_lookup_2.
Qed.

Lemma flanked_total s r1 c1 r2 c2 e a :
  array_ok s →
  is_Some (flanked s (find_piece_at s r1 c1) (find_piece_at s r2 c2) a e).
Proof.
  intros Hok. unfold flanked.
  destruct (find_piece_at s r1 c1 >=? 0) eqn:E1; [|done].
  destruct (find_piece_at_spec s r1 c1 Hok) as [[? _]|(p1 & H1 & Hr1 & _)];
    [lia|].
  rewrite Hr1. simpl. destruct (Ascii.eqb (color p1) e); [|done].
  destruct (find_piece_at s r2 c2 >=? 0) eqn:E2; [|done].
  destruct (find_piece_at_spec s r2 c2 Hok) as [[? _]|(p2 & H2 & Hr2 & _)];
    [lia|].
  rewrite Hr2. done.
Qed.

Lemma scan_dir_hit d s :
  array_ok s → scan_dir r c ally d s = Some true →
  ∃ p1 p2,
    off_board (far r c d).1 (far r c d).2 = false
    ∧ 0 <= near_idx r c d s < piece_count s
    ∧ read_piece (pieces s) (near_idx r c d s) = Some p1
    ∧ live s !! Z.to_nat (near_idx r c d s) = Some p1
    ∧ stands_on (near r c d).1 (near r c d).2 p1 ∧ color p1 = enemy_of ally
    ∧ p2 ∈ live s ∧ stands_on (far r c d).1 (far r c d).2 p2 ∧ color p2 = ally.
Proof.
  intros Hok. unfold scan_dir.
  destruct (off_board _ _) eqn:E; [done|]. intros Hf.
  destruct (flanked_hit _ _ _ _ _ _ _ Hok Hf) as (p1 & p2 & ?).
  exists p1, p2. split; [done|]. done.
Qed.

Lemma scan_dir_total d s : array_ok s → is_Some (scan_dir r c ally d s).
Proof.
  intros Hok. unfold scan_dir. destruct (off_board _ _); [done|].
  by apply flanked_total.
Qed.

(** The scan ends within the iterations left to it. *)
Lemma linca_loop_total fuel d s :
  array_ok s → board_ok (cell_control s) → 0 <= d →
  (4 * Z.to_nat (piece_count s) + Z.to_nat (4 - d) < fuel)%nat →
  is_Some (linca_loop fuel r c ally (enemy_of ally) d s).
Proof.
  revert d s. induction fuel as [|fuel IH]; intros d s Hok Hb Hd Hfuel; [lia|].
  rewrite linca_loop_unfold.
  destruct (d <? 4) eqn:E; cbn [negb]; [|done].
  destruct (scan_dir_total d s Hok) as [[|] Hscan]; rewrite Hscan;
    cbn [mbind option_bind].
  - destruct (scan_dir_hit d s Hok Hscan) as (p1 & p2 & _ & Hi & Hr & _).
    rewrite Hr. cbn [mbind option_bind].
    destruct (Ascii.eqb (type p1) chr_K).
    + destruct (capture_king_spec (near_idx r c d s) p1 s Hok Hi) as (s' & -> & _).
      done.
    + destruct (linca_take_spec (near_idx r c d s) (near r c d).1 (near r c d).2 s Hok Hb Hi)
        as (s1 & -> & (Hok1 & _ & Hpc) & Hb1 & _).
      cbn [mbind option_bind]. apply IH; [done..|lia|]. rewrite Hpc.
      destruct Hok as [_ ?]. lia.
  - apply IH; [done..|lia|lia].
Qed.

End LincaScanFacts.

(** A call of [check_linca_capture] on a well-formed state returns, and
    what it did is a run of captures for the moved piece. *)
Lemma check_linca_capture_run moved_index s :
  array_ok s → board_ok (cell_control s) → 0 <= moved_index < 20 →
  ∃ moved s',
    read_piece (pieces s) moved_index = Some moved
    ∧ check_linca_capture moved_index s = Some s'
    ∧ linca_run (row moved) (col moved) (color moved) s s'.
Proof.
  intros Hok Hb Hm. unfold check_linca_capture, read_piece.
  destruct (0 <=? moved_index) eqn:E; [|lia].
  destruct (lookup_lt_is_Some_2 (pieces s) (Z.to_nat moved_index)) as [moved Hmv].
  { destruct Hok as [-> _]. lia. }
  rewrite Hmv. simpl.
  destruct (linca_loop_total (row moved) (col moved) (color moved)
              (linca_fuel s) 0 s Hok Hb) as [s' Hs']; [lia|unfold linca_fuel; lia|].
  exists moved, s'. split_and!; [done..|].
  eapply linca_loop_run; [| |done]; [lia|intros; lia].
Qed.

(** ** [check_auto_defeat] *)

Lemma count_pieces_cons f p l :
  count_pieces f (p :: l) = (if f p then 1 else 0) + count_pieces f l.
Proof.
  unfold count_pieces. rewrite filter_cons.
  destruct (f p); case_decide; try done; simpl; lia.
Qed.

Lemma count_pieces_nonneg f l : 0 <= count_pieces f l.
Proof. unfold count_pieces. lia. Qed.

Lemma count_pieces_le f l : count_pieces f l <= Z.of_nat (length l).
Proof.
  unfold count_pieces. pose proof (length_filter (λ p, f p = true) l). lia.
Qed.

Lemma tally_spec n i ps bc bk rc rk :
  0 <= i → (Z.to_nat i + n ≤ length ps)%nat →
  0 <= bc → 0 <= bk → 0 <= rc → 0 <= rk →
  bc + Z.of_nat n <= 2147483647 → bk + Z.of_nat n <= 2147483647 →
  rc + Z.of_nat n <= 2147483647 → rk + Z.of_nat n <= 2147483647 →
  tally n i ps (bc, bk, rc, rk) =
    let '(bc', bk', rc', rk') := tally_of (take n (drop (Z.to_nat i) ps)) in
    Some (bc + bc', bk + bk', rc + rc', rk + rk').
Proof.
  revert i bc bk rc rk. induction n as [|n IH];
    intros i bc bk rc rk Hi Hlen Hbc Hbk Hrc Hrk Bbc Bbk Brc Brk.
  - simpl. unfold tally_of, count_pieces. simpl. by rewrite !Z.add_0_r.
  - simpl tally. unfold read_piece. destruct (0 <=? i) eqn:E; [|lia].
    destruct (lookup_lt_is_Some_2 ps (Z.to_nat i) ltac:(lia)) as [p Hp].
    rewrite Hp. cbn [mbind option_bind].
    rewrite (drop_S _ _ _ Hp). rewrite firstn_cons.
    unfold tally_of. rewrite !count_pieces_cons.
    replace (S (Z.to_nat i)) with (Z.to_nat (i + 1)) by lia.
    unfold is_blue, is_king.
    destruct (Ascii.eqb (color p) chr_B), (Ascii.eqb (type p) chr_K);
      cbn [andb negb];
      (rewrite IH; [|try lia; try (rewrite int_add_id; unfold int_range; lia)..]);
      unfold tally_of, is_blue, is_king; cbv beta iota;
      rewrite ?int_add_id by (unfold int_range; lia);
      rewrite ?Z.add_0_l, ?Z.add_assoc; reflexivity.
Qed.

(** [check_auto_defeat] always returns, and what it returns depends on the
    flag and on the four counters only. *)
Lemma check_auto_defeat_spec s :
  array_ok s →
  check_auto_defeat s =
    let '(bc, bk, rc, rk) := tally_of (live s) in
    Some (if (game_over s =? 0) && (bc =? 1) && (bk =? 1) then blue_loses s
          else if (game_over s =? 0) && (rc =? 1) && (rk =? 1)
               then red_loses s
          else s).
Proof.
  intros [Hlen Hpc]. unfold check_auto_defeat.
  rewrite tally_spec; try lia.
  change (drop (Z.to_nat 0) (pieces s)) with (pieces s).
  fold (live s). destruct (tally_of (live s)) as [[[bc bk] rc] rk].
  cbn [mbind option_bind]. rewrite !Z.add_0_l.
  destruct ((game_over s =? 0) && (bc =? 1) && (bk =? 1)) eqn:E1.
  - cbn [game_over with_game_over]. done.
  - done.
Qed.

Lemma valid_pieces_check l :
  forallb valid_pieceb l = true → Forall valid_piece l.
Proof.
  induction l as [|p l IH]; simpl; [constructor|].
  intros [Hp Hl]%andb_true_iff. constructor; [|auto].
  apply andb_true_iff in Hp as [Hc Ht].
  apply orb_true_iff in Hc, Ht. rewrite !Ascii.eqb_eq in Hc, Ht. done.
Qed.

Lemma count_pieces_ext f g l :
  Forall (λ p, f p = g p) l → count_pieces f l = count_pieces g l.
Proof.
  induction 1 as [|p l Hp _ IH]; [done|].
  rewrite !count_pieces_cons, Hp, IH. done.
Qed.

Lemma tally_of_valid l :
  Forall valid_piece l →
  tally_of l =
    (soldiers_of chr_B l, kings_of chr_B l,
     soldiers_of chr_R l, kings_of chr_R l).
Proof.
  intros Hv. unfold tally_of, soldiers_of, kings_of.
  repeat apply (f_equal2 pair); apply count_pieces_ext;
    (eapply Forall_impl; [exact Hv|]);
    intros p [Hc Ht]; unfold is_blue, is_king;
    destruct Hc as [-> | ->], Ht as [-> | ->]; reflexivity.
Qed.

Lemma lone_dec_eq x l :
  lone x l ↔ (soldiers_of x l =? 1) && (kings_of x l =? 1) = true.
Proof.
  unfold lone. rewrite andb_true_iff, !Z.eqb_eq. tauto.
Qed.

(** C5, as stated, fails: in the position of [test_auto_defeat] Red has
    exactly one King and one soldier and the match is not over, yet the
    call does not declare Red's opponent the winner (it declares Red). *)
Lemma auto_defeat_tie_counterexample :
  ¬ (lone chr_R (live tie_state) → game_over tie_state = 0 →
     ∃ s' reason, check_auto_defeat tie_state = Some s'
       ∧ game_over s' = 1
       ∧ victory s' = victory tie_state ++ [(true, reason)]).
Proof.
  intros H. destruct H as (s' & reason & Hc & _ & Hv).
  - split; reflexivity.
  - reflexivity.
  - vm_compute in Hc. injection Hc as <-. vm_compute in Hv. discriminate.
Qed.

(** C5 (amended): [check_auto_defeat] returns on every well-formed state.
    If the match is already over the state is left as it is. Otherwise a
    Blue side reduced to one King and one soldier loses at once, and a Red
    side so reduced loses at once unless Blue is so reduced too: the flag
    is set and the other colour is declared the winner. The pieces are
    never touched. *)
Theorem auto_defeat_rule s :
  array_ok s → Forall valid_piece (live s) →
  ∃ s', check_auto_defeat s = Some s'
    ∧ live s' = live s
    ∧ (game_over s ≠ 0 → s' = s)
    ∧ (game_over s = 0 → lone chr_B (live s) →
       game_over s' = 1
       ∧ victory s' = victory s ++ [(false, msg_blue_defeat)])
    ∧ (game_over s = 0 → lone chr_R (live s) → ¬ lone chr_B (live s) →
       game_over s' = 1
       ∧ victory s' = victory s ++ [(true, msg_red_defeat)]).
Proof.
  intros Hok Hv. rewrite (check_auto_defeat_spec s Hok).
  rewrite (tally_of_valid _ Hv). cbv beta iota.
  eexists. split; [reflexivity|].
  rewrite !(lone_dec_eq chr_B), !(lone_dec_eq chr_R).
  destruct (game_over s =? 0) eqn:Eg; cbn [andb].
  - apply Z.eqb_eq in Eg.
    destruct ((soldiers_of chr_B (live s) =? 1) && (kings_of chr_B (live s) =? 1))
      eqn:Eb.
    + split_and!; done.
    + destruct ((soldiers_of chr_R (live s) =? 1) && (kings_of chr_R (live s) =? 1))
        eqn:Er; split_and!; done.
  - apply Z.eqb_neq in Eg. split_and!; done.
Qed.

Lemma auto_defeat_rule_witness :
  array_ok tie_state ∧ Forall valid_piece (live tie_state) ∧
  ∃ s', check_auto_defeat tie_state = Some s'
    ∧ live s' = live tie_state
    ∧ (game_over tie_state ≠ 0 → s' = tie_state)
    ∧ (game_over tie_state = 0 → lone chr_B (live tie_state) →
       game_over s' = 1
       ∧ victory s' = victory tie_state ++ [(false, msg_blue_defeat)])
    ∧ (game_over tie_state = 0 → lone chr_R (live tie_state) →
       ¬ lone chr_B (live tie_state) →
       game_over s' = 1
       ∧ victory s' = victory tie_state ++ [(true, msg_red_defeat)]).
Proof.
  assert (Hok : array_ok tie_state).
  { apply test_state_array_ok. simpl. lia. }
  assert (Hv : Forall valid_piece (live tie_state)).
  { apply valid_pieces_check. reflexivity. }
  split; [exact Hok|]. split; [exact Hv|].
  exact (auto_defeat_rule tie_state Hok Hv).
Defined.

(** C10: when the match is not over and both colours are reduced to one
    King and one soldier, Blue is the loser: the call records the single
    victory of Red. And no call records more than one victory. *)
Theorem auto_defeat_tie_break s :
  array_ok s →
  ∃ s', check_auto_defeat s = Some s'
    ∧ (∃ l, victory s' = victory s ++ l ∧ (length l ≤ 1)%nat)
    ∧ (Forall valid_piece (live s) → game_over s = 0 →
       lone chr_B (live s) → lone chr_R (live s) →
       game_over s' = 1
       ∧ victory s' = victory s ++ [(false, msg_blue_defeat)]).
Proof.
  intros Hok. rewrite (check_auto_defeat_spec s Hok).
  destruct (tally_of (live s)) as [[[bc bk] rc] rk] eqn:Et.
  eexists. split; [reflexivity|]. split.
  - destruct ((game_over s =? 0) && (bc =? 1) && (bk =? 1)).
    + exists [(false, msg_blue_defeat)]. split; [done|simpl; lia].
    + destruct ((game_over s =? 0) && (rc =? 1) && (rk =? 1)).
      * exists [(true, msg_red_defeat)]. split; [done|simpl; lia].
      * exists []. split; [by rewrite app_nil_r|simpl; lia].
  - intros Hv Hg [Hbk Hbs] _. rewrite (tally_of_valid _ Hv) in Et.
    injection Et as <- <- <- <-. rewrite Hg, Hbk, Hbs. done.
Qed.

Lemma auto_defeat_tie_break_witness :
  array_ok tie_state ∧
  ∃ s', check_auto_defeat tie_state = Some s'
    ∧ (∃ l, victory s' = victory tie_state ++ l ∧ (length l ≤ 1)%nat)
    ∧ (Forall valid_piece (live tie_state) → game_over tie_state = 0 →
       lone chr_B (live tie_state) → lone chr_R (live tie_state) →
       game_over s' = 1
       ∧ victory s' = victory tie_state ++ [(false, msg_blue_defeat)]).
Proof.
  assert (Hok : array_ok tie_state).
  { apply test_state_array_ok. simpl. lia. }
  split; [exact Hok|]. exact (auto_defeat_tie_break tie_state Hok).
Defined.

(** ** [check_seltou_capture] *)

Lemma check_seltou_capture_unfold moved_index old_row old_col s moved :
  read_piece (pieces s) moved_index = Some moved →
  check_seltou_capture moved_index old_row old_col s =
    let t := target moved old_row old_col in
    let b := behind moved old_row old_col in
    let idx := find_piece_at s t.1 t.2 in
    if negb (straight moved old_row old_col) then Some s else
    if off_board t.1 t.2 then Some s else
    if idx <? 0 then Some s else
    pe ← read_piece (pieces s) idx;
    if negb (Ascii.eqb (color pe) (enemy_of (color moved))) then Some s else
    seltou_protected s b.1 b.2 (enemy_of (color moved)) ≫= λ guarded : bool,
    if guarded then Some s else
    if Ascii.eqb (type pe) chr_K then capture_king idx pe s
    else seltou_take idx t.1 t.2 s.
Proof.
  intros Hm. unfold check_seltou_capture. rewrite Hm.
  cbn [mbind option_bind].
  unfold straight, behind, target, step_of, seltou_take. cbn [fst snd].
  destruct (row moved =? old_row), (col moved =? old_col);
    cbn [negb andb xorb]; reflexivity.
Qed.

Lemma update_scores_fields s :
  pieces (update_scores s) = pieces s
  ∧ piece_count (update_scores s) = piece_count s
  ∧ cell_control (update_scores s) = cell_control s
  ∧ game_over (update_scores s) = game_over s
  ∧ victory (update_scores s) = victory s.
Proof. done. Qed.

Lemma check_auto_defeat_fields s :
  array_ok s →
  ∃ s', check_auto_defeat s = Some s'
    ∧ pieces s' = pieces s ∧ piece_count s' = piece_count s
    ∧ cell_control s' = cell_control s
    ∧ (∃ l, victory s' = victory s ++ l ∧ (length l ≤ 1)%nat)
    ∧ (game_over s' = game_over s ∨ game_over s' = 1).
Proof.
  intros Hok. rewrite (check_auto_defeat_spec s Hok).
  destruct (tally_of (live s)) as [[[bc bk] rc] rk].
  eexists. split; [reflexivity|].
  destruct ((game_over s =? 0) && (bc =? 1) && (bk =? 1));
    [|destruct ((game_over s =? 0) && (rc =? 1) && (rk =? 1))];
    split_and!; try done; try (by right); try (by left).
  - exists [(false, msg_blue_defeat)]. split; [done|simpl; lia].
  - exists [(true, msg_red_defeat)]. split; [done|simpl; lia].
  - exists []. split; [by rewrite app_nil_r|simpl; lia].
Qed.

(** The soldier branch of the Seltou rule: the piece leaves and its cell,
    which lies on the board, is cleared; no other cell changes. *)
Lemma seltou_take_spec idx er ec s :
  array_ok s → board_ok (cell_control s) → 0 <= idx < piece_count s →
  0 <= er < 9 → 0 <= ec < 9 →
  ∃ s', seltou_take idx er ec s = Some s'
    ∧ removed (Z.to_nat idx) s s'
    ∧ board_ok (cell_control s')
    ∧ (∃ l, victory s' = victory s ++ l ∧ (length l ≤ 1)%nat)
    ∧ (game_over s' = game_over s ∨ game_over s' = 1)
    ∧ ∀ i j, read_cell (cell_control s') i j =
        if decide (i = er ∧ j = ec) then Some 0
        else read_cell (cell_control s) i j.
Proof.
  intros Hok Hb Hidx Her Hec. unfold seltou_take.
  destruct (write_cell_spec (cell_control s) er ec 0 Hb Her Hec)
    as (cc & -> & Hbcc & Hcc).
  cbn [mbind option_bind]. set (s0 := with_cell_control cc s).
  destruct (remove_piece_spec idx s0) as (ps' & Hr & Hl & Ht); [done..|].
  rewrite Hr. cbn [mbind option_bind].
  set (s1 := with_pieces ps' (piece_count s0 - 1) s0).
  assert (is_Some (read_piece (pieces s1) idx)) as [pr ->].
  { unfold read_piece. destruct (Z.leb_spec 0 idx); [|lia].
    apply lookup_lt_is_Some_2. simpl. destruct Hok as [_ ?]. lia. }
  cbn [mbind option_bind].
  destruct (adjust_selected_fields idx s1) as (E1 & E2 & E3 & E4 & E5 & _).
  set (s2 := update_scores (adjust_selected idx s1)).
  assert (Hok2 : array_ok s2).
  { unfold array_ok, s2. simpl. rewrite E1, E2. simpl.
    destruct Hok as [_ ?]. split; [done|lia]. }
  destruct (check_auto_defeat_fields s2 Hok2)
    as (s' & -> & F1 & F2 & F3 & F4 & F5).
  exists s'. split; [done|].
  assert (Hp : pieces s' = ps') by (rewrite F1; unfold s2; simpl; by rewrite E1).
  assert (Hc : piece_count s' = piece_count s - 1)
    by (rewrite F2; unfold s2; simpl; by rewrite E2).
  unfold removed, array_ok. destruct Hok as [_ ?].
  split_and!.
  - by rewrite Hp.
  - lia.
  - lia.
  - unfold live at 1. rewrite Hp, Hc. apply Ht.
  - done.
  - rewrite F3. unfold s2. simpl. by rewrite E3.
  - destruct F4 as (l & Hv & ?). exists l. split; [|done].
    rewrite Hv. unfold s2. simpl. by rewrite E5.
  - destruct F5 as [F5|F5]; [left|by right].
    rewrite F5. unfold s2. simpl. by rewrite E4.
  - intros i j. rewrite F3. unfold s2. simpl. rewrite E3. apply Hcc.
Qed.

Lemma seltou_protected_total s br bc e :
  array_ok s → is_Some (seltou_protected s br bc e).
Proof.
  intros Hok. unfold seltou_protected.
  destruct ((br >=? 0) && (br <? 9) && (bc >=? 0) && (bc <? 9)); [|done].
  destruct (find_piece_at s br bc >=? 0) eqn:E; [|done].
  destruct (find_piece_at_spec s br bc Hok) as [[? _]|(p & _ & -> & _)]; [lia|].
  done.
Qed.

Lemma one_per_cell_same l p q :
  one_per_cell l → p ∈ l → q ∈ l → cell_of p = cell_of q → p = q.
Proof.
  intros Hn [i Hi]%list_elem_of_lookup_1 [j Hj]%list_elem_of_lookup_1 Hc.
  assert ((cell_of <$> l) !! i = Some (cell_of p)) as Hi'
    by (by rewrite list_lookup_fmap, Hi).
  assert ((cell_of <$> l) !! j = Some (cell_of p)) as Hj'
    by (by rewrite list_lookup_fmap, Hj, Hc).
  pose proof (NoDup_lookup _ _ _ _ Hn Hi' Hj') as ->. congruence.
Qed.

Lemma one_per_cell_delete l i : one_per_cell l → one_per_cell (delete i l).
Proof.
  unfold one_per_cell. intros Hn. rewrite list_fmap_delete.
  eapply sublist_NoDup; [done|]. apply sublist_delete.
Qed.

(** With one piece per cell a search finds the piece of the cell. *)
Lemma find_piece_at_unique s r c p :
  array_ok s → one_per_cell (live s) → p ∈ live s → stands_on r c p →
  0 <= find_piece_at s r c < piece_count s
  ∧ read_piece (pieces s) (find_piece_at s r c) = Some p
  ∧ live s !! Z.to_nat (find_piece_at s r c) = Some p.
Proof.
  intros Hok Hn Hp Hs.
  destruct (find_piece_at_spec s r c Hok) as [[_ Hmiss]|(q & Hr & Hq & Hl & Hsq)].
  - by destruct (Hmiss p Hp).
  - assert (q = p) as ->; [|done].
    eapply one_per_cell_same; [done|by eapply list_elem_of_lookup_2|done|].
    unfold cell_of. destruct Hs as [-> ->], Hsq as [-> ->]. done.
Qed.

Lemma off_board_false r c : off_board r c = false ↔ on_board r c.
Proof.
  unfold off_board, on_board.
  destruct (Z.ltb_spec r 0), (Z.gtb_spec r 8), (Z.ltb_spec c 0),
    (Z.gtb_spec c 8); cbn [orb]; split; (done || lia).
Qed.

Lemma off_board_true r c : off_board r c = true ↔ ¬ on_board r c.
Proof.
  rewrite <- off_board_false. destruct (off_board r c); split; done.
Qed.

Lemma seltou_protected_true s br bc e :
  array_ok s → seltou_protected s br bc e = Some true →
  guarded_by (live s) br bc e.
Proof.
  intros Hok. unfold seltou_protected, guarded_by, on_board.
  destruct ((br >=? 0) && (br <? 9) && (bc >=? 0) && (bc <? 9)) eqn:E; [|done].
  repeat (apply andb_true_iff in E as [E ?]).
  destruct (find_piece_at s br bc >=? 0) eqn:E2; [|done].
  destruct (find_piece_at_spec s br bc Hok) as [[? _]|(q & _ & -> & Hl & Hs)];
    [lia|].
  cbn [mbind option_bind]. intros [= Hc%Ascii.eqb_eq].
  split; [lia|]. exists q. split_and!; [|done..].
  by eapply list_elem_of_lookup_2.
Qed.

Lemma seltou_protected_false s br bc e :
  array_ok s → one_per_cell (live s) →
  seltou_protected s br bc e = Some false →
  ¬ guarded_by (live s) br bc e.
Proof.
  intros Hok Hn. unfold seltou_protected, guarded_by, on_board.
  intros Hp [Hb (q & Hq & Hs & Hc)].
  destruct ((br >=? 0) && (br <? 9) && (bc >=? 0) && (bc <? 9)) eqn:E.
  - destruct (find_piece_at_unique s br bc q Hok Hn Hq Hs) as (Hr & Hrd & _).
    destruct (find_piece_at s br bc >=? 0) eqn:E2; [|lia].
    rewrite Hrd in Hp. cbn [mbind option_bind] in Hp.
    injection Hp as Hp. apply Ascii.eqb_neq in Hp. done.
  - repeat (apply andb_false_iff in E as [E|E]); lia.
Qed.

Lemma check_seltou_capture_cases moved_index old_row old_col s :
  array_ok s → board_ok (cell_control s) → 0 <= moved_index < 20 →
  ∃ moved s',
    read_piece (pieces s) moved_index = Some moved
    ∧ check_seltou_capture moved_index old_row old_col s = Some s'
    ∧ seltou_outcome moved old_row old_col s s'.
Proof.
  intros Hok Hb Hm.
  assert (∃ moved, read_piece (pieces s) moved_index = Some moved)
    as [moved Hmv].
  { unfold read_piece. destruct (0 <=? moved_index) eqn:E; [|lia].
    apply lookup_lt_is_Some_2. destruct Hok as [-> _]. lia. }
  exists moved. rewrite (check_seltou_capture_unfold _ _ _ _ _ Hmv).
  cbv zeta.
  set (t := target moved old_row old_col).
  set (b := behind moved old_row old_col).
  destruct (straight moved old_row old_col) eqn:Es; cbn [negb];
    [|exists s; split_and!; [done..|]; apply seltou_nothing; auto].
  destruct (off_board t.1 t.2) eqn:Eo;
    [exists s; split_and!; [done..|]; apply seltou_nothing; auto|].
  destruct (find_piece_at_spec s t.1 t.2 Hok)
    as [[Hf Hmiss]|(pe & Hr & Hrd & Hl & Hs)].
  { rewrite Hf. cbn [Z.ltb Z.compare].
    exists s; split_and!; [done..|]; apply seltou_nothing; auto. }
  destruct (find_piece_at s t.1 t.2 <? 0) eqn:En; [lia|].
  rewrite Hrd. cbn [mbind option_bind].
  destruct (Ascii.eqb (color pe) (enemy_of (color moved))) eqn:Ec; cbn [negb].
  2:{ apply Ascii.eqb_neq in Ec.
      exists s; split_and!; [done..|]; apply seltou_nothing; [done|].
      do 3 right. left. exists pe. split_and!; try done.
      by eapply list_elem_of_lookup_2. }
  apply Ascii.eqb_eq in Ec.
  destruct (seltou_protected_total s b.1 b.2 (enemy_of (color moved)) Hok)
    as [[|] Hg]; rewrite Hg; cbn [mbind option_bind].
  { exists s; split_and!; [done..|]; apply seltou_nothing; [done|].
    do 4 right. by apply seltou_protected_true. }
  apply off_board_false in Eo.
  assert (∃ s', (if Ascii.eqb (type pe) chr_K
                 then capture_king (find_piece_at s t.1 t.2) pe s
                 else seltou_take (find_piece_at s t.1 t.2) t.1 t.2 s)
                = Some s') as [s' Hs'].
  { destruct (Ascii.eqb (type pe) chr_K).
    - destruct (capture_king_spec _ pe s Hok Hr) as (s' & -> & _). by exists s'.
    - destruct Eo as [? ?].
      destruct (seltou_take_spec _ t.1 t.2 s Hok Hb Hr) as (s' & -> & _);
        [lia|lia|]. by exists s'. }
  exists s'. split_and!; [done..|].
  eapply seltou_taken; eauto.
Qed.

(** What the capture of the piece of index [idx] by the Seltou rule leaves:
    the piece is gone; a King ends the match for the mover and leaves the
    grid as it is; a soldier has its cell cleared. *)
Lemma seltou_taken_spec idx pe er ec s s' :
  array_ok s → board_ok (cell_control s) → 0 <= idx < piece_count s →
  on_board er ec →
  (if is_king pe then capture_king idx pe s
   else seltou_take idx er ec s) = Some s' →
  removed (Z.to_nat idx) s s'
  ∧ (is_king pe = true →
     cell_control s' = cell_control s ∧ game_over s' = 1
     ∧ victory s' = victory s ++
         [(negb (Ascii.eqb (color pe) chr_B),
           if Ascii.eqb (color pe) chr_B
           then msg_blue_king else msg_red_king)])
  ∧ (is_king pe = false →
     board_ok (cell_control s')
     ∧ ∀ i j, read_cell (cell_control s') i j =
         if decide (i = er ∧ j = ec) then Some 0
         else read_cell (cell_control s) i j).
Proof.
  intros Hok Hb Hidx [? ?] Hs'. destruct (is_king pe).
  - destruct (capture_king_spec idx pe s Hok Hidx) as (s1 & E & Hr & ? & ? & ?).
    rewrite E in Hs'. injection Hs' as <-. done.
  - destruct (seltou_take_spec idx er ec s Hok Hb Hidx) as (s1 & E & Hr & ? & _ & _ & ?);
      [lia|lia|].
    rewrite E in Hs'. injection Hs' as <-. done.
Qed.

(** C1, as stated, fails: a piece of the mover's colour stands directly
    behind the enemy piece ahead, and the enemy piece is captured all the
    same (the call does not leave the state as it was). *)
Lemma seltou_ally_behind_counterexample :
  ¬ (guarded_by (live ally_behind_state) 6 4 chr_B →
     check_seltou_capture 0 3 4 ally_behind_state = Some ally_behind_state).
Proof.
  intros H.
  assert (Hg : guarded_by (live ally_behind_state) 6 4 chr_B).
  { split; [unfold on_board; lia|]. exists (soldier 6 4 chr_B).
    split_and!; [|done..]. unfold ally_behind_state.
    rewrite test_state_live by (simpl; lia).
    by apply (list_elem_of_lookup_2 _ 2%nat). }
  specialize (H Hg). apply (f_equal (fmap piece_count)) in H.
  vm_compute in H. discriminate.
Qed.

(** C1 (amended): the piece that protects from a Seltou capture is one of
    the enemy's own colour. On a well-formed position with one piece per
    cell, if a piece of the enemy colour stands on the board directly behind
    the cell ahead of the moved piece, the call changes nothing; whenever the
    call changes the state, it has removed the enemy piece standing on the
    cell ahead, and no piece of the enemy colour stood behind it; and an
    enemy piece ahead of a straight move that nothing so protects is
    removed. *)
Theorem seltou_protection moved_index old_row old_col s :
  array_ok s → board_ok (cell_control s) → 0 <= moved_index < 20 →
  one_per_cell (live s) →
  ∃ moved s',
    read_piece (pieces s) moved_index = Some moved
    ∧ check_seltou_capture moved_index old_row old_col s = Some s'
    ∧ let t := target moved old_row old_col in
      let b := behind moved old_row old_col in
      let e := enemy_of (color moved) in
      (guarded_by (live s) b.1 b.2 e → s' = s)
      ∧ (s' ≠ s →
         ∃ i pe, live s !! i = Some pe ∧ stands_on t.1 t.2 pe
           ∧ color pe = e ∧ live s' = delete i (live s)
           ∧ ¬ guarded_by (live s) b.1 b.2 e)
      ∧ (straight moved old_row old_col = true → on_board t.1 t.2 →
         ∀ pe, pe ∈ live s → stands_on t.1 t.2 pe → color pe = e →
         ¬ guarded_by (live s) b.1 b.2 e →
         ∃ i, live s !! i = Some pe ∧ live s' = delete i (live s)).
Proof.
  intros Hok Hb Hm Hn.
  destruct (check_seltou_capture_cases moved_index old_row old_col s Hok Hb Hm)
    as (moved & s' & Hmv & Hc & Hout).
  exists moved, s'. split_and!; [done..|]. cbv zeta.
  destruct Hout as [-> Hwhy|idx pe Hst Hon -> Hidx Hl Hs Hcol Hg Hs'].
  - split_and!; [done|done|].
    intros Hst Hon pe Hpe Hs Hcol Hng.
    destruct Hwhy as [E|[E|[E|[(p & Hp & Hps & Hrd & Hpc)|E]]]].
    + congruence.
    + apply off_board_true in E. done.
    + by destruct (E pe Hpe).
    + destruct (find_piece_at_unique s _ _ pe Hok Hn Hpe Hs) as (_ & Hrd' & _).
      congruence.
    + done.
  - pose proof (seltou_protected_false s _ _ _ Hok Hn Hg) as Hng.
    destruct (seltou_taken_spec _ pe _ _ s s' Hok Hb Hidx Hon Hs')
      as ((_ & Hlive & _) & _).
    split_and!.
    + intros Hyes. by destruct Hng.
    + intros _. by exists (Z.to_nat (find_piece_at s
        (target moved old_row old_col).1 (target moved old_row old_col).2)), pe.
    + intros _ _ pe' Hpe' Hs2 _ _.
      exists (Z.to_nat (find_piece_at s
        (target moved old_row old_col).1 (target moved old_row old_col).2)).
      split; [|done].
      destruct (find_piece_at_unique s _ _ pe' Hok Hn Hpe' Hs2) as (_ & _ & ->).
      done.
Qed.

Lemma one_per_cell_check l :
  bool_decide (NoDup (cell_of <$> l)) = true → one_per_cell l.
Proof. apply bool_decide_eq_true_1. Qed.

Lemma seltou_protection_witness :
  array_ok deux_pieces_state ∧ board_ok (cell_control deux_pieces_state)
  ∧ 0 <= 0 < 20 ∧ one_per_cell (live deux_pieces_state)
  ∧ ∃ moved s',
    read_piece (pieces deux_pieces_state) 0 = Some moved
    ∧ check_seltou_capture 0 3 4 deux_pieces_state = Some s'
    ∧ let t := target moved 3 4 in
      let b := behind moved 3 4 in
      let e := enemy_of (color moved) in
      (guarded_by (live deux_pieces_state) b.1 b.2 e → s' = deux_pieces_state)
      ∧ (s' ≠ deux_pieces_state →
         ∃ i pe, live deux_pieces_state !! i = Some pe ∧ stands_on t.1 t.2 pe
           ∧ color pe = e ∧ live s' = delete i (live deux_pieces_state)
           ∧ ¬ guarded_by (live deux_pieces_state) b.1 b.2 e)
      ∧ (straight moved 3 4 = true → on_board t.1 t.2 →
         ∀ pe, pe ∈ live deux_pieces_state → stands_on t.1 t.2 pe →
         color pe = e →
         ¬ guarded_by (live deux_pieces_state) b.1 b.2 e →
         ∃ i, live deux_pieces_state !! i = Some pe
              ∧ live s' = delete i (live deux_pieces_state)).
Proof.
  assert (H1 : array_ok deux_pieces_state)
    by (apply test_state_array_ok; simpl; lia).
  assert (H2 : board_ok (cell_control deux_pieces_state))
    by exact empty_board_ok.
  assert (H3 : 0 <= 0 < 20) by lia.
  assert (H4 : one_per_cell (live deux_pieces_state))
    by (apply one_per_cell_check; vm_compute; reflexivity).
  split_and!; [done..|].
  exact (seltou_protection 0 3 4 deux_pieces_state H1 H2 H3 H4).
Defined.

(** C9, as stated, fails: the call is not total on all its integer
    arguments. [moved_index] is used to read [pieces] with no test, and an
    index that names none of the 20 slots, 20 or -1 here, reads outside the
    array, on a well-formed state and for a straight move. *)
Lemma seltou_bad_index_counterexample :
  ¬ (array_ok deux_pieces_state →
     board_ok (cell_control deux_pieces_state) →
     is_Some (check_seltou_capture 20 3 4 deux_pieces_state)
     ∧ is_Some (check_seltou_capture (-1) 3 4 deux_pieces_state)).
Proof.
  intros H.
  destruct H as [[s1 H1] _];
    [apply test_state_array_ok; simpl; lia|exact empty_board_ok|].
  vm_compute in H1. discriminate.
Qed.

(** C9 (amended): on every well-formed state, for every index that names
    one of the 20 slots of [pieces] and for all coordinates, the call
    returns (no access leaves the arrays), and it returns the state as it
    was when the move is diagonal or null, or when the cell ahead of the
    moved piece falls outside rows and columns 0 to 8. *)
Theorem seltou_malformed_geometry moved_index old_row old_col s :
  array_ok s → board_ok (cell_control s) → 0 <= moved_index < 20 →
  ∃ moved,
    read_piece (pieces s) moved_index = Some moved
    ∧ is_Some (check_seltou_capture moved_index old_row old_col s)
    ∧ ((row moved ≠ old_row ∧ col moved ≠ old_col)
       ∨ (row moved = old_row ∧ col moved = old_col)
       ∨ ¬ on_board (target moved old_row old_col).1
                    (target moved old_row old_col).2 →
       check_seltou_capture moved_index old_row old_col s = Some s).
Proof.
  intros Hok Hb Hm.
  destruct (check_seltou_capture_cases moved_index old_row old_col s Hok Hb Hm)
    as (moved & s' & Hmv & Hc & _).
  exists moved. split_and!; [done|by rewrite Hc|].
  rewrite (check_seltou_capture_unfold _ _ _ _ _ Hmv). cbv zeta.
  unfold straight. intros [[H1 H2]|[[H1 H2]|H]].
  - apply Z.eqb_neq in H1, H2. by rewrite H1, H2.
  - apply Z.eqb_eq in H1, H2. by rewrite H1, H2.
  - apply off_board_true in H. rewrite H. by destruct (negb _).
Qed.

Lemma seltou_malformed_geometry_witness :
  array_ok out_of_bounds_state
  ∧ board_ok (cell_control out_of_bounds_state) ∧ 0 <= 0 < 20
  ∧ ∃ moved,
    read_piece (pieces out_of_bounds_state) 0 = Some moved
    ∧ is_Some (check_seltou_capture 0 0 (-3) out_of_bounds_state)
    ∧ ((row moved ≠ 0 ∧ col moved ≠ -3)
       ∨ (row moved = 0 ∧ col moved = -3)
       ∨ ¬ on_board (target moved 0 (-3)).1 (target moved 0 (-3)).2 →
       check_seltou_capture 0 0 (-3) out_of_bounds_state
       = Some out_of_bounds_state).
Proof.
  assert (H1 : array_ok out_of_bounds_state)
    by (apply test_state_array_ok; simpl; lia).
  assert (H2 : board_ok (cell_control out_of_bounds_state))
    by exact empty_board_ok.
  assert (H3 : 0 <= 0 < 20) by lia.
  split_and!; [done..|].
  exact (seltou_malformed_geometry 0 0 (-3) out_of_bounds_state H1 H2 H3).
Defined.

(** ** The pieces taken by a call *)

Lemma history_nil s :
  array_ok s → board_ok (cell_control s) → history s s [] [].
Proof.
  intros. split; try done.
  - simpl. lia.
Qed.

(** One more capture in front of a history. *)
Lemma history_cons s s1 s' (idx : nat) p taken idxs :
  live s !! idx = Some p →
  removed idx s s1 →
  (∀ i j, on_board i j →
     read_cell (cell_control s1) i j =
       if negb (is_king p) && (row p =? i) && (col p =? j) then Some 0
       else read_cell (cell_control s) i j) →
  history s1 s' taken idxs →
  history s s' (p :: taken) (idx :: idxs).
Proof.
  intros Hl (_ & Hlive & Hpc) Hcc [H1 H2 H3 H4 H5 H6 H7].
  split; try done.
  - simpl. unfold deletions in *. by rewrite <- Hlive.
  - simpl. by rewrite H4.
  - rewrite (delete_Permutation _ _ _ Hl), <- Hlive, H5. done.
  - rewrite H6, Hpc. simpl length. lia.
  - intros i j Hij. rewrite (H7 i j Hij), (Hcc i j Hij).
    unfold cleared_by. simpl existsb.
    destruct (negb (is_king p) && (row p =? i) && (col p =? j));
      cbn [orb]; [by destruct (existsb _ _)|done].
Qed.

Lemma king_message a p :
  color p = enemy_of a →
  (negb (Ascii.eqb (color p) chr_B),
   if Ascii.eqb (color p) chr_B then msg_blue_king else msg_red_king)
  = (Ascii.eqb a chr_B,
     if Ascii.eqb a chr_B then msg_red_king else msg_blue_king).
Proof. intros ->. unfold enemy_of. by destruct (Ascii.eqb a chr_B). Qed.

Lemma linca_run_history r c a s s' :
  linca_run r c a s s' → array_ok s → board_ok (cell_control s) →
  ∃ taken idxs,
    history s s' taken idxs
    ∧ Forall (λ p, color p = enemy_of a) taken
    ∧ linca_ending a s s' taken.
Proof.
  induction 1 as [s Hnone|s d p1 s' Hd Hscan Hp1 Hk Hc
                  |s d p1 s1 s' Hd Hscan Hp1 Hk Ht Hrun IH];
    intros Hok Hb.
  - exists [], []. split_and!; [by apply history_nil|done|]. by left.
  - destruct (scan_dir_hit r c a d s Hok Hscan)
      as (q1 & p2 & _ & Hi & Hr & Hl & Hs1 & Hc1 & _).
    assert (q1 = p1) as -> by congruence.
    destruct (capture_king_spec (near_idx r c d s) p1 s Hok Hi)
      as (s1 & E & Hrem & Hcc & Hgo & Hv).
    assert (s1 = s') as -> by congruence.
    assert (Hking : is_king p1 = true) by (by apply Ascii.eqb_eq).
    exists [p1], [Z.to_nat (near_idx r c d s)]. split_and!.
    + eapply history_cons; [done|done| |].
      * intros i j _. rewrite Hking. cbn [negb andb]. by rewrite Hcc.
      * apply history_nil; [apply Hrem|by rewrite Hcc].
    + by constructor.
    + right. exists [], p1. split_and!; try done.
      rewrite Hv. by rewrite (king_message a p1 Hc1).
  - destruct (scan_dir_hit r c a d s Hok Hscan)
      as (q1 & p2 & _ & Hi & Hr & Hl & Hs1 & Hc1 & _).
    assert (q1 = p1) as -> by congruence.
    destruct (linca_take_spec (near_idx r c d s) (near r c d).1
                (near r c d).2 s Hok Hb Hi)
      as (s2 & E & Hrem & Hb1 & Hgo & Hv & Hcc).
    assert (s2 = s1) as -> by congruence.
    destruct (IH (proj1 Hrem) Hb1) as (taken & idxs & Hh & Hcol & Hend).
    assert (Hsold : is_king p1 = false) by (by apply Ascii.eqb_neq).
    exists (p1 :: taken), (Z.to_nat (near_idx r c d s) :: idxs). split_and!.
    + eapply history_cons; [done|done| |done].
      intros i j [Hi' Hj']. rewrite Hcc, Hsold. cbn [negb andb].
      destruct Hs1 as [Hrow1 Hcol1].
      destruct (Z.eqb_spec (row p1) i), (Z.eqb_spec (col p1) j);
        cbn [andb]; destruct (decide _) as [Hyes|Hno]; try done;
        try lia; destruct Hno; lia.
    + by constructor.
    + destruct Hend as [(Hf & Hg' & Hv')|(front & k & -> & Hf & Hk' & Hg' & Hv')].
      * left. split_and!; [by constructor|congruence|congruence].
      * right. exists (p1 :: front), k. split_and!; try done.
        -- by constructor.
        -- by rewrite Hv', Hv.
Qed.

(** The same for [check_seltou_capture]: at most one piece is taken. *)
Lemma seltou_outcome_history moved old_row old_col s s' :
  seltou_outcome moved old_row old_col s s' →
  array_ok s → board_ok (cell_control s) →
  ∃ taken idxs,
    history s s' taken idxs
    ∧ (length taken ≤ 1)%nat
    ∧ Forall (λ p, color p = enemy_of (color moved)) taken
    ∧ (∀ k, k ∈ taken → is_king k = true →
       game_over s' = 1
       ∧ victory s' = victory s ++
           [(Ascii.eqb (color moved) chr_B,
             if Ascii.eqb (color moved) chr_B
             then msg_red_king else msg_blue_king)]).
Proof.
  intros [-> _|idx pe Hst Hon -> Hidx Hl Hs Hcol Hg Hs'] Hok Hb.
  - exists [], []. split_and!; [by apply history_nil|simpl; lia|done|].
    intros k Hk. by apply not_elem_of_nil in Hk.
  - destruct (seltou_taken_spec _ pe _ _ s s' Hok Hb Hidx Hon Hs')
      as (Hrem & Hking & Hsold).
    exists [pe], [Z.to_nat (find_piece_at s (target moved old_row old_col).1
                              (target moved old_row old_col).2)].
    split_and!.
    + eapply history_cons; [done|done| |].
      * intros i j Hij. destruct (is_king pe) eqn:Ek; cbn [negb andb].
        -- destruct (Hking eq_refl) as (-> & _). done.
        -- destruct (Hsold eq_refl) as (_ & ->). destruct Hs as [Hrow1 Hcol1].
           destruct (Z.eqb_spec (row pe) i), (Z.eqb_spec (col pe) j);
             cbn [andb]; destruct (decide _) as [Hyes|Hno]; try done;
             try lia; destruct Hno; lia.
      * apply history_nil; [apply Hrem|].
        destruct (is_king pe) eqn:Ek.
        -- destruct (Hking eq_refl) as (-> & _). done.
        -- by destruct (Hsold eq_refl).
    + simpl. lia.
    + by constructor.
    + intros k ->%list_elem_of_singleton Hk.
      destruct (Hking Hk) as (_ & ? & ->). split; [done|].
      by rewrite (king_message _ pe Hcol).
Qed.

(** A call of either rule on a well-formed state returns, with a history. *)
Lemma check_linca_capture_history moved_index s :
  array_ok s → board_ok (cell_control s) → 0 <= moved_index < 20 →
  ∃ moved s' taken idxs,
    read_piece (pieces s) moved_index = Some moved
    ∧ check_linca_capture moved_index s = Some s'
    ∧ history s s' taken idxs
    ∧ Forall (λ p, color p = enemy_of (color moved)) taken
    ∧ linca_ending (color moved) s s' taken.
Proof.
  intros Hok Hb Hm.
  destruct (check_linca_capture_run moved_index s Hok Hb Hm)
    as (moved & s' & Hmv & Hc & Hrun).
  destruct (linca_run_history _ _ _ _ _ Hrun Hok Hb)
    as (taken & idxs & Hh & Hcol & Hend).
  exists moved, s', taken, idxs. split_and!; done.
Qed.

Lemma check_seltou_capture_history moved_index old_row old_col s :
  array_ok s → board_ok (cell_control s) → 0 <= moved_index < 20 →
  ∃ moved s' taken idxs,
    read_piece (pieces s) moved_index = Some moved
    ∧ check_seltou_capture moved_index old_row old_col s = Some s'
    ∧ history s s' taken idxs
    ∧ (length taken ≤ 1)%nat
    ∧ Forall (λ p, color p = enemy_of (color moved)) taken
    ∧ (∀ k, k ∈ taken → is_king k = true →
       game_over s' = 1
       ∧ victory s' = victory s ++
           [(Ascii.eqb (color moved) chr_B,
             if Ascii.eqb (color moved) chr_B
             then msg_red_king else msg_blue_king)]).
Proof.
  intros Hok Hb Hm.
  destruct (check_seltou_capture_cases moved_index old_row old_col s Hok Hb Hm)
    as (moved & s' & Hmv & Hc & Hout).
  destruct (seltou_outcome_history _ _ _ _ _ Hout Hok Hb)
    as (taken & idxs & Hh & Hlen & Hcol & Hking).
  exists moved, s', taken, idxs. split_and!; done.
Qed.

Lemma history_lengths s s' taken idxs :
  history s s' taken idxs →
  (length (live s') + length idxs = length (live s))%nat.
Proof.
  intros [_ _ _ Hi Hp _ _]. rewrite Hp, length_app, Hi. lia.
Qed.

(** C7: removing the live piece of index [idx] (the shift loop followed by
    the decrement) leaves the live pieces with that one deleted; and what a
    call of [check_linca_capture] or of [check_seltou_capture] leaves is the
    live pieces with some indices deleted one after the other, so that the
    survivors keep their order and their fields, [piece_count] dropping by
    exactly one per deletion. *)
Theorem capture_removal_is_compaction moved_index old_row old_col s :
  array_ok s → board_ok (cell_control s) → 0 <= moved_index < 20 →
  (∀ idx, 0 <= idx < piece_count s →
     ∃ s', remove_piece idx s = Some s'
       ∧ live s' = delete (Z.to_nat idx) (live s)
       ∧ piece_count s' = piece_count s - 1)
  ∧ (∃ s' idxs, check_linca_capture moved_index s = Some s'
       ∧ live s' = deletions idxs (live s)
       ∧ (length (live s') + length idxs = length (live s))%nat
       ∧ piece_count s' = piece_count s - Z.of_nat (length idxs))
  ∧ (∃ s' idxs,
       check_seltou_capture moved_index old_row old_col s = Some s'
       ∧ live s' = deletions idxs (live s)
       ∧ (length (live s') + length idxs = length (live s))%nat
       ∧ piece_count s' = piece_count s - Z.of_nat (length idxs)).
Proof.
  intros Hok Hb Hm. split_and!.
  - intros idx Hidx.
    destruct (remove_piece_spec idx s Hok Hidx) as (ps' & -> & Hl & Ht).
    eexists. split_and!; [done| |done].
    unfold live at 1. simpl. apply Ht.
  - destruct (check_linca_capture_history moved_index s Hok Hb Hm)
      as (moved & s' & taken & idxs & _ & Hc & Hh & _).
    exists s', idxs. split_and!; [done|apply Hh|by eapply history_lengths|].
    rewrite (hist_idxs _ _ _ _ Hh). apply Hh.
  - destruct (check_seltou_capture_history moved_index old_row old_col s Hok Hb Hm)
      as (moved & s' & taken & idxs & _ & Hc & Hh & _).
    exists s', idxs. split_and!; [done|apply Hh|by eapply history_lengths|].
    rewrite (hist_idxs _ _ _ _ Hh). apply Hh.
Qed.

Lemma capture_removal_is_compaction_witness :
  array_ok linca_simple_state
  ∧ board_ok (cell_control linca_simple_state) ∧ 0 <= 0 < 20
  ∧ (∀ idx, 0 <= idx < piece_count linca_simple_state →
       ∃ s', remove_piece idx linca_simple_state = Some s'
         ∧ live s' = delete (Z.to_nat idx) (live linca_simple_state)
         ∧ piece_count s' = piece_count linca_simple_state - 1)
  ∧ (∃ s' idxs, check_linca_capture 0 linca_simple_state = Some s'
       ∧ live s' = deletions idxs (live linca_simple_state)
       ∧ (length (live s') + length idxs
          = length (live linca_simple_state))%nat
       ∧ piece_count s'
         = piece_count linca_simple_state - Z.of_nat (length idxs))
  ∧ (∃ s' idxs, check_seltou_capture 0 3 4 linca_simple_state = Some s'
       ∧ live s' = deletions idxs (live linca_simple_state)
       ∧ (length (live s') + length idxs
          = length (live linca_simple_state))%nat
       ∧ piece_count s'
         = piece_count linca_simple_state - Z.of_nat (length idxs)).
Proof.
  assert (H1 : array_ok linca_simple_state)
    by (apply test_state_array_ok; simpl; lia).
  assert (H2 : board_ok (cell_control linca_simple_state))
    by exact empty_board_ok.
  assert (H3 : 0 <= 0 < 20) by lia.
  split; [exact H1|]. split; [exact H2|]. split; [exact H3|].
  exact (capture_removal_is_compaction 0 3 4 linca_simple_state H1 H2 H3).
Defined.

(** C2, as stated, fails: the Seltou capture of the King leaves the control
    of the King's cell as it was. *)
Lemma king_capture_keeps_control_counterexample :
  ¬ (∀ s', check_seltou_capture 0 3 4 king_ahead_state = Some s' →
       live s' = [soldier 4 4 chr_B] →
       read_cell (cell_control s') 5 4 = Some 0).
Proof.
  intros H.
  assert (∃ s', check_seltou_capture 0 3 4 king_ahead_state = Some s'
            ∧ live s' = [soldier 4 4 chr_B]
            ∧ read_cell (cell_control s') 5 4 = Some 2)
    as (s' & Hc & Hl & Hr).
  { eexists. split_and!; [vm_compute; reflexivity|..]; reflexivity. }
  rewrite (H s' Hc Hl) in Hr. discriminate.
Qed.

(** C2 (amended): the cells of the board that a call of either rule changes
    are those on which it captured a soldier, and they become 0; the
    capture of a King leaves the grid as it was. [taken] is what the call
    removed from the live pieces. *)
Theorem capture_clears_soldier_cell moved_index old_row old_col s :
  array_ok s → board_ok (cell_control s) → 0 <= moved_index < 20 →
  (∃ s' taken, check_linca_capture moved_index s = Some s'
     ∧ live s ≡ₚ taken ++ live s'
     ∧ ∀ i j, on_board i j →
         read_cell (cell_control s') i j =
           if cleared_by taken i j then Some 0
           else read_cell (cell_control s) i j)
  ∧ (∃ s' taken,
       check_seltou_capture moved_index old_row old_col s = Some s'
       ∧ live s ≡ₚ taken ++ live s'
       ∧ ∀ i j, on_board i j →
           read_cell (cell_control s') i j =
             if cleared_by taken i j then Some 0
             else read_cell (cell_control s) i j).
Proof.
  intros Hok Hb Hm. split.
  - destruct (check_linca_capture_history moved_index s Hok Hb Hm)
      as (moved & s' & taken & idxs & _ & Hc & Hh & _).
    exists s', taken. split_and!; [done|apply Hh..].
  - destruct (check_seltou_capture_history moved_index old_row old_col s Hok Hb Hm)
      as (moved & s' & taken & idxs & _ & Hc & Hh & _).
    exists s', taken. split_and!; [done|apply Hh..].
Qed.

Lemma king_ahead_state_ok :
  array_ok king_ahead_state ∧ board_ok (cell_control king_ahead_state).
Proof.
  split; [apply test_state_array_ok; simpl; lia|].
  split; [reflexivity|]. intros i line Hl.
  apply list_elem_of_lookup_2 in Hl.
  repeat (apply elem_of_cons in Hl as [->|Hl]; [reflexivity|]).
  by apply not_elem_of_nil in Hl.
Qed.

Lemma capture_clears_soldier_cell_witness :
  array_ok king_ahead_state
  ∧ board_ok (cell_control king_ahead_state) ∧ 0 <= 0 < 20
  ∧ (∃ s' taken, check_linca_capture 0 king_ahead_state = Some s'
       ∧ live king_ahead_state ≡ₚ taken ++ live s'
       ∧ ∀ i j, on_board i j →
           read_cell (cell_control s') i j =
             if cleared_by taken i j then Some 0
             else read_cell (cell_control king_ahead_state) i j)
  ∧ (∃ s' taken, check_seltou_capture 0 3 4 king_ahead_state = Some s'
       ∧ live king_ahead_state ≡ₚ taken ++ live s'
       ∧ ∀ i j, on_board i j →
           read_cell (cell_control s') i j =
             if cleared_by taken i j then Some 0
             else read_cell (cell_control king_ahead_state) i j).
Proof.
  destruct king_ahead_state_ok as [H1 H2].
  assert (H3 : 0 <= 0 < 20) by lia.
  split; [exact H1|]. split; [exact H2|]. split; [exact H3|].
  exact (capture_clears_soldier_cell 0 3 4 king_ahead_state H1 H2 H3).
Defined.

(** The King of [king_first_state] is taken by both rules, and the match is
    then won by Blue. *)
Example king_first_linca :
  ∃ s', check_linca_capture 0 king_first_state = Some s'
    ∧ live s' = [soldier 4 4 chr_B; soldier 2 4 chr_B;
                 soldier 4 5 chr_R; soldier 4 6 chr_B]
    ∧ game_over s' = 1 ∧ victory s' = [(true, msg_red_king)].
Proof. eexists. split_and!; [vm_compute; reflexivity|..]; reflexivity. Qed.

Example king_first_seltou :
  ∃ s', check_seltou_capture 0 5 4 king_first_state = Some s'
    ∧ live s' = [soldier 4 4 chr_B; soldier 2 4 chr_B;
                 soldier 4 5 chr_R; soldier 4 6 chr_B]
    ∧ game_over s' = 1 ∧ victory s' = [(true, msg_red_king)].
Proof. eexists. split_and!; [vm_compute; reflexivity|..]; reflexivity. Qed.

(** ** The sandwich rule *)

Lemma existsb_elem_of {A} (f : A → bool) (l : list A) :
  existsb f l = true ↔ ∃ x, x ∈ l ∧ f x = true.
Proof.
  rewrite existsb_exists. split; intros (x & Hx & Hf); exists x;
    (split; [by apply list_elem_of_In|done]).
Qed.

Lemma sandwiched_iff l r c a p :
  sandwiched l r c a p = true ↔
  color p = enemy_of a
  ∧ ∃ d q, d ∈ directions
      ∧ stands_on (r + d.1) (c + d.2) p
      ∧ on_board (r + 2 * d.1) (c + 2 * d.2)
      ∧ q ∈ l ∧ stands_on (r + 2 * d.1) (c + 2 * d.2) q ∧ color q = a.
Proof.
  unfold sandwiched, stands_on.
  rewrite andb_true_iff, Ascii.eqb_eq, existsb_elem_of. split.
  - intros [Hc (d & Hd & H)]. split; [done|].
    rewrite !andb_true_iff, negb_true_iff, off_board_false,
      existsb_elem_of in H.
    destruct H as [[[?%Z.eqb_eq ?%Z.eqb_eq] Hon] (q & Hq & H)].
    rewrite !andb_true_iff, Ascii.eqb_eq, !Z.eqb_eq in H.
    exists d, q. destruct H as [[? ?] ?]. split_and!; done.
  - intros [Hc (d & q & Hd & [? ?] & Hon & Hq & [? ?] & Hcq)].
    split; [done|]. exists d. split; [done|].
    rewrite !andb_true_iff, negb_true_iff, off_board_false, existsb_elem_of.
    split_and!; [by apply Z.eqb_eq..|done|].
    exists q. split; [done|].
    rewrite !andb_true_iff, Ascii.eqb_eq, !Z.eqb_eq. done.
Qed.

(** On the board the cells of the scan are those of the four steps. *)
Lemma near_far_plain r c d :
  on_board r c → 0 <= d < 4 →
  ∃ v, directions !! Z.to_nat d = Some v
    ∧ near r c d = (r + v.1, c + v.2)
    ∧ far r c d = (r + 2 * v.1, c + 2 * v.2).
Proof.
  intros [Hr Hc] Hd.
  assert (d = 0 ∨ d = 1 ∨ d = 2 ∨ d = 3) as [-> | [-> | [-> | ->]]] by lia;
    eexists; (split; [reflexivity|]);
    unfold near, far, int_add, int_mul, tab_get; simpl;
    rewrite !(wrap_id (2 * _)) by (unfold int_range; lia);
    rewrite !wrap_id by (unfold int_range; lia); done.
Qed.

Lemma direction_index v :
  v ∈ directions → ∃ d, 0 <= d < 4 ∧ directions !! Z.to_nat d = Some v.
Proof.
  intros [i Hi]%list_elem_of_lookup_1.
  pose proof (lookup_lt_Some _ _ _ Hi) as Hlt. simpl in Hlt.
  exists (Z.of_nat i). split; [lia|]. by rewrite Nat2Z.id.
Qed.

(** With one piece per cell the test of a direction succeeds when the
    pieces of the two cells have the colours of a sandwich. *)
Lemma flanked_unique s r1 c1 r2 c2 e a p1 p2 :
  array_ok s → one_per_cell (live s) →
  p1 ∈ live s → stands_on r1 c1 p1 → color p1 = e →
  p2 ∈ live s → stands_on r2 c2 p2 → color p2 = a →
  flanked s (find_piece_at s r1 c1) (find_piece_at s r2 c2) a e = Some true.
Proof.
  intros Hok Hn H1 Hs1 Hc1 H2 Hs2 Hc2. unfold flanked.
  destruct (find_piece_at_unique s r1 c1 p1 Hok Hn H1 Hs1) as (Hi1 & -> & _).
  destruct (find_piece_at_unique s r2 c2 p2 Hok Hn H2 Hs2) as (Hi2 & -> & _).
  destruct (Z.geb_spec (find_piece_at s r1 c1) 0); [|lia].
  destruct (Z.geb_spec (find_piece_at s r2 c2) 0); [|lia].
  cbn [mbind option_bind]. subst e a. by rewrite !Ascii.eqb_refl.
Qed.

Lemma scan_dir_sandwiched r c a d s :
  on_board r c → 0 <= d < 4 → array_ok s →
  scan_dir r c a d s = Some true →
  ∃ p1, live s !! Z.to_nat (near_idx r c d s) = Some p1
    ∧ sandwiched (live s) r c a p1 = true.
Proof.
  intros Hrc Hd Hok Hscan.
  destruct (scan_dir_hit r c a d s Hok Hscan)
    as (p1 & p2 & Hoff & Hi & Hr & Hl & Hs1 & Hc1 & Hp2 & Hs2 & Hc2).
  exists p1. split; [done|]. apply sandwiched_iff. split; [done|].
  destruct (near_far_plain r c d Hrc Hd) as (v & Hv & Hnear & Hfar).
  rewrite Hnear in Hs1. rewrite Hfar in Hs2, Hoff.
  exists v, p2. split_and!; try done.
  - by eapply list_elem_of_lookup_2.
  - by apply off_board_false.
Qed.

Lemma scan_none_sandwiched r c a s :
  on_board r c → array_ok s → one_per_cell (live s) →
  (∀ d, 0 <= d < 4 → scan_dir r c a d s = Some false) →
  ∀ p, p ∈ live s → sandwiched (live s) r c a p = false.
Proof.
  intros Hrc Hok Hn Hnone p Hp.
  destruct (sandwiched (live s) r c a p) eqn:E; [|done].
  apply sandwiched_iff in E as (Hc & v & q & Hv & Hs1 & Hon & Hq & Hs2 & Hcq).
  destruct (direction_index v Hv) as (d & Hd & Hdv).
  destruct (near_far_plain r c d Hrc Hd) as (v' & Hv' & Hnear & Hfar).
  assert (v' = v) as -> by congruence.
  specialize (Hnone d Hd). unfold scan_dir, near_idx in Hnone.
  rewrite Hnear, Hfar in Hnone. cbn [fst snd] in Hnone.
  apply off_board_false in Hon. rewrite Hon in Hnone.
  rewrite (flanked_unique s _ _ _ _ _ _ p q Hok Hn Hp Hs1 Hc Hq Hs2 Hcq)
    in Hnone.
  done.
Qed.

(** ** Deleting one element of a list *)

Lemma elem_of_delete_ne {A} (l : list A) i x y :
  l !! i = Some x → y ∈ l → y ≠ x → y ∈ delete i l.
Proof.
  intros Hi [j Hj]%list_elem_of_lookup_1 Hne.
  assert (j ≠ i) by (intros ->; congruence).
  destruct (decide (j < i)%nat).
  - apply (list_elem_of_lookup_2 _ j). by rewrite list_lookup_delete_lt.
  - apply (list_elem_of_lookup_2 _ (j - 1)%nat).
    rewrite list_lookup_delete_ge by lia.
    replace (S (j - 1)) with j by lia. done.
Qed.

Lemma filter_delete_false {A} (P : A → Prop) `{∀ x, Decision (P x)}
    (l : list A) i x :
  l !! i = Some x → ¬ P x → filter P (delete i l) = filter P l.
Proof.
  revert i. induction l as [|y l IH]; intros [|i] Hi Hx; try done.
  - simpl in Hi. injection Hi as ->. simpl. by rewrite filter_cons_False.
  - simpl in Hi. simpl. rewrite !filter_cons, (IH i Hi Hx). done.
Qed.

Lemma existsb_delete {A} (f : A → bool) (l : list A) i x :
  l !! i = Some x → existsb f l = f x || existsb f (delete i l).
Proof.
  revert i. induction l as [|y l IH]; intros [|i] Hi; try done.
  - simpl in Hi. by injection Hi as ->.
  - simpl in Hi. simpl. rewrite (IH i Hi).
    destruct (f x), (f y); done.
Qed.

Lemma existsb_ext_in {A} (f g : A → bool) (l : list A) :
  (∀ x, x ∈ l → f x = g x) → existsb f l = existsb g l.
Proof.
  induction l as [|y l IH]; intros H; [done|]. simpl.
  rewrite (H y) by apply list_elem_of_here.
  rewrite IH; [done|]. intros x Hx. apply H. by apply list_elem_of_further.
Qed.

Lemma filter_keeps_all {A} (P : A → Prop) `{∀ x, Decision (P x)}
    (l : list A) :
  (∀ x, x ∈ l → P x) → filter P l = l.
Proof.
  induction l as [|y l IH]; intros H'; [done|].
  rewrite filter_cons_True by apply H', list_elem_of_here.
  rewrite IH; [done|]. intros x Hx. apply H'. by apply list_elem_of_further.
Qed.

(** Taking a piece that is not of colour [a] changes nothing to the pieces
    that are sandwiched. *)
Lemma sandwiched_delete l i p1 r c a p :
  l !! i = Some p1 → color p1 ≠ a →
  sandwiched (delete i l) r c a p = sandwiched l r c a p.
Proof.
  intros Hi Hne. apply eq_iff_eq_true. rewrite !sandwiched_iff.
  split; intros [Hc (d & q & Hd & Hs & Hon & Hq & Hsq & Hcq)];
    (split; [done|]); exists d, q; split_and!; try done.
  - by eapply list_elem_of_delete_inv.
  - eapply elem_of_delete_ne; [done..|]. intros ->. done.
Qed.

(** A run of captures that meets no King takes the sandwiched pieces and
    nothing else. *)
Lemma linca_run_filter r c a s s' :
  linca_run r c a s s' → on_board r c →
  array_ok s → board_ok (cell_control s) → one_per_cell (live s) →
  (∀ p, p ∈ live s → sandwiched (live s) r c a p = true →
        is_king p = false) →
  live s' = filter (λ p, sandwiched (live s) r c a p = false) (live s)
  ∧ (∀ i j, on_board i j →
       read_cell (cell_control s') i j =
         if sandwich_on (live s) r c a i j then Some 0
         else read_cell (cell_control s) i j)
  ∧ game_over s' = game_over s ∧ victory s' = victory s.
Proof.
  intros Hrun Hrc.
  induction Hrun as [s Hnone|s d p1 s' Hd Hscan Hp1 Hk Hc
                     |s d p1 s1 s' Hd Hscan Hp1 Hk Ht Hrun IH];
    intros Hok Hb Hn Hnoking.
  - pose proof (scan_none_sandwiched r c a s Hrc Hok Hn Hnone) as Hall.
    split_and!; [|intros i j _|done..].
    + symmetry. by apply filter_keeps_all.
    + unfold sandwich_on.
      rewrite (existsb_ext_in _ (λ _, false)).
      * assert (existsb (λ _ : Piece, false) (live s) = false) as ->; [|done].
        generalize (live s). intros l. by induction l.
      * intros p Hp. by rewrite (Hall p Hp).
  - destruct (scan_dir_sandwiched r c a d s Hrc Hd Hok Hscan)
      as (q1 & Hl & Hsand).
    destruct (scan_dir_hit r c a d s Hok Hscan)
      as (q2 & _ & _ & _ & Hr & Hl2 & _).
    assert (q2 = p1) as -> by congruence.
    assert (q1 = p1) as -> by congruence.
    apply list_elem_of_lookup_2 in Hl.
    specialize (Hnoking p1 Hl Hsand). unfold is_king in Hnoking.
    rewrite Hk in Hnoking. done.
  - destruct (scan_dir_hit r c a d s Hok Hscan)
      as (q1 & p2 & _ & Hi & Hr & Hl & Hs1 & Hc1 & _).
    assert (q1 = p1) as -> by congruence.
    destruct (scan_dir_sandwiched r c a d s Hrc Hd Hok Hscan)
      as (q1 & Hl' & Hsand).
    assert (q1 = p1) as -> by congruence.
    destruct (linca_take_spec (near_idx r c d s) (near r c d).1
                (near r c d).2 s Hok Hb Hi)
      as (s2 & E & (Hok1 & Hlive & Hpc) & Hb1 & Hgo & Hv & Hcc).
    assert (s2 = s1) as -> by congruence.
    assert (Hne : color p1 ≠ a).
    { rewrite Hc1. unfold enemy_of.
      destruct (Ascii.eqb_spec a chr_B) as [->|]; [done|]. congruence. }
    assert (Hsame : ∀ p, sandwiched (live s1) r c a p
                         = sandwiched (live s) r c a p).
    { intros p. rewrite Hlive. by eapply sandwiched_delete. }
    destruct IH as (IH1 & IH2 & IH3 & IH4); [done|done| | |].
    { rewrite Hlive. by apply one_per_cell_delete. }
    { intros p Hp. rewrite Hsame. apply Hnoking.
      rewrite Hlive in Hp. by eapply list_elem_of_delete_inv. }
    split_and!; [| |congruence|congruence].
    + rewrite IH1.
      rewrite (list_filter_iff _ (λ p, sandwiched (live s) r c a p = false))
        by (intros p; by rewrite Hsame).
      rewrite Hlive. eapply filter_delete_false; [done|].
      by rewrite Hsand.
    + intros i j Hij. rewrite (IH2 i j Hij), Hcc.
      unfold sandwich_on at 2.
      rewrite (existsb_delete _ _ _ _ Hl), Hsand. cbn [andb].
      replace (existsb _ (delete _ (live s)))
        with (sandwich_on (live s1) r c a i j).
      2:{ unfold sandwich_on. rewrite Hlive. apply existsb_ext_in.
          intros p _. rewrite <- Hlive. by rewrite Hsame. }
      destruct Hs1 as [Hrow1 Hcol1]. destruct Hij as [Hi' Hj'].
      destruct (sandwich_on (live s1) r c a i j);
        destruct (Z.eqb_spec (row p1) i), (Z.eqb_spec (col p1) j);
        cbn [andb orb]; try done;
        destruct (decide _) as [Hyes|Hno]; try done;
        try lia; destruct Hno; lia.
Qed.

(** C3, as stated, fails: in [king_first_state] the Red soldier on (4,5)
    stands next to the moved piece with a Blue piece directly beyond it,
    and the call leaves it on the board (the scan stops at the King). *)
Lemma linca_king_first_counterexample :
  ¬ (sandwiched (live king_first_state) 4 4 chr_B (soldier 4 5 chr_R) = true →
     ∀ s', check_linca_capture 0 king_first_state = Some s' →
           soldier 4 5 chr_R ∉ live s').
Proof.
  intros H.
  destruct king_first_linca as (s' & Hc & Hl & _).
  apply (H eq_refl s' Hc). rewrite Hl.
  by apply (list_elem_of_lookup_2 _ 2%nat).
Qed.

(** C3 (amended): on a well-formed position with one piece per cell, for a
    moved piece on the board next to which no enemy King is sandwiched, a
    call of [check_linca_capture] returns and leaves the live pieces
    without the sandwiched ones (enemy pieces next to the moved piece with
    an allied piece directly beyond), all of them at once and no other
    piece; the cells of the pieces taken are cleared and no other cell
    changes; the match goes on. So two enemy pieces in a row next to the
    moved piece both stay. *)
Theorem linca_removes_the_flanked moved_index s moved :
  array_ok s → board_ok (cell_control s) → 0 <= moved_index < 20 →
  one_per_cell (live s) →
  read_piece (pieces s) moved_index = Some moved →
  on_board (row moved) (col moved) →
  (∀ p, p ∈ live s →
        sandwiched (live s) (row moved) (col moved) (color moved) p = true →
        is_king p = false) →
  ∃ s', check_linca_capture moved_index s = Some s'
    ∧ live s' =
        filter (λ p, sandwiched (live s) (row moved) (col moved)
                       (color moved) p = false) (live s)
    ∧ (∀ i j, on_board i j →
         read_cell (cell_control s') i j =
           if sandwich_on (live s) (row moved) (col moved) (color moved) i j
           then Some 0 else read_cell (cell_control s) i j)
    ∧ game_over s' = game_over s
    ∧ (∀ p, p ∈ live s →
         sandwiched (live s) (row moved) (col moved) (color moved) p = true →
         p ∉ live s')
    ∧ (∀ d p q, d ∈ directions → p ∈ live s → q ∈ live s →
         stands_on (row moved + d.1) (col moved + d.2) p →
         stands_on (row moved + 2 * d.1) (col moved + 2 * d.2) q →
         color p = enemy_of (color moved) →
         color q = enemy_of (color moved) →
         p ∈ live s' ∧ q ∈ live s').
Proof.
  intros Hok Hb Hm Hn Hmv Hon Hnoking.
  destruct (check_linca_capture_run moved_index s Hok Hb Hm)
    as (moved' & s' & Hmv' & Hc & Hrun).
  assert (moved' = moved) as -> by congruence.
  destruct (linca_run_filter _ _ _ _ _ Hrun Hon Hok Hb Hn Hnoking)
    as (Hlive & Hcells & Hgo & _).
  exists s'. split_and!; [done..| |].
  - intros p Hp Hs. rewrite Hlive, list_elem_of_filter. intros [E _].
    congruence.
  - assert (Hen : enemy_of (color moved) ≠ color moved).
    { unfold enemy_of.
      destruct (Ascii.eqb_spec (color moved) chr_B) as [->|]; [done|].
      congruence. }
    intros d p q Hd Hp Hq Hsp Hsq Hcp Hcq.
    rewrite Hlive, !list_elem_of_filter.
    split; (split; [|done]).
    + destruct (sandwiched (live s) _ _ _ p) eqn:E; [|done].
      apply sandwiched_iff in E as (_ & d' & q' & Hd' & Hsp' & _ & Hq' & Hsq' & Hcq').
      assert (d' = d) as ->.
      { destruct Hsp as [Hr1 Hc1], Hsp' as [Hr2 Hc2].
        destruct d as [x y], d' as [x' y']. simpl in *. f_equal; lia. }
      assert (q' = q) as ->.
      { eapply one_per_cell_same; [done..|]. unfold cell_of.
        destruct Hsq as [-> ->], Hsq' as [-> ->]. done. }
      congruence.
    + destruct (sandwiched (live s) _ _ _ q) eqn:E; [|done].
      apply sandwiched_iff in E as (_ & d' & _ & Hd' & Hsq' & _).
      destruct Hsq as [Hr1 Hc1], Hsq' as [Hr2 Hc2].
      unfold directions in Hd, Hd'.
      repeat (apply elem_of_cons in Hd as [->|Hd]);
        try (by apply not_elem_of_nil in Hd);
        repeat (apply elem_of_cons in Hd' as [->|Hd']);
        try (by apply not_elem_of_nil in Hd'); simpl in *; lia.
Qed.

Lemma linca_removes_the_flanked_witness :
  array_ok linca_simple_state
  ∧ board_ok (cell_control linca_simple_state) ∧ 0 <= 0 < 20
  ∧ one_per_cell (live linca_simple_state)
  ∧ read_piece (pieces linca_simple_state) 0 = Some (soldier 4 4 chr_B)
  ∧ on_board 4 4
  ∧ ∃ s', check_linca_capture 0 linca_simple_state = Some s'
    ∧ live s' =
        filter (λ p, sandwiched (live linca_simple_state) 4 4 chr_B p = false)
          (live linca_simple_state)
    ∧ (∀ i j, on_board i j →
         read_cell (cell_control s') i j =
           if sandwich_on (live linca_simple_state) 4 4 chr_B i j
           then Some 0 else read_cell (cell_control linca_simple_state) i j)
    ∧ game_over s' = game_over linca_simple_state
    ∧ (∀ p, p ∈ live linca_simple_state →
         sandwiched (live linca_simple_state) 4 4 chr_B p = true →
         p ∉ live s')
    ∧ (∀ d p q, d ∈ directions → p ∈ live linca_simple_state →
         q ∈ live linca_simple_state →
         stands_on (4 + d.1) (4 + d.2) p →
         stands_on (4 + 2 * d.1) (4 + 2 * d.2) q →
         color p = enemy_of chr_B → color q = enemy_of chr_B →
         p ∈ live s' ∧ q ∈ live s').
Proof.
  assert (H1 : array_ok linca_simple_state)
    by (apply test_state_array_ok; simpl; lia).
  assert (H2 : board_ok (cell_control linca_simple_state))
    by exact empty_board_ok.
  assert (H3 : 0 <= 0 < 20) by lia.
  assert (H4 : one_per_cell (live linca_simple_state))
    by (apply one_per_cell_check; vm_compute; reflexivity).
  assert (H5 : read_piece (pieces linca_simple_state) 0
               = Some (soldier 4 4 chr_B)) by reflexivity.
  assert (H6 : on_board 4 4) by (unfold on_board; lia).
  assert (H7 : ∀ p, p ∈ live linca_simple_state →
             sandwiched (live linca_simple_state) 4 4 chr_B p = true →
             is_king p = false).
  { intros p Hp _. unfold linca_simple_state in Hp.
    rewrite test_state_live in Hp by (simpl; lia).
    repeat (apply elem_of_cons in Hp as [->|Hp]; [reflexivity|]).
    by apply not_elem_of_nil in Hp. }
  split; [exact H1|]. split; [exact H2|]. split; [exact H3|].
  split; [exact H4|]. split; [exact H5|]. split; [exact H6|].
  exact (linca_removes_the_flanked 0 linca_simple_state (soldier 4 4 chr_B)
           H1 H2 H3 H4 H5 H6 H7).
Defined.

(** Two sandwiches made by one move, as in [test_triple_capture]: the Blue
    piece on (2,4) has Red soldiers on both sides, each with a Blue soldier
    beyond. One call takes both. *)
Example linca_two_sandwiches :
  ∃ s', check_linca_capture 0
          (test_state [soldier 2 4 chr_B; soldier 2 5 chr_R;
                       soldier 2 6 chr_B; soldier 2 3 chr_R;
                       soldier 2 2 chr_B]) = Some s'
    ∧ live s' = [soldier 2 4 chr_B; soldier 2 6 chr_B; soldier 2 2 chr_B]
    ∧ piece_count s' = 3.
Proof. eexists. split_and!; [vm_compute; reflexivity|..]; reflexivity. Qed.

(** Two Red soldiers in a row between two Blue pieces: no capture. *)
Example linca_two_in_a_row :
  let s := test_state [soldier 4 4 chr_B; soldier 4 5 chr_R;
                       soldier 4 6 chr_R; soldier 4 7 chr_B] in
  check_linca_capture 0 s = Some s.
Proof. vm_compute. reflexivity. Qed.

(** ** [TCP_Send_Message] *)




(** On a socket whose peer is gone the move is not reported as sent. *)
Example tcp_send_dead_socket :
  TCP_Send_Message dead_socket (Some "A2A3"%string)
  = Some (-1, [(0, 4, -1)]).
Proof. reflexivity. Qed.

(** The moves of [test_net_send_message_sequence] on that socket. *)
Example tcp_send_examples :
  TCP_Send_Message three_at_most (Some "A2A3"%string)
    = Some (4, [(0, 4, 3); (3, 1, 1)])
  ∧ TCP_Send_Message three_at_most (Some "C3"%string) = Some (-1, [])
  ∧ TCP_Send_Message three_at_most (Some "ABC"%string) = Some (-1, [])
  ∧ TCP_Send_Message three_at_most None = Some (-1, [])
  ∧ TCP_Send_Message three_at_most (Some "D1D2D3"%string) = Some (-1, [])
  ∧ TCP_Send_Message (λ _ _, -1) (Some "A2A3"%string)
    = Some (-1, [(0, 4, -1)]).
Proof. split_and!; reflexivity. Qed.

(** ** [gui_move_piece_callback] *)

Section PeerMoveFacts.

Variable can_move : Z → Z → Z → State → bool.
Variable move_piece : Z → Z → Z → World → World.

Lemma strlen_get msg (i : nat) :
  (Z.of_nat i < strlen msg) → is_Some (String.get i msg).
Proof.
  revert i. induction msg as [|ch msg IH]; intros i; simpl; [lia|].
  destruct (Ascii.eqb ch zero); [lia|]. destruct i as [|i]; [done|].
  intros H. apply IH. lia.
Qed.

Lemma decode_total msg : strlen msg = 4 → is_Some (decode msg).
Proof.
  intros H. unfold decode.
  destruct (strlen_get msg 0) as [c0 ->]; [lia|].
  destruct (strlen_get msg 1) as [c1 ->]; [lia|].
  destruct (strlen_get msg 2) as [c2 ->]; [lia|].
  destruct (strlen_get msg 3) as [c3 ->]; [lia|].
  done.
Qed.

(** What [invalid_move] leaves: the match over and won by the local
    colour, the socket shut down, closed and invalid, the pieces and the
    grid as they were. *)
Lemma invalid_move_spec w :
  game_over (game (invalid_move w)) = 1
  ∧ victory (game (invalid_move w)) =
      victory (game w) ++ [(Ascii.eqb (my_color w) chr_B, msg_invalid_move)]
  ∧ g_socket (invalid_move w) = INVALID_SOCKET
  ∧ effects (invalid_move w) =
      effects w ++
      (if g_socket w =? INVALID_SOCKET then [QueueDraw]
       else [QueueDraw; Shutdown (g_socket w); Close (g_socket w)])
  ∧ pieces (game (invalid_move w)) = pieces (game w)
  ∧ piece_count (game (invalid_move w)) = piece_count (game w)
  ∧ cell_control (game (invalid_move w)) = cell_control (game w).
Proof.
  unfold invalid_move. simpl.
  destruct (Z.eqb_spec (g_socket w) INVALID_SOCKET) as [E|E]; simpl.
  - split_and!; done.
  - split_and!; try done. by rewrite <- !app_assoc.
Qed.

(** C6: a message whose length is not 4 leaves everything as it was. For a
    token of 4 characters, decoded to an origin and a destination: if no
    live piece stands on the origin, or if the piece found there is not of
    the colour whose turn it is, or if [can_move] refuses the destination,
    the result is that of [invalid_move]; and only if the three tests pass
    is the move applied. [invalid_move] ends the match for the local
    colour and tears the connection down. *)
Theorem peer_move_reception msg w :
  array_ok (game w) →
  (strlen msg ≠ 4 → gui_move_piece_callback can_move move_piece msg w = Some w)
  ∧ (strlen msg = 4 →
     ∃ from_row from_col to_row to_col,
       decode msg = Some (from_row, from_col, to_row, to_col)
       ∧ is_Some (gui_move_piece_callback can_move move_piece msg w)
       ∧ ((∀ p, p ∈ live (game w) → ¬ stands_on from_row from_col p) →
          gui_move_piece_callback can_move move_piece msg w = Some (invalid_move w))
       ∧ (∀ p, 0 <= find_piece_at (game w) from_row from_col →
            read_piece (pieces (game w))
              (find_piece_at (game w) from_row from_col) = Some p →
            (color p ≠ current_turn (game w)
             ∨ can_move (find_piece_at (game w) from_row from_col)
                 to_row to_col (game w) = false →
             gui_move_piece_callback can_move move_piece msg w = Some (invalid_move w))
            ∧ (color p = current_turn (game w) →
               can_move (find_piece_at (game w) from_row from_col)
                 to_row to_col (game w) = true →
               gui_move_piece_callback can_move move_piece msg w =
                 Some (do_effect QueueDraw
                         (move_piece
                            (find_piece_at (game w) from_row from_col)
                            to_row to_col w)))))
  ∧ (game_over (game (invalid_move w)) = 1
     ∧ victory (game (invalid_move w)) =
         victory (game w)
         ++ [(Ascii.eqb (my_color w) chr_B, msg_invalid_move)]
     ∧ g_socket (invalid_move w) = INVALID_SOCKET
     ∧ (g_socket w ≠ INVALID_SOCKET →
        effects (invalid_move w) =
          effects w ++ [QueueDraw; Shutdown (g_socket w);
                        Close (g_socket w)])).
Proof.
  intros Hok. split_and!.
  - intros H. unfold gui_move_piece_callback.
    by destruct (Z.eqb_spec (strlen msg) 4).
  - intros H. unfold gui_move_piece_callback. rewrite H.
    cbn [Z.eqb Pos.eqb negb].
    destruct (decode_total msg H) as [[[[fr fc] tr] tc] ->].
    cbn [mbind option_bind].
    exists fr, fc, tr, tc. split; [done|].
    destruct (find_piece_at_spec (game w) fr fc Hok)
      as [[Hf Hmiss]|(p & Hr & Hrd & Hl & Hs)].
    + rewrite Hf. cbn [Z.ltb Z.compare]. split_and!; [done|done|].
      intros p Hneg. lia.
    + destruct (Z.ltb_spec (find_piece_at (game w) fr fc) 0); [lia|].
      rewrite Hrd. cbn [mbind option_bind]. split_and!.
      * destruct (negb _); [done|]. by destruct (negb _).
      * intros Hnone. destruct (Hnone p); [|done].
        by eapply list_elem_of_lookup_2.
      * intros p' _ [= <-]. split.
        -- intros [Hc|Hm].
           ++ apply Ascii.eqb_neq in Hc. by rewrite Hc.
           ++ rewrite Hm. by destruct (negb _).
        -- intros Hc Hm. apply Ascii.eqb_eq in Hc. by rewrite Hc, Hm.
  - apply invalid_move_spec.
  - apply invalid_move_spec.
  - apply invalid_move_spec.
  - intros Hs. destruct (invalid_move_spec w) as (_ & _ & _ & -> & _).
    by destruct (Z.eqb_spec (g_socket w) INVALID_SOCKET).
Qed.

End PeerMoveFacts.

Lemma peer_move_reception_witness :
  array_ok (game peer_world)
  ∧ (strlen "A1A2" ≠ 4 →
     gui_move_piece_callback any_move no_change "A1A2" peer_world
     = Some peer_world)
  ∧ (strlen "A1A2" = 4 →
     ∃ from_row from_col to_row to_col,
       decode "A1A2" = Some (from_row, from_col, to_row, to_col)
       ∧ is_Some (gui_move_piece_callback any_move no_change "A1A2"
                    peer_world)
       ∧ ((∀ p, p ∈ live (game peer_world) →
                ¬ stands_on from_row from_col p) →
          gui_move_piece_callback any_move no_change "A1A2" peer_world
          = Some (invalid_move peer_world))
       ∧ (∀ p, 0 <= find_piece_at (game peer_world) from_row from_col →
            read_piece (pieces (game peer_world))
              (find_piece_at (game peer_world) from_row from_col) = Some p →
            (color p ≠ current_turn (game peer_world)
             ∨ any_move (find_piece_at (game peer_world) from_row from_col)
                 to_row to_col (game peer_world) = false →
             gui_move_piece_callback any_move no_change "A1A2" peer_world
             = Some (invalid_move peer_world))
            ∧ (color p = current_turn (game peer_world) →
               any_move (find_piece_at (game peer_world) from_row from_col)
                 to_row to_col (game peer_world) = true →
               gui_move_piece_callback any_move no_change "A1A2" peer_world =
                 Some (do_effect QueueDraw
                         (no_change
                            (find_piece_at (game peer_world)
                               from_row from_col)
                            to_row to_col peer_world)))))
  ∧ (game_over (game (invalid_move peer_world)) = 1
     ∧ victory (game (invalid_move peer_world)) =
         victory (game peer_world)
         ++ [(Ascii.eqb (my_color peer_world) chr_B, msg_invalid_move)]
     ∧ g_socket (invalid_move peer_world) = INVALID_SOCKET
     ∧ (g_socket peer_world ≠ INVALID_SOCKET →
        effects (invalid_move peer_world) =
          effects peer_world ++ [QueueDraw; Shutdown (g_socket peer_world);
                                 Close (g_socket peer_world)])).
Proof.
  assert (Hok : array_ok (game peer_world))
    by (apply test_state_array_ok; simpl; lia).
  split; [exact Hok|].
  exact (peer_move_reception any_move no_change "A1A2" peer_world Hok).
Defined.

(** The token of [peer_world] is refused: the match is over, won by the
    local colour (Blue), and the socket is shut down and closed. *)
Example peer_move_refused :
  gui_move_piece_callback any_move no_change "A1A2" peer_world
    = Some (invalid_move peer_world)
  ∧ decode "A1A2" = Some (8, 0, 7, 0)
  ∧ game_over (game (invalid_move peer_world)) = 1
  ∧ g_socket (invalid_move peer_world) = INVALID_SOCKET
  ∧ effects (invalid_move peer_world) = [QueueDraw; Shutdown 7; Close 7]
  ∧ victory (game (invalid_move peer_world)) = [(true, msg_invalid_move)].
Proof. split_and!; reflexivity. Qed.

(** * Further properties of capture.c *)

(** ** Invariants of the state *)





(** ** The mover's side is never hit *)

Lemma enemy_of_ne a : enemy_of a ≠ a.
Proof.
  unfold enemy_of. destruct (Ascii.eqb_spec a chr_B) as [->|]; [done|].
  congruence.
Qed.

Lemma linca_run_spares r c a s s' :
  linca_run r c a s s' → array_ok s → board_ok (cell_control s) →
  filter (λ p, spared a p = true) (live s')
  = filter (λ p, spared a p = true) (live s).
Proof.
  induction 1 as [s Hnone|s d p1 s' Hd Hscan Hp1 Hk Hc
                  |s d p1 s1 s' Hd Hscan Hp1 Hk Ht Hrun IH];
    intros Hok Hb; [done| |].
  - destruct (scan_dir_hit r c a d s Hok Hscan)
      as (q1 & p2 & _ & Hi & Hr & Hl & _ & Hc1 & _).
    destruct (capture_king_spec (near_idx r c d s) p1 s Hok Hi)
      as (s1 & E & (_ & Hlive & _) & _).
    assert (s1 = s') as -> by congruence. rewrite Hlive.
    eapply filter_delete_false; [done|].
    unfold spared. by rewrite Hc1, Ascii.eqb_refl.
  - destruct (scan_dir_hit r c a d s Hok Hscan)
      as (q1 & p2 & _ & Hi & Hr & Hl & _ & Hc1 & _).
    destruct (linca_take_spec (near_idx r c d s) (near r c d).1
                (near r c d).2 s Hok Hb Hi)
      as (s2 & E & (Hok1 & Hlive & _) & Hb1 & _).
    assert (s2 = s1) as -> by congruence.
    rewrite (IH Hok1 Hb1), Hlive.
    eapply filter_delete_false; [done|].
    unfold spared. by rewrite Hc1, Ascii.eqb_refl.
Qed.

(** Neither rule ever removes a piece that is not of the colour opposed to
    the moved piece: those pieces are the same after the call, in the same
    order. *)
Theorem captures_spare_the_movers_side moved_index old_row old_col s :
  array_ok s → board_ok (cell_control s) → 0 <= moved_index < 20 →
  ∃ moved, read_piece (pieces s) moved_index = Some moved
    ∧ (∃ s', check_linca_capture moved_index s = Some s'
         ∧ filter (λ p, spared (color moved) p = true) (live s')
           = filter (λ p, spared (color moved) p = true) (live s))
    ∧ (∃ s', check_seltou_capture moved_index old_row old_col s = Some s'
         ∧ filter (λ p, spared (color moved) p = true) (live s')
           = filter (λ p, spared (color moved) p = true) (live s)).
Proof.
  intros Hok Hb Hm.
  destruct (check_linca_capture_run moved_index s Hok Hb Hm)
    as (moved & s1 & Hmv & Hc1 & Hrun).
  destruct (check_seltou_capture_cases moved_index old_row old_col s Hok Hb Hm)
    as (moved' & s2 & Hmv' & Hc2 & Hout).
  assert (moved' = moved) as -> by congruence.
  exists moved. split_and!; [done| |].
  - exists s1. split; [done|]. by eapply linca_run_spares.
  - exists s2. split; [done|].
    destruct Hout as [-> _|idx pe Hst Hon -> Hidx Hl Hs Hcol Hg Hs']; [done|].
    destruct (seltou_taken_spec _ pe _ _ s s2 Hok Hb Hidx Hon Hs')
      as ((_ & -> & _) & _).
    eapply filter_delete_false; [done|].
    unfold spared. by rewrite Hcol, Ascii.eqb_refl.
Qed.

Lemma captures_spare_the_movers_side_witness :
  array_ok linca_simple_state
  ∧ board_ok (cell_control linca_simple_state) ∧ 0 <= 0 < 20
  ∧ ∃ moved, read_piece (pieces linca_simple_state) 0 = Some moved
    ∧ (∃ s', check_linca_capture 0 linca_simple_state = Some s'
         ∧ filter (λ p, spared (color moved) p = true) (live s')
           = filter (λ p, spared (color moved) p = true)
               (live linca_simple_state))
    ∧ (∃ s', check_seltou_capture 0 3 4 linca_simple_state = Some s'
         ∧ filter (λ p, spared (color moved) p = true) (live s')
           = filter (λ p, spared (color moved) p = true)
               (live linca_simple_state)).
Proof.
  assert (H1 : array_ok linca_simple_state)
    by (apply test_state_array_ok; simpl; lia).
  assert (H2 : board_ok (cell_control linca_simple_state))
    by exact empty_board_ok.
  assert (H3 : 0 <= 0 < 20) by lia.
  split; [exact H1|]. split; [exact H2|]. split; [exact H3|].
  exact (captures_spare_the_movers_side 0 3 4 linca_simple_state H1 H2 H3).
Defined.

(** ** One call of [check_linca_capture] is enough *)

Lemma linca_loop_quiet r c a fuel d s :
  0 <= d →
  (∀ d', d <= d' < 4 → scan_dir r c a d' s = Some false) →
  (Z.to_nat (4 - d) < fuel)%nat →
  linca_loop fuel r c a (enemy_of a) d s = Some s.
Proof.
  revert d. induction fuel as [|fuel IH]; intros d Hd Hnone Hf; [lia|].
  rewrite linca_loop_unfold. destruct (Z.ltb_spec d 4); cbn [negb]; [|done].
  rewrite Hnone by lia. cbn [mbind option_bind].
  apply IH; [lia| |lia]. intros d' Hd'. apply Hnone. lia.
Qed.

(** When a run leaves the match going, no direction holds a sandwich any
    more. *)
Lemma linca_run_settled r c a s s' :
  linca_run r c a s s' → array_ok s → board_ok (cell_control s) →
  game_over s' = 0 →
  ∀ d, 0 <= d < 4 → scan_dir r c a d s' = Some false.
Proof.
  induction 1 as [s Hnone|s d p1 s' Hd Hscan Hp1 Hk Hc
                  |s d p1 s1 s' Hd Hscan Hp1 Hk Ht Hrun IH];
    intros Hok Hb Hgo; [done| |].
  - destruct (scan_dir_hit r c a d s Hok Hscan) as (q1 & p2 & _ & Hi & _).
    destruct (capture_king_spec (near_idx r c d s) p1 s Hok Hi)
      as (s1 & E & _ & _ & Hg & _).
    assert (s1 = s') as -> by congruence. lia.
  - destruct (scan_dir_hit r c a d s Hok Hscan) as (q1 & p2 & _ & Hi & _).
    destruct (linca_take_spec (near_idx r c d s) (near r c d).1
                (near r c d).2 s Hok Hb Hi)
      as (s2 & E & (Hok1 & _) & Hb1 & _).
    assert (s2 = s1) as -> by congruence. by apply IH.
Qed.

(** A call that leaves the match going has taken all there is to take: a
    second call for the same piece, if its slot still holds it, changes
    nothing. *)
Theorem linca_second_call_is_noop moved_index s s' moved moved' :
  array_ok s → board_ok (cell_control s) → 0 <= moved_index < 20 →
  read_piece (pieces s) moved_index = Some moved →
  check_linca_capture moved_index s = Some s' →
  game_over s' = 0 →
  read_piece (pieces s') moved_index = Some moved' →
  row moved' = row moved → col moved' = col moved →
  color moved' = color moved →
  check_linca_capture moved_index s' = Some s'.
Proof.
  intros Hok Hb Hm Hmv Hc Hgo Hmv' Hr Hcl Hco.
  destruct (check_linca_capture_run moved_index s Hok Hb Hm)
    as (moved0 & s0 & Hmv0 & Hc0 & Hrun).
  assert (moved0 = moved) as -> by congruence.
  assert (s0 = s') as -> by congruence.
  unfold check_linca_capture. rewrite Hmv'. cbn [mbind option_bind].
  rewrite Hr, Hcl, Hco. apply linca_loop_quiet; [lia| |unfold linca_fuel; lia].
  intros d Hd. eapply linca_run_settled; eauto.
Qed.

Lemma test_linca_simple_capture_result :
  ∃ s', check_linca_capture 0 linca_simple_state = Some s'
    ∧ game_over s' = 0
    ∧ read_piece (pieces s') 0 = Some (soldier 4 4 chr_B).
Proof. eexists. split_and!; [vm_compute; reflexivity|..]; reflexivity. Defined.

Lemma linca_second_call_is_noop_witness :
  ∃ s', array_ok linca_simple_state
    ∧ board_ok (cell_control linca_simple_state) ∧ 0 <= 0 < 20
    ∧ read_piece (pieces linca_simple_state) 0 = Some (soldier 4 4 chr_B)
    ∧ check_linca_capture 0 linca_simple_state = Some s'
    ∧ game_over s' = 0
    ∧ read_piece (pieces s') 0 = Some (soldier 4 4 chr_B)
    ∧ check_linca_capture 0 s' = Some s'.
Proof.
  destruct test_linca_simple_capture_result as (s' & Hc & Hg & Hr).
  exists s'.
  assert (H1 : array_ok linca_simple_state)
    by (apply test_state_array_ok; simpl; lia).
  assert (H2 : board_ok (cell_control linca_simple_state))
    by exact empty_board_ok.
  assert (H3 : 0 <= 0 < 20) by lia.
  assert (H4 : read_piece (pieces linca_simple_state) 0
               = Some (soldier 4 4 chr_B)) by reflexivity.
  split; [exact H1|]. split; [exact H2|]. split; [exact H3|].
  split; [exact H4|]. split; [exact Hc|]. split; [exact Hg|].
  split; [exact Hr|].
  exact (linca_second_call_is_noop 0 linca_simple_state s'
           (soldier 4 4 chr_B) (soldier 4 4 chr_B)
           H1 H2 H3 H4 Hc Hg Hr eq_refl eq_refl eq_refl).
Defined.

(** ** [check_auto_defeat] decides once *)

(** Checking again changes nothing: a second call returns the state the
    first one left, with no second victory recorded; and a call never
    brings [game_over] back to 0 nor touches the pieces or the grid. *)
Theorem auto_defeat_decides_once s :
  array_ok s →
  ∃ s', check_auto_defeat s = Some s'
    ∧ check_auto_defeat s' = Some s'
    ∧ (game_over s ≠ 0 → game_over s' ≠ 0)
    ∧ pieces s' = pieces s ∧ piece_count s' = piece_count s
    ∧ cell_control s' = cell_control s.
Proof.
  intros Hok. rewrite (check_auto_defeat_spec s Hok).
  destruct (tally_of (live s)) as [[[bc bk] rc] rk] eqn:Et.
  eexists. split; [reflexivity|].
  destruct ((game_over s =? 0) && (bc =? 1) && (bk =? 1)) eqn:E1;
    [|destruct ((game_over s =? 0) && (rc =? 1) && (rk =? 1)) eqn:E2].
  - split_and!; try done.
    rewrite check_auto_defeat_spec by done.
    change (live (blue_loses s)) with (live s). by rewrite Et.
  - split_and!; try done.
    rewrite check_auto_defeat_spec by done.
    change (live (red_loses s)) with (live s). by rewrite Et.
  - split_and!; try done.
    rewrite (check_auto_defeat_spec s Hok), Et. by rewrite E1, E2.
Qed.

Lemma auto_defeat_decides_once_witness :
  array_ok tie_state
  ∧ ∃ s', check_auto_defeat tie_state = Some s'
    ∧ check_auto_defeat s' = Some s'
    ∧ (game_over tie_state ≠ 0 → game_over s' ≠ 0)
    ∧ pieces s' = pieces tie_state ∧ piece_count s' = piece_count tie_state
    ∧ cell_control s' = cell_control tie_state.
Proof.
  assert (Hok : array_ok tie_state)
    by (apply test_state_array_ok; simpl; lia).
  split; [exact Hok|]. exact (auto_defeat_decides_once tie_state Hok).
Defined.

(** ** The selection follows its piece *)

Lemma lookup_delete_follow {A} (l : list A) (i j : nat) :
  j ≠ i →
  delete i l !! (if decide (i < j)%nat then (j - 1)%nat else j) = l !! j.
Proof.
  intros Hne. rewrite list_lookup_delete. repeat case_decide; try lia; try done.
  f_equal. lia.
Qed.

Lemma remove_piece_selected idx s s1 :
  remove_piece idx s = Some s1 → selected_piece s1 = selected_piece s.
Proof.
  unfold remove_piece. destruct (shift_down _ _ _); [|done].
  by intros [= <-].
Qed.

Lemma linca_take_selected idx r1 c1 s s1 :
  linca_take idx r1 c1 s = Some s1 →
  selected_piece s1 =
    if selected_piece s >? idx then int_sub (selected_piece s) 1
    else selected_piece s.
Proof.
  unfold linca_take.
  destruct (if (r1 >=? 0) && (r1 <? 9) && (c1 >=? 0) && (c1 <? 9)
            then write_cell (cell_control s) r1 c1 0
            else Some (cell_control s)) as [cc|]; [|done].
  cbn [mbind option_bind].
  destruct (remove_piece idx (with_cell_control cc s)) as [s2|] eqn:Hr; [|done].
  cbn [mbind option_bind]. intros [= <-].
  apply remove_piece_selected in Hr. simpl in Hr.
  unfold adjust_selected. rewrite Hr. by destruct (selected_piece s >? idx).
Qed.

(** The index left by [if (selected_piece > idx) --selected_piece;] names,
    after the removal of the piece of index [idx], the piece that the
    selection named before, when that piece is not the one removed. *)
Lemma selection_after_removal (l : list Piece) idx sel p :
  0 <= idx → 0 <= sel < 20 → sel ≠ idx →
  l !! Z.to_nat sel = Some p →
  0 <= (if sel >? idx then int_sub sel 1 else sel)
  ∧ delete (Z.to_nat idx) l
      !! Z.to_nat (if sel >? idx then int_sub sel 1 else sel) = Some p.
Proof.
  intros Hi Hs Hne Hl.
  rewrite <- Hl, <- (lookup_delete_follow l (Z.to_nat idx) (Z.to_nat sel))
    by lia.
  destruct (Z.gtb_spec sel idx).
  - rewrite int_sub_id by (unfold int_range; lia). split; [lia|].
    case_decide; [|lia]. f_equal. lia.
  - split; [lia|]. case_decide; [lia|done].
Qed.

Lemma linca_run_selection r c a s s' :
  linca_run r c a s s' → array_ok s → board_ok (cell_control s) →
  game_over s' = 0 →
  ∀ p, 0 <= selected_piece s →
    live s !! Z.to_nat (selected_piece s) = Some p →
    spared a p = true →
    0 <= selected_piece s'
    ∧ live s' !! Z.to_nat (selected_piece s') = Some p.
Proof.
  induction 1 as [s Hnone|s d p1 s' Hd Hscan Hp1 Hk Hc
                  |s d p1 s1 s' Hd Hscan Hp1 Hk Ht Hrun IH];
    intros Hok Hb Hgo p Hsel Hl Hsp; [done| |].
  - destruct (scan_dir_hit r c a d s Hok Hscan) as (q1 & p2 & _ & Hi & _).
    destruct (capture_king_spec (near_idx r c d s) p1 s Hok Hi)
      as (s1 & E & _ & _ & Hg & _).
    assert (s1 = s') as -> by congruence. lia.
  - destruct (scan_dir_hit r c a d s Hok Hscan)
      as (q1 & p2 & _ & Hi & Hr & Hl1 & _ & Hc1 & _).
    destruct (linca_take_spec (near_idx r c d s) (near r c d).1
                (near r c d).2 s Hok Hb Hi)
      as (s2 & E & (Hok1 & Hlive & _) & Hb1 & _).
    assert (s2 = s1) as -> by congruence.
    pose proof (linca_take_selected _ _ _ _ _ Ht) as Hs1.
    assert (Hlt : selected_piece s < 20).
    { apply lookup_lt_Some in Hl. rewrite live_length in Hl by done.
      destruct Hok as [_ ?]. lia. }
    assert (Hne : selected_piece s ≠ near_idx r c d s).
    { intros Heq. rewrite Heq, Hl1 in Hl. injection Hl as <-.
      unfold spared in Hsp. by rewrite Hc1, Ascii.eqb_refl in Hsp. }
    destruct (selection_after_removal (live s) (near_idx r c d s)
                (selected_piece s) p) as [H0 Hp]; [lia|lia|done|done|].
    rewrite <- Hs1, <- Hlive in Hp. rewrite <- Hs1 in H0.
    by apply IH.
Qed.

(** As long as the match goes on after a call of [check_linca_capture],
    [selected_piece] names the piece it named before the call, whatever was
    taken, when that piece is not of the colour opposed to the moved
    piece. *)
Theorem linca_selection_follows moved_index s s' moved p :
  array_ok s → board_ok (cell_control s) → 0 <= moved_index < 20 →
  read_piece (pieces s) moved_index = Some moved →
  check_linca_capture moved_index s = Some s' →
  game_over s' = 0 →
  0 <= selected_piece s →
  live s !! Z.to_nat (selected_piece s) = Some p →
  spared (color moved) p = true →
  0 <= selected_piece s'
  ∧ live s' !! Z.to_nat (selected_piece s') = Some p.
Proof.
  intros Hok Hb Hm Hmv Hc Hgo Hsel Hl Hsp.
  destruct (check_linca_capture_run moved_index s Hok Hb Hm)
    as (moved0 & s0 & Hmv0 & Hc0 & Hrun).
  assert (moved0 = moved) as -> by congruence.
  assert (s0 = s') as -> by congruence.
  eapply linca_run_selection; eauto.
Qed.

Lemma selected_state_result :
  ∃ s', check_linca_capture 0 selected_state = Some s'
    ∧ game_over s' = 0 ∧ selected_piece s' = 1.
Proof. eexists. split_and!; [vm_compute; reflexivity|..]; reflexivity. Defined.

Lemma linca_selection_follows_witness :
  ∃ s', array_ok selected_state
    ∧ board_ok (cell_control selected_state) ∧ 0 <= 0 < 20
    ∧ read_piece (pieces selected_state) 0 = Some (soldier 4 4 chr_B)
    ∧ check_linca_capture 0 selected_state = Some s'
    ∧ game_over s' = 0
    ∧ 0 <= selected_piece selected_state
    ∧ live selected_state !! Z.to_nat (selected_piece selected_state)
      = Some (soldier 4 6 chr_B)
    ∧ spared chr_B (soldier 4 6 chr_B) = true
    ∧ 0 <= selected_piece s'
    ∧ live s' !! Z.to_nat (selected_piece s') = Some (soldier 4 6 chr_B).
Proof.
  destruct selected_state_result as (s' & Hc & Hg & _).
  exists s'.
  assert (H1 : array_ok selected_state).
  { change (array_ok linca_simple_state).
    apply test_state_array_ok. simpl. lia. }
  assert (H2 : board_ok (cell_control selected_state))
    by exact empty_board_ok.
  assert (H3 : 0 <= 0 < 20) by lia.
  assert (H4 : read_piece (pieces selected_state) 0
               = Some (soldier 4 4 chr_B)) by reflexivity.
  assert (H5 : 0 <= selected_piece selected_state) by (simpl; lia).
  assert (H6 : live selected_state !! Z.to_nat (selected_piece selected_state)
               = Some (soldier 4 6 chr_B)) by reflexivity.
  assert (H7 : spared chr_B (soldier 4 6 chr_B) = true) by reflexivity.
  split; [exact H1|]. split; [exact H2|]. split; [exact H3|].
  split; [exact H4|]. split; [exact Hc|]. split; [exact Hg|].
  split; [exact H5|]. split; [exact H6|]. split; [exact H7|].
  exact (linca_selection_follows 0 selected_state s' (soldier 4 4 chr_B)
           (soldier 4 6 chr_B) H1 H2 H3 H4 Hc Hg H5 H6 H7).
Defined.

(** ** Indices after a Seltou capture *)

(** A Seltou capture never takes the moved piece; it leaves the moved piece
    at its index when the piece taken comes later in the array, and one
    index lower when the piece taken comes earlier: slot [moved_index]
    then holds the piece that followed the moved one. *)
Theorem seltou_moves_later_indices moved_index old_row old_col s moved :
  array_ok s → board_ok (cell_control s) →
  0 <= moved_index < piece_count s →
  live s !! Z.to_nat moved_index = Some moved →
  ∃ s', check_seltou_capture moved_index old_row old_col s = Some s'
    ∧ (s' = s
       ∨ let idx := find_piece_at s (target moved old_row old_col).1
                                    (target moved old_row old_col).2 in
         0 <= idx ∧ idx ≠ moved_index
         ∧ (moved_index < idx →
            live s' !! Z.to_nat moved_index = Some moved)
         ∧ (idx < moved_index →
            live s' !! Z.to_nat (moved_index - 1) = Some moved
            ∧ live s' !! Z.to_nat moved_index
              = live s !! Z.to_nat (moved_index + 1))).
Proof.
  intros Hok Hb Hm Hl.
  destruct (check_seltou_capture_cases moved_index old_row old_col s Hok Hb)
    as (moved' & s' & Hmv & Hc & Hout); [destruct Hok as [_ ?]; lia|].
  assert (moved' = moved) as ->.
  { unfold read_piece in Hmv. destruct (Z.leb_spec 0 moved_index); [|lia].
    rewrite <- live_lookup in Hmv by lia. congruence. }
  exists s'. split; [done|].
  destruct Hout as [-> _|idx pe Hst Hon -> Hidx Hlp Hs Hcol Hg Hs']; [by left|].
  right. cbv zeta.
  destruct (seltou_taken_spec _ pe _ _ s s' Hok Hb Hidx Hon Hs')
    as ((_ & -> & _) & _).
  set (idx := find_piece_at s _ _) in *.
  assert (Hne : idx ≠ moved_index).
  { intros Heq. rewrite Heq, Hl in Hlp. injection Hlp as <-.
    by destruct (enemy_of_ne (color moved)). }
  split_and!; [lia|done| |].
  - intros Hlt. rewrite list_lookup_delete_lt by lia. done.
  - intros Hlt. split.
    + rewrite list_lookup_delete_ge by lia. rewrite <- Hl. f_equal. lia.
    + rewrite list_lookup_delete_ge by lia. f_equal. lia.
Qed.

Lemma seltou_moves_later_indices_witness :
  array_ok stale_index_state
  ∧ board_ok (cell_control stale_index_state)
  ∧ 0 <= 1 < piece_count stale_index_state
  ∧ live stale_index_state !! Z.to_nat 1 = Some (soldier 4 4 chr_B)
  ∧ ∃ s', check_seltou_capture 1 3 4 stale_index_state = Some s'
    ∧ (s' = stale_index_state
       ∨ let idx := find_piece_at stale_index_state
                      (target (soldier 4 4 chr_B) 3 4).1
                      (target (soldier 4 4 chr_B) 3 4).2 in
         0 <= idx ∧ idx ≠ 1
         ∧ (1 < idx → live s' !! Z.to_nat 1 = Some (soldier 4 4 chr_B))
         ∧ (idx < 1 →
            live s' !! Z.to_nat (1 - 1) = Some (soldier 4 4 chr_B)
            ∧ live s' !! Z.to_nat 1
              = live stale_index_state !! Z.to_nat (1 + 1))).
Proof.
  assert (H1 : array_ok stale_index_state)
    by (apply test_state_array_ok; simpl; lia).
  assert (H2 : board_ok (cell_control stale_index_state))
    by exact empty_board_ok.
  assert (H3 : 0 <= 1 < piece_count stale_index_state) by (simpl; lia).
  assert (H4 : live stale_index_state !! Z.to_nat 1
               = Some (soldier 4 4 chr_B)) by reflexivity.
  split; [exact H1|]. split; [exact H2|]. split; [exact H3|].
  split; [exact H4|].
  exact (seltou_moves_later_indices 1 3 4 stale_index_state
           (soldier 4 4 chr_B) H1 H2 H3 H4).
Defined.

(** In [stale_index_state] the Seltou capture takes the piece of index 0,
    and slot 1 then holds the Blue soldier of (0,5): a call of
    [check_linca_capture] with the same index 1 scans around that soldier
    and takes the Red soldier of (0,6) that it flanks with the Blue soldier
    of (0,7), though the moved piece stands on (4,4). *)
Example stale_index_linca :
  ∃ s1 s2, check_seltou_capture 1 3 4 stale_index_state = Some s1
    ∧ read_piece (pieces s1) 1 = Some (soldier 0 5 chr_B)
    ∧ check_linca_capture 1 s1 = Some s2
    ∧ live s2 = [soldier 4 4 chr_B; soldier 0 5 chr_B; soldier 0 7 chr_B]
    ∧ check_linca_capture 0 s1 = Some s1.
Proof.
  eexists _, _.
  split_and!; [vm_compute; reflexivity|reflexivity|vm_compute; reflexivity
              |reflexivity|vm_compute; reflexivity].
Qed.

(** ** The verdict after a Seltou capture *)

Lemma seltou_take_auto idx er ec s :
  array_ok s → board_ok (cell_control s) → 0 <= idx < piece_count s →
  0 <= er < 9 → 0 <= ec < 9 →
  ∃ s2, seltou_take idx er ec s = check_auto_defeat s2
    ∧ array_ok s2
    ∧ live s2 = delete (Z.to_nat idx) (live s)
    ∧ game_over s2 = game_over s ∧ victory s2 = victory s.
Proof.
  intros Hok Hb Hidx Her Hec. unfold seltou_take.
  destruct (write_cell_spec (cell_control s) er ec 0 Hb Her Hec)
    as (cc & -> & Hbcc & Hcc).
  cbn [mbind option_bind]. set (s0 := with_cell_control cc s).
  destruct (remove_piece_spec idx s0) as (ps' & Hr & Hl & Ht); [done..|].
  rewrite Hr. cbn [mbind option_bind].
  set (s1 := with_pieces ps' (piece_count s0 - 1) s0).
  assert (is_Some (read_piece (pieces s1) idx)) as [pr ->].
  { unfold read_piece. destruct (Z.leb_spec 0 idx); [|lia].
    apply lookup_lt_is_Some_2. simpl. destruct Hok as [_ ?]. lia. }
  cbn [mbind option_bind].
  destruct (adjust_selected_fields idx s1) as (E1 & E2 & E3 & E4 & E5 & _).
  exists (update_scores (adjust_selected idx s1)).
  destruct Hok as [_ ?].
  split_and!.
  - done.
  - unfold array_ok. simpl. rewrite E1, E2. simpl. split; [done|lia].
  - unfold live at 1. simpl. rewrite E1, E2. apply Ht.
  - simpl. by rewrite E4.
  - simpl. by rewrite E5.
Qed.

(** Whenever a call of [check_seltou_capture] in a match that is not over
    changes the state by taking a soldier, it ends with the verdict of
    [check_auto_defeat] on the pieces that remain: Blue loses if it is down
    to one King and one soldier, else Red loses if Red is, else the match
    goes on and nothing is announced. *)
Theorem seltou_capture_gives_verdict moved_index old_row old_col s :
  array_ok s → board_ok (cell_control s) → 0 <= moved_index < 20 →
  Forall valid_piece (live s) → game_over s = 0 →
  ∃ moved s',
    read_piece (pieces s) moved_index = Some moved
    ∧ check_seltou_capture moved_index old_row old_col s = Some s'
    ∧ (s' ≠ s →
       ∃ i pe, live s !! i = Some pe
         ∧ stands_on (target moved old_row old_col).1
                     (target moved old_row old_col).2 pe
         ∧ live s' = delete i (live s)
         ∧ (is_king pe = false →
            (lone chr_B (live s') →
             game_over s' = 1
             ∧ victory s' = victory s ++ [(false, msg_blue_defeat)])
            ∧ (¬ lone chr_B (live s') → lone chr_R (live s') →
               game_over s' = 1
               ∧ victory s' = victory s ++ [(true, msg_red_defeat)])
            ∧ (¬ lone chr_B (live s') → ¬ lone chr_R (live s') →
               game_over s' = 0 ∧ victory s' = victory s))).
Proof.
  intros Hok Hb Hm Hv Hg.
  destruct (check_seltou_capture_cases moved_index old_row old_col s Hok Hb Hm)
    as (moved & s' & Hmv & Hc & Hout).
  exists moved, s'. split_and!; [done..|]. intros Hne.
  destruct Hout as [-> _|idx pe Hst Hon -> Hidx Hlp Hs Hcol Hgd Hs']; [done|].
  set (idx := find_piece_at s _ _) in *.
  exists (Z.to_nat idx), pe.
  destruct (seltou_taken_spec _ pe _ _ s s' Hok Hb Hidx Hon Hs')
    as ((_ & Hl & _) & _).
  split_and!; [done..|]. intros Hk. rewrite Hk in Hs'.
  destruct Hon as [Hr9 Hc9].
  destruct (seltou_take_auto idx (target moved old_row old_col).1
              (target moved old_row old_col).2 s Hok Hb Hidx
              ltac:(lia) ltac:(lia))
    as (s2 & E & Hok2 & Hl2 & Hg2 & Hv2).
  rewrite E in Hs'. rewrite (check_auto_defeat_spec s2 Hok2) in Hs'.
  assert (Hv2' : Forall valid_piece (live s2))
    by (rewrite Hl2; by apply Forall_delete).
  rewrite (tally_of_valid _ Hv2') in Hs'. cbv beta iota in Hs'.
  rewrite Hg2, Hg in Hs'. change (0 =? 0) with true in Hs'.
  cbn [andb] in Hs'. rewrite Hl, <- Hl2.
  rewrite !(lone_dec_eq chr_B), !(lone_dec_eq chr_R).
  destruct ((soldiers_of chr_B (live s2) =? 1)
            && (kings_of chr_B (live s2) =? 1)) eqn:Eb.
  - injection Hs' as <-. rewrite <- Hv2. split_and!; done.
  - destruct ((soldiers_of chr_R (live s2) =? 1)
              && (kings_of chr_R (live s2) =? 1)) eqn:Er;
      injection Hs' as <-; rewrite <- ?Hv2, <- ?Hg, <- ?Hg2;
      split_and!; done.
Qed.

Lemma seltou_capture_gives_verdict_witness :
  array_ok last_soldier_state
  ∧ board_ok (cell_control last_soldier_state) ∧ 0 <= 0 < 20
  ∧ Forall valid_piece (live last_soldier_state)
  ∧ game_over last_soldier_state = 0
  ∧ ∃ moved s',
      read_piece (pieces last_soldier_state) 0 = Some moved
      ∧ check_seltou_capture 0 3 4 last_soldier_state = Some s'
      ∧ (s' ≠ last_soldier_state →
         ∃ i pe, live last_soldier_state !! i = Some pe
           ∧ stands_on (target moved 3 4).1 (target moved 3 4).2 pe
           ∧ live s' = delete i (live last_soldier_state)
           ∧ (is_king pe = false →
              (lone chr_B (live s') →
               game_over s' = 1
               ∧ victory s' = victory last_soldier_state
                                ++ [(false, msg_blue_defeat)])
              ∧ (¬ lone chr_B (live s') → lone chr_R (live s') →
                 game_over s' = 1
                 ∧ victory s' = victory last_soldier_state
                                  ++ [(true, msg_red_defeat)])
              ∧ (¬ lone chr_B (live s') → ¬ lone chr_R (live s') →
                 game_over s' = 0
                 ∧ victory s' = victory last_soldier_state))).
Proof.
  assert (H1 : array_ok last_soldier_state)
    by (apply test_state_array_ok; simpl; lia).
  assert (H2 : board_ok (cell_control last_soldier_state))
    by exact empty_board_ok.
  assert (H3 : 0 <= 0 < 20) by lia.
  assert (H4 : Forall valid_piece (live last_soldier_state))
    by (apply valid_pieces_check; reflexivity).
  assert (H5 : game_over last_soldier_state = 0) by reflexivity.
  split; [exact H1|]. split; [exact H2|]. split; [exact H3|].
  split; [exact H4|]. split; [exact H5|].
  exact (seltou_capture_gives_verdict 0 3 4 last_soldier_state
           H1 H2 H3 H4 H5).
Defined.

(** The same capture by the two rules. In [last_soldier_state] the Seltou
    capture of the Red soldier of (5,4) leaves Red one King and one soldier
    and ends the match with the victory of Blue; in [last_sandwich_state]
    the Linca capture of the Red soldier of (4,5) leaves Red the same
    pieces, and the match goes on until [check_auto_defeat] is called. *)
Example verdict_of_the_two_rules :
  (∃ s', check_seltou_capture 0 3 4 last_soldier_state = Some s'
     ∧ lone chr_R (live s')
     ∧ game_over s' = 1 ∧ victory s' = [(true, msg_red_defeat)])
  ∧ (∃ s' s'', check_linca_capture 0 last_sandwich_state = Some s'
       ∧ lone chr_R (live s')
       ∧ game_over s' = 0 ∧ victory s' = []
       ∧ check_auto_defeat s' = Some s''
       ∧ game_over s'' = 1 ∧ victory s'' = [(true, msg_red_defeat)]).
Proof.
  split.
  - eexists. split; [vm_compute; reflexivity|].
    split_and!; [|reflexivity..].
    apply lone_dec_eq. reflexivity.
  - eexists _, _. split; [vm_compute; reflexivity|].
    split_and!; [|reflexivity|reflexivity|vm_compute; reflexivity
                 |reflexivity..].
    apply lone_dec_eq. reflexivity.
Qed.

(** * Further properties of net.c *)


Lemma length_patch buffer off data :
  (off + length data ≤ length buffer)%nat →
  length (patch buffer off data) = length buffer.
Proof.
  intros H. unfold patch.
  rewrite !length_app, length_take, length_drop. lia.
Qed.

Lemma patch_nil buffer off : patch buffer off [] = buffer.
Proof. unfold patch. simpl. rewrite Nat.add_0_r. apply take_drop. Qed.

Lemma patch_patch buffer off d1 d2 :
  (off + length d1 ≤ length buffer)%nat →
  patch (patch buffer off d1) (off + length d1) d2
  = patch buffer off (d1 ++ d2).
Proof.
  intros H. unfold patch.
  assert (Hl : length (take off buffer) = off) by (rewrite length_take; lia).
  rewrite !(assoc_L (++) (take off buffer) d1).
  rewrite take_app_length' by (rewrite length_app; lia).
  rewrite <- !(assoc_L (++)). f_equal. f_equal. f_equal.
  rewrite length_app.
  rewrite !(assoc_L (++) (take off buffer) d1).
  rewrite drop_app_add' by (rewrite length_app; lia).
  rewrite drop_drop. f_equal. lia.
Qed.

Lemma store_patch data : ∀ buffer off,
  0 <= off → (Z.to_nat off + length data ≤ length buffer)%nat →
  store buffer off data = Some (patch buffer (Z.to_nat off) data).
Proof.
  induction data as [|ch data IH]; intros buffer off Hoff Hlen.
  - simpl. by rewrite patch_nil.
  - simpl in *. unfold write_char.
    destruct (Z.leb_spec 0 off); [|lia].
    destruct (Z.ltb_spec off (Z.of_nat (length buffer))); [|lia].
    cbn [andb mbind option_bind].
    rewrite IH by (rewrite ?length_insert; lia). f_equal.
    replace (Z.to_nat (off + 1)) with (Z.to_nat off + length [ch])%nat
      by (simpl; lia).
    assert (E : <[Z.to_nat off := ch]> buffer = patch buffer (Z.to_nat off) [ch]).
    { unfold patch. simpl. rewrite insert_take_drop by lia.
      do 3 f_equal. lia. }
    rewrite E. rewrite patch_patch by (simpl; lia). done.
Qed.

Lemma recv_loop_spec incoming :
  recv_ok incoming →
  ∀ fuel k total buffer,
    0 <= total <= 4 → length buffer = 5%nat →
    (Z.to_nat (4 - total) < fuel)%nat →
    ∃ n k' b chunks,
      recv_loop fuel incoming k total buffer = Some (n, k', b, chunks)
      ∧ Forall (λ c, c ≠ []) chunks
      ∧ received incoming k total chunks
      ∧ ((n = 4 ∧ total + Z.of_nat (length (concat chunks)) = 4
          ∧ k' = (k + length chunks)%nat
          ∧ b = <[4%nat := zero]>
                  (patch buffer (Z.to_nat total) (concat chunks)))
         ∨ (n <= 0 ∧ total + Z.of_nat (length (concat chunks)) < 4
            ∧ k' = S (k + length chunks)
            ∧ b = patch buffer (Z.to_nat total) (concat chunks)
            ∧ n = (incoming (k + length chunks)%nat
                     (4 - total - Z.of_nat (length (concat chunks)))).1)).
Proof.
  intros Hrecv. induction fuel as [|fuel IH]; intros k total buffer Ht Hl Hf;
    [lia|].
  cbn [recv_loop]. destruct (Z.ltb_spec total 4) as [Hlt|Hge].
  - rewrite (int_sub_id 4 total) by (unfold int_range; lia).
    pose proof (Hrecv k (4 - total)) as Hk.
    destruct (incoming k (4 - total)) as [r data] eqn:E. simpl in Hk.
    destruct (Z.leb_spec r 0) as [Hr|Hr].
    + exists r, (S k), buffer, []. split; [done|]. split; [constructor|].
      split; [done|].
      right. simpl. rewrite patch_nil, !Nat.add_0_r, Z.sub_0_r, E.
      split_and!; [lia|lia|done..].
    + destruct (Hk Hr) as [Hle Hdata].
      rewrite store_patch by lia. cbn [mbind option_bind].
      rewrite (int_add_id total r) by (unfold int_range; lia).
      destruct (IH (S k) (total + r) (patch buffer (Z.to_nat total) data))
        as (n & k' & b & chunks & -> & Hne & Hrcv & Hend);
        [lia|rewrite length_patch by lia; lia|lia|].
      cbn [mbind option_bind].
      exists n, k', b, (data :: chunks). split; [done|].
      assert (Hp : patch (patch buffer (Z.to_nat total) data)
                     (Z.to_nat (total + r)) (concat chunks)
                   = patch buffer (Z.to_nat total) (concat (data :: chunks))).
      { replace (Z.to_nat (total + r))
          with (Z.to_nat total + length data)%nat by lia.
        apply patch_patch. lia. }
      split.
      { constructor; [|done]. intros ->. simpl in Hdata. lia. }
      split.
      { cbn [received]. rewrite E. cbn [fst snd]. rewrite Hdata.
        split_and!; [lia|done|done]. }
      cbn [concat length]. rewrite length_app.
      destruct Hend as [(-> & Hs & -> & ->)|(Hn & Hs & -> & -> & ->)].
      * left. rewrite Hp. split_and!; [done|lia|lia|done].
      * right. rewrite Hp. split_and!; [done|lia|lia|done|].
        do 2 f_equal; lia.
  - assert (total = 4) as -> by lia.
    unfold write_char. rewrite Hl. simpl.
    exists 4, k, (<[4%nat:=zero]> buffer), []. split; [done|].
    split; [constructor|]. split; [done|]. left. simpl. rewrite patch_nil.
    split_and!; [done|lia|lia|done].
Qed.

Lemma patch_0 buffer data :
  patch buffer 0 data = data ++ drop (length data) buffer.
Proof. done. Qed.

Lemma patch_frame buffer frame :
  length buffer = 5%nat → length frame = 4%nat →
  <[4%nat := zero]> (patch buffer 0 frame) = frame ++ [zero].
Proof.
  intros Hb Hf. rewrite patch_0.
  replace 4%nat with (length frame + 0)%nat at 1 by lia.
  rewrite insert_app_r. f_equal.
  destruct (drop (length frame) buffer) as [|x [|y l]] eqn:E;
    apply (f_equal length) in E; rewrite length_drop in E; simpl in E;
    try lia. done.
Qed.

Lemma recv_move_cases incoming k buffer :
  recv_ok incoming → length buffer = BUFFER_SIZE →
  ∃ n k' b chunks,
    recv_move incoming k buffer = Some (n, k', b, chunks)
    ∧ Forall (λ c, c ≠ []) chunks
    ∧ received incoming k 0 chunks
    ∧ ((n = 4 ∧ length (concat chunks) = 4%nat
        ∧ k' = (k + length chunks)%nat
        ∧ b = concat chunks ++ [zero])
       ∨ (n <= 0 ∧ (length (concat chunks) < 4)%nat
          ∧ k' = S (k + length chunks)
          ∧ b = concat chunks ++ drop (length (concat chunks)) buffer
          ∧ n = (incoming (k + length chunks)%nat
                   (4 - Z.of_nat (length (concat chunks)))).1)).
Proof.
  intros Hrecv Hl. unfold recv_move.
  destruct (recv_loop_spec incoming Hrecv 5 k 0 buffer)
    as (n & k' & b & chunks & -> & Hne & Hrcv & Hend); [lia|done|simpl; lia|].
  exists n, k', b, chunks. split; [done|]. split; [done|]. split; [done|].
  destruct Hend as [(-> & Hs & -> & ->)|(Hn & Hs & -> & -> & ->)].
  - left. split_and!; [done|lia|done|].
    apply patch_frame; [done|lia].
  - right. split_and!; [done|lia|done|done|]. f_equal.
Qed.

Lemma g_strdup_cstr l : g_strdup (l ++ [zero]) = Some (cstr l).
Proof.
  induction l as [|ch l IH]; [done|].
  simpl. destruct (Ascii.eqb ch zero); [done|]. by rewrite IH.
Qed.

Lemma length_le_concat (chunks : list (list ascii)) :
  Forall (λ c, c ≠ []) chunks → (length chunks ≤ length (concat chunks))%nat.
Proof.
  induction 1 as [|c chunks Hc _ IH]; [done|].
  simpl. rewrite length_app. destruct c; [done|]. simpl. lia.
Qed.

(** [recv_move] returns on every socket that keeps the contract of [recv],
    after four calls of [recv] that gave bytes at most, and with 4 or with
    a value that is zero or less. The chunks it has put in the buffer are
    those that the calls number [k], [k + 1], ... of [recv] stored, each
    call asking for the bytes still missing. With 4, the buffer holds these
    chunks, each of one byte at least, laid end to end and followed by a
    NUL, so that [g_strdup] copies the C string of the frame. Otherwise the
    value is that of the first call that gave no byte, after fewer than 4
    bytes, which are at the head of the buffer, the rest being as it was:
    no NUL is written then. *)
Theorem recv_move_spec incoming k buffer :
  recv_ok incoming → length buffer = BUFFER_SIZE →
  ∃ n k' b chunks,
    recv_move incoming k buffer = Some (n, k', b, chunks)
    ∧ received incoming k 0 chunks
    ∧ Forall (λ c, c ≠ []) chunks
    ∧ (length chunks ≤ 4)%nat
    ∧ length b = BUFFER_SIZE
    ∧ ((n = 4 ∧ length (concat chunks) = 4%nat
        ∧ k' = (k + length chunks)%nat
        ∧ b = concat chunks ++ [zero]
        ∧ g_strdup b = Some (cstr (concat chunks)))
       ∨ (n <= 0 ∧ (length (concat chunks) < 4)%nat
          ∧ k' = S (k + length chunks)
          ∧ b = concat chunks ++ drop (length (concat chunks)) buffer
          ∧ n = (incoming (k + length chunks)%nat
                   (4 - Z.of_nat (length (concat chunks)))).1)).
Proof.
  intros Hrecv Hl.
  destruct (recv_move_cases incoming k buffer Hrecv Hl)
    as (n & k' & b & chunks & Hr & Hne & Hrcv & Hend).
  exists n, k', b, chunks. split; [done|]. split; [done|]. split; [done|].
  pose proof (length_le_concat chunks Hne) as Hle.
  destruct Hend as [(-> & Hs & -> & ->)|(Hn & Hs & -> & -> & ->)].
  - split; [lia|]. split.
    { rewrite length_app, Hs. reflexivity. }
    left. split_and!; [done..|]. apply g_strdup_cstr.
  - split; [lia|]. split.
    { rewrite length_app, length_drop, Hl. unfold BUFFER_SIZE. lia. }
    right. done.
Qed.

Lemma scripted_ok script : recv_ok (scripted script).
Proof.
  intros k len. unfold scripted. destruct (script !! k) as [chunk|]; simpl.
  - rewrite length_take. lia.
  - lia.
Qed.

Lemma recv_move_spec_witness :
  recv_ok (scripted short_script) ∧ length fresh_buffer = BUFFER_SIZE
  ∧ ∃ n k' b chunks,
      recv_move (scripted short_script) 0 fresh_buffer
        = Some (n, k', b, chunks)
      ∧ received (scripted short_script) 0 0 chunks
      ∧ Forall (λ c, c ≠ []) chunks
      ∧ (length chunks ≤ 4)%nat
      ∧ length b = BUFFER_SIZE
      ∧ ((n = 4 ∧ length (concat chunks) = 4%nat
          ∧ k' = (0 + length chunks)%nat
          ∧ b = concat chunks ++ [zero]
          ∧ g_strdup b = Some (cstr (concat chunks)))
         ∨ (n <= 0 ∧ (length (concat chunks) < 4)%nat
            ∧ k' = S (0 + length chunks)
            ∧ b = concat chunks
                  ++ drop (length (concat chunks)) fresh_buffer
            ∧ n = (scripted short_script (0 + length chunks)%nat
                     (4 - Z.of_nat (length (concat chunks)))).1)).
Proof.
  assert (H1 : recv_ok (scripted short_script)) by apply scripted_ok.
  assert (H2 : length fresh_buffer = BUFFER_SIZE) by reflexivity.
  split; [exact H1|]. split; [exact H2|].
  exact (recv_move_spec (scripted short_script) 0 fresh_buffer H1 H2).
Defined.

(** On [short_script] the first call returns 4 with ["A1A2"] in the buffer,
    and the second returns 0 with the byte received over the first byte of
    the frame before. *)
Example recv_move_short_script :
  recv_move (scripted short_script) 0 fresh_buffer
    = Some (4, 2%nat, ["A"; "1"; "A"; "2"; zero]%char,
            [["A"; "1"]; ["A"; "2"]]%char)
  ∧ recv_move (scripted short_script) 2 ["A"; "1"; "A"; "2"; zero]%char
    = Some (0, 4%nat, ["B"; "1"; "A"; "2"; zero]%char, [["B"]]%char).
Proof. split; reflexivity. Qed.

Lemma received_stream incoming log :
  ∀ chunks k total,
    0 <= total → received incoming k total chunks →
    Forall (λ c, c ≠ []) chunks →
    total + Z.of_nat (length (concat chunks)) <= 4 →
    stream incoming (k + length chunks)
      ((total + Z.of_nat (length (concat chunks))) mod 4) log →
    stream incoming k (total mod 4) (chunks ++ log).
Proof.
  induction chunks as [|c chunks IH]; intros k total Ht Hr Hne Hle Hs.
  - simpl in *. by rewrite Nat.add_0_r, Z.add_0_r in Hs.
  - apply Forall_cons in Hne as [Hc Hne].
    cbn [concat] in Hle, Hs. rewrite length_app in Hle, Hs.
    assert (0 < length c)%nat by (destruct c; [done|simpl; lia]).
    rewrite (Z.mod_small total) by lia.
    destruct Hr as (Hpos & Hdata & Hr).
    cbn [app stream]. split_and!; [done|done|].
    apply IH; [lia|done|done|lia|].
    replace (S k + length chunks)%nat with (k + length (c :: chunks))%nat
      by (simpl; lia).
    replace (total + Z.of_nat (length c) + Z.of_nat (length (concat chunks)))
      with (total + Z.of_nat (length c + length (concat chunks))) by lia.
    done.
Qed.

(** The receiving loop goes round while it reads [running] set and
    [recv_move] succeeds, and returns at the first round where one of them
    fails. The chunks it has received are those that the successive calls
    of [recv] stored, each call asking for what its frame still lacked. It
    cuts these bytes into frames of 4, whatever the chunks they came in,
    and queues one message per frame, in order: the C string that the
    frame holds. The bytes of an unfinished frame are never queued. *)
Theorem server_loop_frames incoming running n :
  recv_ok incoming → running n = false →
  ∀ fuel i k buffer,
    length buffer = BUFFER_SIZE → (n - i < fuel)%nat → (i ≤ n)%nat →
    ∃ msgs log frames partial,
      server_loop fuel incoming running i k buffer = Some (msgs, log)
      ∧ client_loop fuel incoming running i k buffer = Some (msgs, log)
      ∧ stream incoming k 0 log
      ∧ concat log = concat frames ++ partial
      ∧ Forall (λ f, length f = 4%nat) frames
      ∧ (length partial < 4)%nat
      ∧ msgs = cstr <$> frames
      ∧ (length msgs ≤ n - i)%nat
      ∧ (∀ j, (j < length frames)%nat → running (i + j)%nat = true)
      ∧ ((running (i + length frames)%nat = false ∧ partial = [])
         ∨ (running (i + length frames)%nat = true
            ∧ (incoming (k + length log)%nat
                 (4 - Z.of_nat (length partial))).1 <= 0)).
Proof.
  intros Hrecv Hstop. unfold client_loop.
  induction fuel as [|fuel IH]; intros i k buffer Hl Hf Hi; [lia|].
  cbn [server_loop]. destruct (running i) eqn:Hrun.
  - assert (i ≠ n) by (intros ->; congruence).
    destruct (recv_move_cases incoming k buffer Hrecv Hl)
      as (r & k' & b & chunks & -> & Hne & Hrcv & Hend).
    cbn [mbind option_bind].
    destruct Hend as [(-> & Hs & -> & ->)|(Hn & Hs & -> & -> & ->)].
    + change (4 <=? 0) with false. cbv iota.
      rewrite g_strdup_cstr. cbn [mbind option_bind].
      destruct (IH (S i) (k + length chunks)%nat (concat chunks ++ [zero]))
        as (msgs & log & frames & partial & -> & _ & Hst & Hc & Hfr & Hp
            & -> & Hlen & Hgo & Hend);
        [rewrite length_app; simpl; unfold BUFFER_SIZE; lia|lia|lia|].
      cbn [mbind option_bind].
      exists (cstr (concat chunks) :: (cstr <$> frames)), (chunks ++ log),
        (concat chunks :: frames), partial.
      split_and!; [done|done| | |by constructor|done|done|simpl; lia| |].
      * apply (received_stream incoming log chunks k 0);
          [lia|done|done|lia|].
        rewrite Hs. done.
      * rewrite concat_app, Hc. simpl. by rewrite (assoc_L (++)).
      * intros [|j] Hj; [by rewrite Nat.add_0_r|].
        replace (i + S j)%nat with (S i + j)%nat by lia.
        apply Hgo. simpl in Hj. lia.
      * cbn [length]. rewrite length_app.
        replace (i + S (length frames))%nat
          with (S i + length frames)%nat by lia.
        replace (k + (length chunks + length log))%nat
          with (k + length chunks + length log)%nat by lia.
        done.
    + destruct (Z.leb_spec (incoming (k + length chunks)%nat
                  (4 - Z.of_nat (length (concat chunks)))).1 0); [|lia].
      exists [], chunks, [], (concat chunks).
      split_and!; [done|done| |done|constructor|done|done|simpl; lia| |].
      * rewrite <- (app_nil_r chunks).
        apply (received_stream incoming [] chunks k 0);
          [lia|done|done|lia|done].
      * intros j Hj. simpl in Hj. lia.
      * right. simpl. by rewrite Nat.add_0_r.
  - exists [], [], [], [].
    split_and!; [done|done|done|done|constructor|simpl; lia|done|simpl; lia
                | |].
    + intros j Hj. simpl in Hj. lia.
    + left. simpl. by rewrite Nat.add_0_r.
Qed.

(** * Properties of args.c *)

Section ArgsFacts.
Variable strtol : string → Z * string.
Variable atoi : string → Z.
Variable malloc : Z → bool.

Lemma parse_port_token_cases tok p :
  (∃ v, parse_port_token strtol tok p = (0, v) ∧ valid_port v)
  ∨ parse_port_token strtol tok p = (-1, p).
Proof.
  unfold parse_port_token. destruct tok as [tok|]; [|by right].
  destruct (strtol tok) as [val end_].
  destruct (_ || _); [by right|].
  destruct (Z.leb_spec val 0); [by right|].
  destruct (Z.gtb_spec val 65535); [by right|].
  left. exists val. split; [done|]. unfold valid_port. lia.
Qed.

Lemma parse_address_cases addr h p :
  (∃ hs v, parse_address atoi malloc addr h p = (0, Some hs, v)
     ∧ valid_port v)
  ∨ (∃ h' v, parse_address atoi malloc addr h p = (-1, h', v)).
Proof.
  unfold parse_address. destruct (strchr addr ":") as [pos|]; [|right; eauto].
  destruct (Z.leb_spec (atoi (advance addr (S pos))) 0); [right; eauto|].
  destruct (Z.gtb_spec (atoi (advance addr (S pos))) 65535); [right; eauto|].
  cbn [orb]. destruct (malloc _); [|right; eauto].
  left. eexists _, _. split; [done|]. unfold valid_port. lia.
Qed.

Lemma parse_loop_inv toks : ∀ a n,
  loop_inv a →
  match parse_loop strtol atoi malloc toks a n with
  | inl r =>
      is_ia r = 0 ∧ is_ia_both r = 0
      ∧ (help r = 1 ∧ error r = 0 ∨ help r = 0 ∧ error r = 1)
  | inr (a', _) => loop_inv a'
  end.
Proof.
  induction toks as [|tok toks IH]; intros a n Ha; [done|].
  cbn [parse_loop].
  destruct Ha as (He & Hh & Hi & Hb & Hp).
  destruct (_ || _); [simpl; split_and!; [done..|by left]|].
  destruct (_ || _); [by apply IH|].
  destruct (_ || _); [by apply IH|].
  destruct (_ || _); [by apply IH|].
  destruct (_ || _); [by apply IH|].
  destruct (negb _); [|simpl; split_and!; [done..|by right]].
  destruct (_ && _).
  { destruct (parse_port_token_cases (Some tok) (port a))
      as [(v & -> & Hv)| ->]; simpl.
    - apply IH. unfold loop_inv. simpl. split_and!; [done..|by right].
    - split_and!; [done..|by right]. }
  destruct (_ && _); [|simpl; split_and!; [done..|by right]].
  destruct (parse_address_cases tok (host a) (port a))
    as [(hs & v & -> & Hv)|(h' & v & ->)]; simpl.
  - apply IH. unfold loop_inv. simpl. split_and!; [done..|by right].
  - split_and!; [done..|by right].
Qed.

Lemma init_args_inv : loop_inv init_args.
Proof. unfold loop_inv. simpl. split_and!; [done..|by left]. Qed.

Lemma finish_args_accepted a n :
  loop_inv a →
  error (finish_args a n) = 0 →
  mode (finish_args a n) ≠ MODE_NONE
  ∧ (mode (finish_args a n) = MODE_SERVER →
     valid_port (port (finish_args a n)))
  ∧ (mode (finish_args a n) = MODE_CLIENT →
     is_Some (host (finish_args a n))
     ∧ valid_port (port (finish_args a n)))
  ∧ (is_ia (finish_args a n) = 0 ∨ is_ia (finish_args a n) = 1)
  ∧ (is_ia_both (finish_args a n) = 1 → is_ia (finish_args a n) = 1).
Proof.
  destruct a as [m ia both h p hl er]. unfold loop_inv, finish_args.
  cbn [error help is_ia is_ia_both port mode host with_ia].
  intros (-> & -> & _ & _ & Hp).
  assert (Hia : ((if n >=? 1 then 1 else 0) = 0
                 ∨ (if n >=? 1 then 1 else 0) = 1)
                ∧ ((if n >=? 2 then 1 else 0) = 1 →
                   (if n >=? 1 then 1 else 0) = 1)).
  { destruct (Z.geb_spec n 1), (Z.geb_spec n 2); split; auto; lia. }
  destruct Hia as [Hia1 Hia2]. revert Hia1 Hia2.
  generalize (if n >=? 1 then 1 else 0) (if n >=? 2 then 1 else 0).
  intros x y Hx Hy.
  destruct m, h as [hs|]; simpl; try done;
    try (rewrite bool_decide_eq_false_2 by done);
    try (rewrite bool_decide_eq_true_2 by done);
    try (destruct (Z.eqb_spec p 0) as [E0|E0]); simpl; try done;
    intros _; (split; [done|]);
    (split; [intros Hm; first [done|by destruct Hp]|]);
    (split; [intros Hm; first [done|split; [done|by destruct Hp]]|]);
    done.

Qed.

(** What [parse_args] accepts, with neither [error] nor [help] set, is a
    complete configuration: at least one argument was given, a mode is
    chosen, a server has a port between 1 and 65535, a client has a host
    and such a port, and [is_ia_both] is set only with [is_ia]. *)
Theorem parse_args_accepted argv :
  error (parse_args strtol atoi malloc argv) = 0 →
  help (parse_args strtol atoi malloc argv) = 0 →
  (2 ≤ length argv)%nat
  ∧ mode (parse_args strtol atoi malloc argv) ≠ MODE_NONE
  ∧ (mode (parse_args strtol atoi malloc argv) = MODE_SERVER →
     valid_port (port (parse_args strtol atoi malloc argv)))
  ∧ (mode (parse_args strtol atoi malloc argv) = MODE_CLIENT →
     is_Some (host (parse_args strtol atoi malloc argv))
     ∧ valid_port (port (parse_args strtol atoi malloc argv)))
  ∧ (is_ia (parse_args strtol atoi malloc argv) = 0
     ∨ is_ia (parse_args strtol atoi malloc argv) = 1)
  ∧ (is_ia_both (parse_args strtol atoi malloc argv) = 1 →
     is_ia (parse_args strtol atoi malloc argv) = 1).
Proof.
  unfold parse_args. destruct (Z.ltb_spec (Z.of_nat (length argv)) 2).
  { simpl. done. }
  pose proof (parse_loop_inv (drop 1 argv) init_args 0 init_args_inv) as H1.
  destruct (parse_loop _ _ _ _ _ _) as [r|[a n]].
  { destruct H1 as (_ & _ & [[? ?]|[? ?]]); intros; lia. }
  intros He _. split; [lia|]. by apply finish_args_accepted.
Qed.

Lemma parse_loop_app pre : ∀ l a n,
  parse_loop strtol atoi malloc (pre ++ l) a n =
    match parse_loop strtol atoi malloc pre a n with
    | inl r => inl r
    | inr (a', n') => parse_loop strtol atoi malloc l a' n'
    end.
Proof.
  induction pre as [|tok pre IH]; intros l a n; [done|].
  cbn [app parse_loop].
  repeat (destruct (_ || _); [by rewrite ?IH|]).
  destruct (negb _); [|done].
  destruct (_ && _).
  { destruct (parse_port_token _ _ _) as [ret p].
    destruct (negb _); [done|]. by rewrite IH. }
  destruct (_ && _); [|done].
  destruct (parse_address _ _ _ _ _) as [[ret h] p].
  destruct (negb _); [done|]. by rewrite IH.
Qed.

Lemma help_token_test h :
  h ∈ help_tokens → String.eqb h "-h" || String.eqb h "--help" = true.
Proof.
  unfold help_tokens. intros H.
  apply elem_of_cons in H as [->|H]; [done|].
  apply elem_of_cons in H as [->|H]; [done|].
  by apply elem_of_nil in H.
Qed.

Lemma parse_args_cons a0 tok toks :
  parse_args strtol atoi malloc (a0 :: tok :: toks) =
    match parse_loop strtol atoi malloc (tok :: toks) init_args 0 with
    | inl args => args
    | inr (args, ia_count) => finish_args args ia_count
    end.
Proof.
  unfold parse_args. cbn [length].
  destruct (Z.ltb_spec (Z.of_nat (S (S (length toks)))) 2); [lia|done].
Qed.

Lemma parse_args_app a0 pre tok post :
  parse_args strtol atoi malloc (a0 :: pre ++ tok :: post) =
    match parse_loop strtol atoi malloc pre init_args 0 with
    | inl r => r
    | inr (a, n) =>
        match parse_loop strtol atoi malloc (tok :: post) a n with
        | inl args => args
        | inr (args, ia_count) => finish_args args ia_count
        end
    end.
Proof.
  destruct pre as [|t pre]; [apply parse_args_cons|].
  rewrite <- app_comm_cons, parse_args_cons.
  rewrite (app_comm_cons pre (tok :: post) t), parse_loop_app.
  by destruct (parse_loop _ _ _ (t :: pre) _ _) as [r|[a n]].
Qed.

Lemma option_tokens_loop pre : ∀ a n,
  Forall (λ t, t ∈ option_tokens) pre →
  ∃ a' n', parse_loop strtol atoi malloc pre a n = inr (a', n')
    ∧ host a' = host a ∧ port a' = port a
    ∧ help a' = help a ∧ error a' = error a.
Proof.
  induction pre as [|tok pre IH]; intros a n Hf; [by eexists _, _|].
  apply Forall_cons in Hf as [Ht Hf]. unfold option_tokens in Ht.
  repeat (apply elem_of_cons in Ht as [->|Ht]);
    [..|by apply elem_of_nil in Ht]; cbn [parse_loop]; simpl;
    (edestruct IH as (a' & n' & -> & ? & ? & ? & ?); [done|]);
    by eexists _, _.
Qed.

(** Nothing that follows a help option is looked at: the call returns at
    the first [-h] or [--help], unless an argument before it was refused;
    in both cases the [-ia] options met so far are forgotten. When only
    mode and [-ia] options come before it, [help] is set. *)
Theorem parse_args_help_cuts a0 pre h post :
  h ∈ help_tokens →
  parse_args strtol atoi malloc (a0 :: pre ++ h :: post)
  = parse_args strtol atoi malloc (a0 :: pre ++ [h])
  ∧ is_ia (parse_args strtol atoi malloc (a0 :: pre ++ h :: post)) = 0
  ∧ is_ia_both (parse_args strtol atoi malloc (a0 :: pre ++ h :: post)) = 0
  ∧ (help (parse_args strtol atoi malloc (a0 :: pre ++ h :: post)) = 1
     ∧ error (parse_args strtol atoi malloc (a0 :: pre ++ h :: post)) = 0
     ∨ help (parse_args strtol atoi malloc (a0 :: pre ++ h :: post)) = 0
       ∧ error (parse_args strtol atoi malloc (a0 :: pre ++ h :: post)) = 1)
  ∧ (Forall (λ t, t ∈ option_tokens) pre →
     help (parse_args strtol atoi malloc (a0 :: pre ++ h :: post)) = 1
     ∧ error (parse_args strtol atoi malloc (a0 :: pre ++ h :: post)) = 0
     ∧ host (parse_args strtol atoi malloc (a0 :: pre ++ h :: post)) = None
     ∧ port (parse_args strtol atoi malloc (a0 :: pre ++ h :: post)) = 0).
Proof.
  intros Hh. pose proof (help_token_test h Hh) as Ht.
  rewrite !parse_args_app. cbn [parse_loop]. rewrite Ht.
  pose proof (parse_loop_inv pre init_args 0 init_args_inv) as Hinv.
  split_and!.
  - by destruct (parse_loop _ _ _ pre _ _) as [r|[a n]].
  - destruct (parse_loop _ _ _ pre _ _) as [r|[a n]]; [tauto|].
    simpl. by destruct Hinv as (_ & _ & ? & _).
  - destruct (parse_loop _ _ _ pre _ _) as [r|[a n]]; [tauto|].
    simpl. by destruct Hinv as (_ & _ & _ & ? & _).
  - destruct (parse_loop _ _ _ pre _ _) as [r|[a n]]; [tauto|].
    simpl. left. by destruct Hinv as (? & _).
  - intros Hf.
    destruct (option_tokens_loop pre init_args 0 Hf)
      as (a' & n' & -> & H1 & H2 & H3 & H4).
    simpl. by rewrite H1, H2, H4.
Qed.

Lemma not_dash_tests tok :
  deref tok ≠ "-"%char →
  String.eqb tok "-h" || String.eqb tok "--help" = false
  ∧ String.eqb tok "-l" || String.eqb tok "--local" = false
  ∧ String.eqb tok "-s" || String.eqb tok "--server" = false
  ∧ String.eqb tok "-c" || String.eqb tok "--client" = false
  ∧ String.eqb tok "-ia" || String.eqb tok "--ia" = false
  ∧ negb (Ascii.eqb (deref tok) "-") = true.
Proof.
  intros H. destruct tok as [|ch tok]; [done|]. simpl in H.
  apply Ascii.eqb_neq in H. simpl. rewrite H. done.
Qed.

Lemma local_tokens_loop pre : ∀ a n,
  Forall (λ t, t ∈ local_tokens) pre →
  ∃ a' n', parse_loop strtol atoi malloc pre a n = inr (a', n')
    ∧ (mode a' = mode a ∨ mode a' = MODE_LOCAL)
    ∧ host a' = host a ∧ port a' = port a
    ∧ help a' = help a ∧ is_ia a' = is_ia a.
Proof.
  induction pre as [|tok pre IH]; intros a n Hf.
  { eexists _, _. split_and!; [done|by left|done..]. }
  apply Forall_cons in Hf as [Ht Hf]. unfold local_tokens in Ht.
  repeat (apply elem_of_cons in Ht as [->|Ht]);
    [..|by apply elem_of_nil in Ht]; cbn [parse_loop]; simpl;
    (edestruct IH as (a' & n' & -> & Hm & ? & ? & ? & ?); [done|]);
    eexists _, _; (split_and!; [done| |done..]);
    simpl in Hm; tauto.
Qed.

(** An argument that is not an option is refused unless a server or a
    client mode was chosen before it: alone, or after [-l] and [-ia]
    options only, it ends the call with [error] set and nothing read
    from it. *)
Theorem operand_needs_mode a0 pre tok post :
  Forall (λ t, t ∈ local_tokens) pre →
  deref tok ≠ "-"%char →
  error (parse_args strtol atoi malloc (a0 :: pre ++ tok :: post)) = 1
  ∧ help (parse_args strtol atoi malloc (a0 :: pre ++ tok :: post)) = 0
  ∧ host (parse_args strtol atoi malloc (a0 :: pre ++ tok :: post)) = None
  ∧ port (parse_args strtol atoi malloc (a0 :: pre ++ tok :: post)) = 0
  ∧ is_ia (parse_args strtol atoi malloc (a0 :: pre ++ tok :: post)) = 0.
Proof.
  intros Hf Htok. rewrite parse_args_app.
  destruct (local_tokens_loop pre init_args 0 Hf)
    as (a' & n' & -> & Hm & H1 & H2 & H3 & H4).
  cbn [parse_loop].
  destruct (not_dash_tests tok Htok) as (-> & -> & -> & -> & -> & ->).
  assert (mode_eqb (mode a') MODE_SERVER = false
          ∧ mode_eqb (mode a') MODE_CLIENT = false) as [-> ->].
  { destruct Hm as [-> | ->]; done. }
  simpl. by rewrite H1, H2, H3, H4.
Qed.
Lemma strchr_split s ch : ∀ n,
  strchr s ch = Some n →
  s = (strncpy s n ++ String ch (advance s (S n)))%string
  ∧ strchr (strncpy s n) ch = None.
Proof.
  induction s as [|x s IH]; intros n; [done|].
  cbn [strchr]. destruct (Ascii.eqb_spec x ch) as [->|Hne].
  - intros [= <-]. done.
  - destruct (strchr s ch) as [m|] eqn:E; [|done]. intros [= <-].
    destruct (IH m eq_refl) as [IH1 IH2]. cbn [strncpy advance] in *.
    split.
    + simpl. by rewrite <- IH1.
    + simpl. destruct (Ascii.eqb_spec x ch); [done|]. by rewrite IH2.
Qed.

Lemma strchr_app hs ch rest :
  strchr hs ch = None →
  strchr (hs ++ String ch rest) ch = Some (String.length hs)
  ∧ strncpy (hs ++ String ch rest) (String.length hs) = hs
  ∧ advance (hs ++ String ch rest) (S (String.length hs)) = rest.
Proof.
  induction hs as [|x hs IH]; simpl.
  - intros _. by rewrite Ascii.eqb_refl.
  - destruct (Ascii.eqb x ch); [done|].
    destruct (strchr hs ch) eqn:E; [done|]. intros _.
    destruct (IH eq_refl) as (-> & -> & IH3). simpl in IH3.
    by rewrite IH3.
Qed.

(** [parse_address] succeeds exactly on a text cut by its first colon into
    a host, which it returns in fresh memory, and a text that [atoi] reads
    as a port between 1 and 65535, which it stores; the allocation has to
    succeed. Every other call returns -1, and it leaves [*port] untouched
    when the text has no colon. *)
Theorem parse_address_splits addr h p :
  (∀ h' p', parse_address atoi malloc addr h p = (0, h', p') ↔
     ∃ hs rest, addr = (hs ++ String ":" rest)%string
       ∧ strchr hs ":" = None
       ∧ valid_port (atoi rest)
       ∧ malloc (int_add (Z.of_nat (String.length hs)) 1) = true
       ∧ h' = Some hs ∧ p' = atoi rest)
  ∧ ((parse_address atoi malloc addr h p).1.1 = 0
     ∨ (parse_address atoi malloc addr h p).1.1 = -1)
  ∧ (strchr addr ":" = None →
     parse_address atoi malloc addr h p = (-1, h, p)).
Proof.
  split_and!.
  - intros h' p'. split.
    + unfold parse_address.
      destruct (strchr addr ":") as [pos|] eqn:E; [|done].
      destruct (strchr_split addr ":" pos E) as [Hs Hn].
      destruct (Z.leb_spec (atoi (advance addr (S pos))) 0); [done|].
      destruct (Z.gtb_spec (atoi (advance addr (S pos))) 65535); [done|].
      cbn [orb]. destruct (malloc _) eqn:Em; [|done].
      intros [= <- <-].
      exists (strncpy addr pos), (advance addr (S pos)).
      destruct (strchr_app (strncpy addr pos) ":" (advance addr (S pos)) Hn)
        as (Hp & _).
      rewrite <- Hs, E in Hp. injection Hp as Hp.
      split_and!; [done|done|unfold valid_port; lia| |done|done].
      by rewrite <- Hp.
    + intros (hs & rest & -> & Hn & Hv & Hm & -> & ->).
      destruct (strchr_app hs ":" rest Hn) as (E1 & E2 & E3).
      unfold parse_address. rewrite E1, E2, E3, Hm.
      unfold valid_port in Hv.
      destruct (Z.leb_spec (atoi rest) 0); [lia|].
      destruct (Z.gtb_spec (atoi rest) 65535); [lia|]. done.
  - unfold parse_address. destruct (strchr addr ":"); [|by right].
    destruct (_ || _); [by right|]. destruct (malloc _); [by left|by right].
  - unfold parse_address. by intros ->.
Qed.
End ArgsFacts.

Lemma parse_args_accepted_witness :
  error (parse_args strtol_dec atoi_dec malloc_ok
           ["program"; "-c"; "127.0.0.1:5555"; "-ia"]%string) = 0
  ∧ help (parse_args strtol_dec atoi_dec malloc_ok
            ["program"; "-c"; "127.0.0.1:5555"; "-ia"]%string) = 0
  ∧ mode (parse_args strtol_dec atoi_dec malloc_ok
            ["program"; "-c"; "127.0.0.1:5555"; "-ia"]%string) ≠ MODE_NONE.
Proof.
  assert (H1 : error (parse_args strtol_dec atoi_dec malloc_ok
                 ["program"; "-c"; "127.0.0.1:5555"; "-ia"]%string) = 0)
    by reflexivity.
  assert (H2 : help (parse_args strtol_dec atoi_dec malloc_ok
                 ["program"; "-c"; "127.0.0.1:5555"; "-ia"]%string) = 0)
    by reflexivity.
  split; [exact H1|]. split; [exact H2|].
  exact (proj1 (proj2 (parse_args_accepted strtol_dec atoi_dec malloc_ok
                         _ H1 H2))).
Defined.

(** The unit tests of tests/TestArgs.c. *)
Example test_parse_args :
  let run := parse_args strtol_dec atoi_dec malloc_ok in
  (mode (run ["program"; "-l"]%string) = MODE_LOCAL
   ∧ is_ia (run ["program"; "-l"]%string) = 0
   ∧ is_ia_both (run ["program"; "-l"]%string) = 0
   ∧ error (run ["program"; "-l"]%string) = 0)
  ∧ (mode (run ["program"; "-s"; "5555"]%string) = MODE_SERVER
     ∧ port (run ["program"; "-s"; "5555"]%string) = 5555
     ∧ error (run ["program"; "-s"; "5555"]%string) = 0)
  ∧ (mode (run ["program"; "-c"; "127.0.0.1:5555"]%string) = MODE_CLIENT
     ∧ port (run ["program"; "-c"; "127.0.0.1:5555"]%string) = 5555
     ∧ host (run ["program"; "-c"; "127.0.0.1:5555"]%string)
       = Some "127.0.0.1"%string)
  ∧ (mode (run ["program"; "-l"; "-ia"; "-ia"]%string) = MODE_LOCAL
     ∧ is_ia (run ["program"; "-l"; "-ia"; "-ia"]%string) = 1
     ∧ is_ia_both (run ["program"; "-l"; "-ia"; "-ia"]%string) = 1)
  ∧ (error (run ["program"]%string) = 1
     ∧ error (run ["program"; "-s"; "abc"]%string) = 1
     ∧ error (run ["program"; "-c"; "127.0.0.1"]%string) = 1).
Proof. cbv zeta. split_and!; reflexivity. Qed.

(** * The frames received and the callback *)

Lemma server_loop_frames_witness :
  recv_ok (scripted short_script) ∧ five_rounds 5 = false
  ∧ length fresh_buffer = BUFFER_SIZE ∧ (5 - 0 < 6)%nat ∧ (0 ≤ 5)%nat
  ∧ ∃ msgs log frames partial,
      server_loop 6 (scripted short_script) five_rounds 0 0 fresh_buffer
        = Some (msgs, log)
      ∧ client_loop 6 (scripted short_script) five_rounds 0 0 fresh_buffer
        = Some (msgs, log)
      ∧ stream (scripted short_script) 0 0 log
      ∧ concat log = concat frames ++ partial
      ∧ Forall (λ f, length f = 4%nat) frames
      ∧ (length partial < 4)%nat
      ∧ msgs = cstr <$> frames
      ∧ (length msgs ≤ 5 - 0)%nat
      ∧ (∀ j, (j < length frames)%nat → five_rounds (0 + j)%nat = true)
      ∧ ((five_rounds (0 + length frames)%nat = false ∧ partial = [])
         ∨ (five_rounds (0 + length frames)%nat = true
            ∧ (scripted short_script (0 + length log)%nat
                 (4 - Z.of_nat (length partial))).1 <= 0)).
Proof.
  assert (H1 : recv_ok (scripted short_script)) by apply scripted_ok.
  assert (H2 : five_rounds 5 = false) by reflexivity.
  assert (H3 : length fresh_buffer = BUFFER_SIZE) by reflexivity.
  assert (H4 : (5 - 0 < 6)%nat) by lia.
  assert (H5 : (0 ≤ 5)%nat) by lia.
  split; [exact H1|]. split; [exact H2|]. split; [exact H3|].
  split; [exact H4|]. split; [exact H5|].
  exact (server_loop_frames (scripted short_script) five_rounds 5 H1 H2
           6%nat 0%nat 0%nat fresh_buffer H3 H4 H5).
Defined.

(** On [short_script] the loop queues ["A1A2"] and stops when the peer
    closes, the byte of the unfinished frame being dropped. *)
Example server_loop_short_script :
  server_loop 6 (scripted short_script) five_rounds 0 0 fresh_buffer
  = Some (["A1A2"%string],
          [["A"; "1"]; ["A"; "2"]; ["B"]]%char).
Proof. reflexivity. Qed.

Lemma cstr_nul frame :
  zero ∈ frame → strlen (cstr frame) < Z.of_nat (length frame).
Proof.
  induction frame as [|ch frame IH]; intros H.
  - by apply elem_of_nil in H.
  - cbn [cstr length]. destruct (Ascii.eqb_spec ch zero) as [->|Hne].
    + simpl. lia.
    + apply elem_of_cons in H as [Heq|H]; [by subst|].
      cbn [strlen]. destruct (Ascii.eqb_spec ch zero); [done|].
      specialize (IH H). lia.
Qed.

Lemma cstr_full frame :
  zero ∉ frame →
  cstr frame = string_of_list_ascii frame
  ∧ strlen (cstr frame) = Z.of_nat (length frame).
Proof.
  induction frame as [|ch frame IH]; intros H; [done|].
  apply not_elem_of_cons in H as [Hne H].
  destruct (IH H) as [IH1 IH2].
  cbn [cstr string_of_list_ascii length].
  destruct (Ascii.eqb_spec ch zero) as [E|_]; [by subst|].
  cbn [strlen]. destruct (Ascii.eqb_spec ch zero) as [E|_]; [by subst|].
  rewrite IH1 in *. split; [done|]. lia.
Qed.

Lemma toupper_column x :
  0 <= toupper x - 65 <= 8 ↔ 65 <= x <= 73 ∨ 97 <= x <= 105.
Proof.
  unfold toupper.
  destruct (Z.leb_spec 97 x), (Z.leb_spec x 122); simpl; lia.
Qed.

Lemma decode_cells c0 c1 c2 c3 :
  decode (token c0 c1 c2 c3)
  = Some (9 - (char_code c1 - 48), toupper (char_code c0) - 65,
          9 - (char_code c3 - 48), toupper (char_code c2) - 65).
Proof. reflexivity. Qed.

(** Each of the two cells of a token, the origin named by its first two
    characters and the destination named by its last two, lies on the board
    exactly when its letter is one of A to I, in either case, and its digit
    one of 1 to 9; the column is the rank of the letter from A, or from a
    for a small letter, and the row counts the digit down from 9. *)
Theorem decode_on_board c0 c1 c2 c3 :
  ∃ from_row from_col to_row to_col,
    decode (token c0 c1 c2 c3) = Some (from_row, from_col, to_row, to_col)
    ∧ (on_board from_row from_col ↔ is_column c0 ∧ is_rank c1)
    ∧ (on_board to_row to_col ↔ is_column c2 ∧ is_rank c3)
    ∧ from_row = 57 - char_code c1
    ∧ to_row = 57 - char_code c3
    ∧ (65 <= char_code c0 <= 90 → from_col = char_code c0 - 65)
    ∧ (97 <= char_code c0 <= 122 → from_col = char_code c0 - 97)
    ∧ (65 <= char_code c2 <= 90 → to_col = char_code c2 - 65)
    ∧ (97 <= char_code c2 <= 122 → to_col = char_code c2 - 97).
Proof.
  eexists _, _, _, _. split; [apply decode_cells|].
  unfold on_board, is_column, is_rank.
  pose proof (toupper_column (char_code c0)).
  pose proof (toupper_column (char_code c2)).
  split_and!; [lia|lia|lia|lia|..]; unfold toupper; intros Hc.
  - destruct (Z.leb_spec 97 (char_code c0)); simpl; lia.
  - destruct (Z.leb_spec 97 (char_code c0)), (Z.leb_spec (char_code c0) 122);
      simpl; lia.
  - destruct (Z.leb_spec 97 (char_code c2)); simpl; lia.
  - destruct (Z.leb_spec 97 (char_code c2)), (Z.leb_spec (char_code c2) 122);
      simpl; lia.
Qed.

Section PeerFrames.

Variable can_move : Z → Z → Z → State → bool.
Variable move_piece : Z → Z → Z → World → World.

(** A frame of 4 bytes that holds a NUL reaches the callback as a shorter
    string, and the callback drops it: nothing changes, the match goes on
    and the socket stays open. *)
Theorem nul_frame_is_dropped frame w :
  length frame = 4%nat → zero ∈ frame →
  g_strdup (frame ++ [zero]) = Some (cstr frame)
  ∧ gui_move_piece_callback can_move move_piece (cstr frame) w = Some w.
Proof.
  intros Hl Hz. split; [apply g_strdup_cstr|].
  pose proof (cstr_nul frame Hz) as H. rewrite Hl in H.
  unfold gui_move_piece_callback.
  destruct (Z.eqb_spec (strlen (cstr frame)) 4); [lia|done].
Qed.

(** While every live piece stands on the board, a frame without NUL whose
    first two characters are not a column letter and a row digit is
    refused: the callback ends the match by [invalid_move], whatever
    [can_move] says. *)
Theorem off_board_origin_is_refused c0 c1 c2 c3 w :
  array_ok (game w) →
  Forall (λ p, on_board (row p) (col p)) (live (game w)) →
  zero ∉ [c0; c1; c2; c3] →
  ¬ (is_column c0 ∧ is_rank c1) →
  cstr [c0; c1; c2; c3] = token c0 c1 c2 c3
  ∧ gui_move_piece_callback can_move move_piece (token c0 c1 c2 c3) w
    = Some (invalid_move w).
Proof.
  intros Hok Hon Hz Hoff.
  destruct (cstr_full _ Hz) as [Hc Hlen]. split; [done|].
  change (string_of_list_ascii [c0; c1; c2; c3]) with (token c0 c1 c2 c3)
    in Hc.
  rewrite Hc in Hlen.
  unfold gui_move_piece_callback. rewrite Hlen.
  cbn [length Z.of_nat Pos.of_succ_nat Pos.succ Z.eqb Pos.eqb negb].
  rewrite decode_cells. cbn [mbind option_bind].
  set (fr := 9 - (char_code c1 - 48)).
  set (fc := toupper (char_code c0) - 65).
  destruct (find_piece_at_spec (game w) fr fc Hok)
    as [[-> _]|(p & _ & _ & Hl & [Hr Hcl])]; [done|].
  destruct Hoff. rewrite Forall_forall in Hon.
  assert (Hp : on_board (row p) (col p)).
  { apply Hon. by eapply list_elem_of_lookup_2. }
  rewrite Hr, Hcl in Hp. unfold on_board, fr, fc in Hp.
  unfold is_column, is_rank.
  pose proof (toupper_column (char_code c0)). lia.
Qed.

End PeerFrames.

Lemma nul_frame_is_dropped_witness :
  length ["A"; "1"; zero; "2"]%char = 4%nat
  ∧ zero ∈ ["A"; "1"; zero; "2"]%char
  ∧ g_strdup (["A"; "1"; zero; "2"]%char ++ [zero])
    = Some (cstr ["A"; "1"; zero; "2"]%char)
  ∧ gui_move_piece_callback any_move no_change
      (cstr ["A"; "1"; zero; "2"]%char) peer_world = Some peer_world.
Proof.
  assert (H1 : length ["A"; "1"; zero; "2"]%char = 4%nat) by reflexivity.
  assert (H2 : zero ∈ ["A"; "1"; zero; "2"]%char).
  { apply (list_elem_of_lookup_2 _ 2%nat). reflexivity. }
  split; [exact H1|]. split; [exact H2|].
  exact (nul_frame_is_dropped any_move no_change _ peer_world H1 H2).
Defined.

Lemma off_board_origin_is_refused_witness :
  array_ok (game peer_world)
  ∧ Forall (λ p, on_board (row p) (col p)) (live (game peer_world))
  ∧ (zero ∉ ["J"; "1"; "A"; "2"]%char)
  ∧ (¬ (is_column "J" ∧ is_rank "1"))
  ∧ cstr ["J"; "1"; "A"; "2"]%char = token "J" "1" "A" "2"
  ∧ gui_move_piece_callback any_move no_change (token "J" "1" "A" "2")
      peer_world = Some (invalid_move peer_world).
Proof.
  assert (H1 : array_ok (game peer_world))
    by (apply test_state_array_ok; simpl; lia).
  assert (H2 : Forall (λ p, on_board (row p) (col p))
                 (live (game peer_world))).
  { repeat constructor; simpl; lia. }
  assert (H3 : zero ∉ ["J"; "1"; "A"; "2"]%char).
  { intros H. repeat (apply elem_of_cons in H as [H|H]; [done|]).
    by apply elem_of_nil in H. }
  assert (H4 : ¬ (is_column "J" ∧ is_rank "1")).
  { assert (E : char_code "J" = 74) by reflexivity.
    unfold is_column. rewrite E. lia. }
  split; [exact H1|]. split; [exact H2|]. split; [exact H3|].
  split; [exact H4|].
  exact (off_board_origin_is_refused any_move no_change
           "J" "1" "A" "2" peer_world H1 H2 H3 H4).
Defined.

Lemma invalid_move_my_color w : my_color (invalid_move w) = my_color w.
Proof.
  unfold invalid_move. simpl. by destruct (negb _).
Qed.

(** However many tokens of the peer are refused, the socket is shut down
    and closed by the first refusal only: each later one queues a redraw
    and records the same verdict once more. *)
Theorem invalid_move_closes_once n w :
  g_socket (Nat.iter (S n) invalid_move w) = INVALID_SOCKET
  ∧ game_over (game (Nat.iter (S n) invalid_move w)) = 1
  ∧ effects (Nat.iter (S n) invalid_move w)
    = effects (invalid_move w) ++ replicate n QueueDraw
  ∧ victory (game (Nat.iter (S n) invalid_move w))
    = victory (game w)
      ++ replicate (S n) (Ascii.eqb (my_color w) chr_B, msg_invalid_move)
  ∧ my_color (Nat.iter (S n) invalid_move w) = my_color w.
Proof.
  induction n as [|n IH].
  - destruct (invalid_move_spec w) as (H1 & H2 & H3 & _).
    simpl. rewrite app_nil_r.
    split_and!; [done..|apply invalid_move_my_color].
  - destruct IH as (I1 & I2 & I3 & I4 & I5).
    set (w1 := Nat.iter (S n) invalid_move w) in *.
    change (Nat.iter (S (S n)) invalid_move w) with (invalid_move w1).
    destruct (invalid_move_spec w1) as (H1 & H2 & H3 & H4 & _).
    split_and!; [done|done| | |].
    + rewrite H4, I1, I3. simpl.
      rewrite <- (assoc_L (++)). f_equal.
      symmetry. apply replicate_cons_app.
    + rewrite H2, I4, I5. rewrite <- (assoc_L (++)). f_equal.
      symmetry. apply (replicate_S_end (S n)).
    + by rewrite invalid_move_my_color.
Qed.

(** * The command line: examples *)

Lemma parse_args_help_cuts_witness :
  "--help"%string ∈ help_tokens
  ∧ parse_args strtol_dec atoi_dec malloc_ok
      ("program" :: ["-s"; "-ia"] ++ "--help" :: ["5555"; "-x"])%string
    = parse_args strtol_dec atoi_dec malloc_ok
        ("program" :: ["-s"; "-ia"] ++ ["--help"])%string
  ∧ is_ia (parse_args strtol_dec atoi_dec malloc_ok
             ("program" :: ["-s"; "-ia"] ++ "--help" :: ["5555"; "-x"])%string)
    = 0.
Proof.
  assert (H1 : "--help"%string ∈ help_tokens).
  { apply (list_elem_of_lookup_2 _ 1%nat). reflexivity. }
  split; [exact H1|].
  destruct (parse_args_help_cuts strtol_dec atoi_dec malloc_ok
              "program"%string ["-s"; "-ia"]%string "--help"%string
              ["5555"; "-x"]%string H1) as (H2 & H3 & _).
  split; [exact H2|exact H3].
Defined.

Lemma operand_needs_mode_witness :
  Forall (λ t, t ∈ local_tokens) ["-l"; "-ia"]%string
  ∧ deref "5555" ≠ "-"%char
  ∧ error (parse_args strtol_dec atoi_dec malloc_ok
             ("program" :: ["-l"; "-ia"] ++ "5555" :: ["-s"])%string) = 1.
Proof.
  assert (H1 : Forall (λ t, t ∈ local_tokens) ["-l"; "-ia"]%string).
  { apply Forall_cons. split.
    - apply (list_elem_of_lookup_2 _ 0%nat). reflexivity.
    - apply Forall_cons. split; [|constructor].
      apply (list_elem_of_lookup_2 _ 2%nat). reflexivity. }
  assert (H2 : deref "5555" ≠ "-"%char) by discriminate.
  split; [exact H1|]. split; [exact H2|].
  exact (proj1 (operand_needs_mode strtol_dec atoi_dec malloc_ok
                  "program"%string ["-l"; "-ia"]%string "5555"%string
                  ["-s"]%string H1 H2)).
Defined.

(** The port has to follow the mode: [-s 5555] is accepted and [5555 -s]
    is not; and a help option hides the errors that follow it but not
    those before it. *)
Example parse_args_order :
  let run := parse_args strtol_dec atoi_dec malloc_ok in
  error (run ["program"; "-s"; "5555"]%string) = 0
  ∧ error (run ["program"; "5555"; "-s"]%string) = 1
  ∧ (help (run ["program"; "-h"; "-x"]%string) = 1
     ∧ error (run ["program"; "-h"; "-x"]%string) = 0)
  ∧ (help (run ["program"; "-x"; "-h"]%string) = 0
     ∧ error (run ["program"; "-x"; "-h"]%string) = 1).
Proof. cbv zeta. split_and!; reflexivity. Qed.

(** * The capture of a King *)

Lemma one_per_cell_NoDup l : one_per_cell l → NoDup l.
Proof. unfold one_per_cell. apply NoDup_fmap_1. Qed.

Lemma NoDup_delete_gone {A} (l : list A) i x :
  NoDup l → l !! i = Some x → x ∉ delete i l.
Proof.
  intros Hn Hi [j Hj]%list_elem_of_lookup_1.
  destruct (decide (j < i)%nat).
  - rewrite list_lookup_delete_lt in Hj by done.
    pose proof (NoDup_lookup _ _ _ _ Hn Hi Hj). lia.
  - rewrite list_lookup_delete_ge in Hj by lia.
    pose proof (NoDup_lookup _ _ _ _ Hn Hi Hj). lia.
Qed.

(** The captures of a Linca call in the order they are made. *)
Lemma linca_run_order r c a s s' :
  linca_run r c a s s' → array_ok s → board_ok (cell_control s) →
  ∃ idxs,
    live s' = deletions idxs (live s)
    ∧ length (taken_at idxs (live s)) = length idxs
    ∧ Forall (λ p, color p = enemy_of a) (taken_at idxs (live s))
    ∧ linca_ending a s s' (taken_at idxs (live s)).
Proof.
  induction 1 as [s Hnone|s d p1 s' Hd Hscan Hp1 Hk Hc
                  |s d p1 s1 s' Hd Hscan Hp1 Hk Ht Hrun IH];
    intros Hok Hb.
  - exists []. split_and!; [done|done|constructor|]. by left.
  - destruct (scan_dir_hit r c a d s Hok Hscan)
      as (q1 & p2 & _ & Hi & Hr & Hl & Hs1 & Hc1 & _).
    assert (q1 = p1) as -> by congruence.
    destruct (capture_king_spec (near_idx r c d s) p1 s Hok Hi)
      as (s1 & E & Hrem & Hcc & Hgo & Hv).
    assert (s1 = s') as -> by congruence.
    assert (Hking : is_king p1 = true) by (by apply Ascii.eqb_eq).
    exists [Z.to_nat (near_idx r c d s)]. cbn [taken_at]. rewrite Hl.
    split_and!; [apply Hrem|done|by constructor|].
    right. exists [], p1. split_and!; try done.
    rewrite Hv. by rewrite (king_message a p1 Hc1).
  - destruct (scan_dir_hit r c a d s Hok Hscan)
      as (q1 & p2 & _ & Hi & Hr & Hl & Hs1 & Hc1 & _).
    assert (q1 = p1) as -> by congruence.
    destruct (linca_take_spec (near_idx r c d s) (near r c d).1
                (near r c d).2 s Hok Hb Hi)
      as (s2 & E & Hrem & Hb1 & Hgo & Hv & Hcc).
    assert (s2 = s1) as -> by congruence.
    destruct (IH (proj1 Hrem) Hb1) as (idxs & Hlive & Hlen & Hcol & Hend).
    destruct Hrem as (_ & Hl1 & _). rewrite Hl1 in Hlive, Hlen, Hcol, Hend.
    assert (Hsold : is_king p1 = false) by (by apply Ascii.eqb_neq).
    exists (Z.to_nat (near_idx r c d s) :: idxs). cbn [taken_at]. rewrite Hl.
    split_and!.
    + done.
    + simpl. by rewrite Hlen.
    + by constructor.
    + destruct Hend as [(Hf & Hg' & Hv')|(front & k & E' & Hf & Hk' & Hg' & Hv')].
      * left. split_and!; [by constructor|congruence|congruence].
      * right. exists (p1 :: front), k. rewrite E'.
        split_and!; [done|by constructor|done|done|congruence].
Qed.

(** A King that is sandwiched when the call begins is still there, and
    still sandwiched, when the scan reaches it: the call ends by the
    capture of a King. *)
Lemma linca_run_meets_king r c a s s' :
  linca_run r c a s s' → on_board r c →
  array_ok s → board_ok (cell_control s) → one_per_cell (live s) →
  ∀ k, k ∈ live s → sandwiched (live s) r c a k = true → is_king k = true →
  game_over s' = 1
  ∧ victory s' = victory s ++ [king_victory a]
  ∧ ∃ k', k' ∈ live s ∧ (k' ∉ live s') ∧ is_king k' = true
      ∧ sandwiched (live s) r c a k' = true.
Proof.
  induction 1 as [s Hnone|s d p1 s' Hd Hscan Hp1 Hk Hc
                  |s d p1 s1 s' Hd Hscan Hp1 Hk Ht Hrun IH];
    intros Hrc Hok Hb Hn k Hin Hsand Hking.
  - rewrite (scan_none_sandwiched r c a s Hrc Hok Hn Hnone k Hin) in Hsand.
    done.
  - destruct (scan_dir_hit r c a d s Hok Hscan)
      as (q1 & p2 & _ & Hi & Hr & Hl & Hs1 & Hc1 & _).
    assert (q1 = p1) as -> by congruence.
    destruct (scan_dir_sandwiched r c a d s Hrc Hd Hok Hscan)
      as (p1' & Hl' & Hsand1).
    assert (p1' = p1) as -> by congruence.
    destruct (capture_king_spec (near_idx r c d s) p1 s Hok Hi)
      as (s1 & E & Hrem & Hcc & Hgo & Hv).
    assert (s1 = s') as -> by congruence.
    split_and!; [done| |].
    + rewrite Hv. unfold king_victory. by rewrite (king_message a p1 Hc1).
    + exists p1. split_and!; [by eapply list_elem_of_lookup_2| | |done].
      * destruct Hrem as (_ & -> & _).
        apply NoDup_delete_gone; [by apply one_per_cell_NoDup|done].
      * by apply Ascii.eqb_eq.
  - destruct (scan_dir_hit r c a d s Hok Hscan)
      as (q1 & p2 & _ & Hi & Hr & Hl & Hs1 & Hc1 & _).
    assert (q1 = p1) as -> by congruence.
    destruct (linca_take_spec (near_idx r c d s) (near r c d).1
                (near r c d).2 s Hok Hb Hi)
      as (s2 & E & Hrem & Hb1 & Hgo & Hv & Hcc).
    assert (s2 = s1) as -> by congruence.
    destruct Hrem as (Hok1 & Hl1 & _).
    assert (Hsold : is_king p1 = false) by (by apply Ascii.eqb_neq).
    assert (Hne : color p1 ≠ a).
    { rewrite Hc1. apply enemy_of_ne. }
    assert (Hsame : ∀ p, sandwiched (live s1) r c a p
                         = sandwiched (live s) r c a p).
    { intros p. rewrite Hl1. exact (sandwiched_delete _ _ p1 r c a p Hl Hne). }
    destruct (IH Hrc Hok1 Hb1) with (k := k)
      as (Hg & Hvic & k' & Hk1 & Hk2 & Hk3 & Hk4).
    + rewrite Hl1. by apply one_per_cell_delete.
    + rewrite Hl1. apply (elem_of_delete_ne _ _ p1); [done|done|].
      intros ->. congruence.
    + by rewrite Hsame.
    + done.
    + split_and!; [done|by rewrite Hvic, Hv|].
      exists k'. split_and!; [|done|done|by rewrite <- Hsame].
      rewrite Hl1 in Hk1. by eapply list_elem_of_delete_inv.
Qed.

(** The directions in which the scan finds nothing are passed over. *)
Lemma linca_loop_skip r c a (n : nat) :
  ∀ fuel d0 s,
    0 <= d0 → d0 + Z.of_nat n <= 4 →
    (∀ d', d0 <= d' < d0 + Z.of_nat n → scan_dir r c a d' s = Some false) →
    linca_loop (n + fuel) r c a (enemy_of a) d0 s
    = linca_loop fuel r c a (enemy_of a) (d0 + Z.of_nat n) s.
Proof.
  induction n as [|n IH]; intros fuel d0 s Hd Hle Hnone.
  - simpl. by rewrite Z.add_0_r.
  - cbn [Nat.add]. rewrite linca_loop_unfold.
    destruct (Z.ltb_spec d0 4); [|lia]. cbn [negb].
    rewrite Hnone by lia. cbn [mbind option_bind].
    rewrite IH; [f_equal; lia|lia|lia|].
    intros d' Hd'. apply Hnone. lia.
Qed.

(** C4: whenever a call of either rule takes a King, the match is over and
    the victory goes to the colour of the moved piece, the King being of the
    other colour; in [check_linca_capture] the King is the last piece taken
    in the order of the removals, only soldiers being taken before it. And a
    King is taken whenever the rule applies to one, whatever pieces are
    left: by [check_linca_capture] when a King is sandwiched as the call
    begins, by [check_seltou_capture] when the King stands ahead of a
    straight move with no piece of its colour behind it. The direction of
    the scan that meets a flanked King returns at once with the King
    removed, the match over and the grid as it was; so when the first
    direction of the scan that holds a sandwich holds a King, the call
    removes that King and no other piece, whatever the directions after it
    hold. *)
Theorem king_capture_ends_match moved_index old_row old_col s :
  array_ok s → board_ok (cell_control s) → 0 <= moved_index < 20 →
  ∃ moved,
    read_piece (pieces s) moved_index = Some moved
    ∧ (∃ s' idxs, check_linca_capture moved_index s = Some s'
         ∧ live s' = deletions idxs (live s)
         ∧ length (taken_at idxs (live s)) = length idxs
         ∧ (∀ k, k ∈ taken_at idxs (live s) → is_king k = true →
             color k = enemy_of (color moved)
             ∧ game_over s' = 1
             ∧ victory s' = victory s ++ [king_victory (color moved)]
             ∧ ∃ front, taken_at idxs (live s) = front ++ [k]
                 ∧ Forall (λ p, is_king p = false) front)
         ∧ (on_board (row moved) (col moved) → one_per_cell (live s) →
            ∀ k, k ∈ live s →
              sandwiched (live s) (row moved) (col moved) (color moved) k
                = true →
              is_king k = true →
              game_over s' = 1
              ∧ victory s' = victory s ++ [king_victory (color moved)]
              ∧ ∃ k', k' ∈ live s ∧ (k' ∉ live s') ∧ is_king k' = true
                  ∧ sandwiched (live s) (row moved) (col moved)
                      (color moved) k' = true))
    ∧ (∃ s' taken,
         check_seltou_capture moved_index old_row old_col s = Some s'
         ∧ live s ≡ₚ taken ++ live s'
         ∧ (length taken ≤ 1)%nat
         ∧ (∀ k, k ∈ taken → is_king k = true →
             color k = enemy_of (color moved)
             ∧ game_over s' = 1
             ∧ victory s' = victory s ++ [king_victory (color moved)])
         ∧ (straight moved old_row old_col = true →
            on_board (target moved old_row old_col).1
                     (target moved old_row old_col).2 →
            one_per_cell (live s) →
            ∀ k, k ∈ live s →
              stands_on (target moved old_row old_col).1
                        (target moved old_row old_col).2 k →
              color k = enemy_of (color moved) →
              is_king k = true →
              ¬ guarded_by (live s) (behind moved old_row old_col).1
                  (behind moved old_row old_col).2 (enemy_of (color moved)) →
              game_over s' = 1
              ∧ victory s' = victory s ++ [king_victory (color moved)]
              ∧ (k ∉ live s')
              ∧ cell_control s' = cell_control s
              ∧ ∃ i, live s !! i = Some k ∧ live s' = delete i (live s)))
    ∧ (∀ fuel d p1, 0 <= d < 4 →
         scan_dir (row moved) (col moved) (color moved) d s = Some true →
         read_piece (pieces s) (near_idx (row moved) (col moved) d s)
           = Some p1 →
         is_king p1 = true →
         ∃ s', linca_loop (S fuel) (row moved) (col moved) (color moved)
                 (enemy_of (color moved)) d s = Some s'
           ∧ live s !! Z.to_nat (near_idx (row moved) (col moved) d s)
             = Some p1
           ∧ live s'
             = delete (Z.to_nat (near_idx (row moved) (col moved) d s))
                 (live s)
           ∧ game_over s' = 1
           ∧ victory s' = victory s ++ [king_victory (color moved)]
           ∧ cell_control s' = cell_control s)
    ∧ (∀ d p1, 0 <= d < 4 →
         (∀ d', 0 <= d' < d →
            scan_dir (row moved) (col moved) (color moved) d' s
              = Some false) →
         scan_dir (row moved) (col moved) (color moved) d s = Some true →
         read_piece (pieces s) (near_idx (row moved) (col moved) d s)
           = Some p1 →
         is_king p1 = true →
         ∃ s', check_linca_capture moved_index s = Some s'
           ∧ live s'
             = delete (Z.to_nat (near_idx (row moved) (col moved) d s))
                 (live s)
           ∧ game_over s' = 1
           ∧ victory s' = victory s ++ [king_victory (color moved)]
           ∧ cell_control s' = cell_control s).
Proof.
  intros Hok Hb Hm.
  destruct (check_linca_capture_run moved_index s Hok Hb Hm)
    as (moved & s1 & Hmv & Hc1 & Hrun).
  destruct (check_seltou_capture_cases moved_index old_row old_col s Hok Hb Hm)
    as (moved' & s2 & Hmv' & Hc2 & Hout).
  assert (moved' = moved) as -> by congruence.
  assert (Hloop : ∀ fuel d p1, 0 <= d < 4 →
    scan_dir (row moved) (col moved) (color moved) d s = Some true →
    read_piece (pieces s) (near_idx (row moved) (col moved) d s) = Some p1 →
    is_king p1 = true →
    ∃ s', linca_loop (S fuel) (row moved) (col moved) (color moved)
            (enemy_of (color moved)) d s = Some s'
      ∧ live s !! Z.to_nat (near_idx (row moved) (col moved) d s) = Some p1
      ∧ live s' = delete (Z.to_nat (near_idx (row moved) (col moved) d s))
                    (live s)
      ∧ game_over s' = 1
      ∧ victory s' = victory s ++ [king_victory (color moved)]
      ∧ cell_control s' = cell_control s).
  { intros fuel d p1 Hd Hscan Hp1 Hking.
    rewrite linca_loop_unfold.
    destruct (Z.ltb_spec d 4); [|lia]. cbn [negb].
    rewrite Hscan. cbn [mbind option_bind]. rewrite Hp1.
    cbn [mbind option_bind]. unfold is_king in Hking. rewrite Hking.
    destruct (scan_dir_hit _ _ _ d s Hok Hscan)
      as (q1 & p2 & _ & Hi & Hr & Hl & Hs1 & Hcq & _).
    assert (q1 = p1) as -> by congruence.
    destruct (capture_king_spec
                (near_idx (row moved) (col moved) d s) p1 s Hok Hi)
      as (s' & E & Hrem & Hcc & Hgo & Hv).
    exists s'. split_and!; [done|done|apply Hrem|done| |done].
    rewrite Hv. unfold king_victory.
    by rewrite (king_message (color moved) p1 Hcq). }
  exists moved. split_and!; [done| | |exact Hloop|].
  - destruct (linca_run_order _ _ _ s s1 Hrun Hok Hb)
      as (idxs & Hlive & Hlen & Hcol & Hend).
    exists s1, idxs. split_and!; [done..| |].
    + intros k Hk Hking.
      rewrite Forall_forall in Hcol. split; [by apply Hcol|].
      destruct Hend as [(Hf & _)|(front & k' & E & Hf & Hk' & Hg & Hv)].
      * rewrite Forall_forall in Hf. rewrite (Hf k Hk) in Hking. done.
      * rewrite E in Hk.
        apply elem_of_app in Hk as [Hk|Hk%list_elem_of_singleton].
        -- rewrite Forall_forall in Hf. rewrite (Hf k Hk) in Hking. done.
        -- subst k'. split_and!; [done..|]. by exists front.
    + intros Hrc Hn k Hin Hsand Hking.
      exact (linca_run_meets_king _ _ _ s s1 Hrun Hrc Hok Hb Hn
               k Hin Hsand Hking).
  - destruct (seltou_outcome_history moved old_row old_col s s2 Hout Hok Hb)
      as (taken & idxs & Hh & Hone & Hcol & Hk2).
    exists s2, taken. split_and!; [done|apply Hh|done| |].
    + intros k Hk Hking. rewrite Forall_forall in Hcol.
      split; [by apply Hcol|]. by apply (Hk2 k).
    + intros Hst Hon Hn k Hin Hs Hcolk Hking Hng.
      destruct Hout as [-> Hwhy|idx pe _ _ -> Hidx Hl Hs' Hcol' Hg Hs2].
      { destruct Hwhy as [E|[E|[E|[(p & Hp & Hps & Hrd & Hpc)|E]]]].
        - congruence.
        - apply off_board_true in E. done.
        - by destruct (E k Hin).
        - destruct (find_piece_at_unique s _ _ k Hok Hn Hin Hs)
            as (_ & Hrd' & _).
          congruence.
        - done. }
      destruct (find_piece_at_unique s _ _ k Hok Hn Hin Hs) as (_ & _ & Hlk).
      assert (pe = k) as -> by congruence.
      destruct (seltou_taken_spec _ k _ _ s s2 Hok Hb Hidx Hon Hs2)
        as ((_ & Hlive & _) & Hkk & _).
      destruct (Hkk Hking) as (Hcc & Hgo & Hv).
      split_and!; [done| | |done|].
      * rewrite Hv. unfold king_victory.
        by rewrite (king_message (color moved) k Hcolk).
      * rewrite Hlive.
        apply NoDup_delete_gone; [by apply one_per_cell_NoDup|done].
      * eexists. split; [exact Hlk|done].
  - intros d p1 Hd Hnone Hscan Hp1 Hking.
    unfold check_linca_capture. rewrite Hmv. cbn [mbind option_bind].
    assert (Hfuel : linca_fuel s
                    = (Z.to_nat d + S (linca_fuel s - S (Z.to_nat d)))%nat)
      by (unfold linca_fuel; lia).
    rewrite Hfuel.
    rewrite linca_loop_skip; [|lia|lia|].
    + rewrite Z.add_0_l, Z2Nat.id by lia.
      destruct (Hloop (linca_fuel s - S (Z.to_nat d))%nat d p1
                  Hd Hscan Hp1 Hking)
        as (s' & E & _ & Hlive & Hgo & Hv & Hcc).
      by exists s'.
    + intros d' Hd'. apply Hnone. lia.
Qed.

Lemma king_capture_ends_match_witness :
  array_ok king_first_state
  ∧ board_ok (cell_control king_first_state) ∧ 0 <= 0 < 20
  ∧ ∃ moved,
    read_piece (pieces king_first_state) 0 = Some moved
    ∧ (∃ s' idxs, check_linca_capture 0 king_first_state = Some s'
         ∧ live s' = deletions idxs (live king_first_state)
         ∧ length (taken_at idxs (live king_first_state)) = length idxs
         ∧ (∀ k, k ∈ taken_at idxs (live king_first_state) →
             is_king k = true →
             color k = enemy_of (color moved)
             ∧ game_over s' = 1
             ∧ victory s' = victory king_first_state
                            ++ [king_victory (color moved)]
             ∧ ∃ front, taken_at idxs (live king_first_state) = front ++ [k]
                 ∧ Forall (λ p, is_king p = false) front)
         ∧ (on_board (row moved) (col moved) →
            one_per_cell (live king_first_state) →
            ∀ k, k ∈ live king_first_state →
              sandwiched (live king_first_state) (row moved) (col moved)
                (color moved) k = true →
              is_king k = true →
              game_over s' = 1
              ∧ victory s' = victory king_first_state
                             ++ [king_victory (color moved)]
              ∧ ∃ k', k' ∈ live king_first_state ∧ (k' ∉ live s')
                  ∧ is_king k' = true
                  ∧ sandwiched (live king_first_state) (row moved)
                      (col moved) (color moved) k' = true))
    ∧ (∃ s' taken,
         check_seltou_capture 0 5 4 king_first_state = Some s'
         ∧ live king_first_state ≡ₚ taken ++ live s'
         ∧ (length taken ≤ 1)%nat
         ∧ (∀ k, k ∈ taken → is_king k = true →
             color k = enemy_of (color moved)
             ∧ game_over s' = 1
             ∧ victory s' = victory king_first_state
                            ++ [king_victory (color moved)])
         ∧ (straight moved 5 4 = true →
            on_board (target moved 5 4).1 (target moved 5 4).2 →
            one_per_cell (live king_first_state) →
            ∀ k, k ∈ live king_first_state →
              stands_on (target moved 5 4).1 (target moved 5 4).2 k →
              color k = enemy_of (color moved) →
              is_king k = true →
              ¬ guarded_by (live king_first_state) (behind moved 5 4).1
                  (behind moved 5 4).2 (enemy_of (color moved)) →
              game_over s' = 1
              ∧ victory s' = victory king_first_state
                             ++ [king_victory (color moved)]
              ∧ (k ∉ live s')
              ∧ cell_control s' = cell_control king_first_state
              ∧ ∃ i, live king_first_state !! i = Some k
                  ∧ live s' = delete i (live king_first_state)))
    ∧ (∀ fuel d p1, 0 <= d < 4 →
         scan_dir (row moved) (col moved) (color moved) d king_first_state
           = Some true →
         read_piece (pieces king_first_state)
           (near_idx (row moved) (col moved) d king_first_state) = Some p1 →
         is_king p1 = true →
         ∃ s', linca_loop (S fuel) (row moved) (col moved) (color moved)
                 (enemy_of (color moved)) d king_first_state = Some s'
           ∧ live king_first_state
               !! Z.to_nat (near_idx (row moved) (col moved) d
                              king_first_state)
             = Some p1
           ∧ live s'
             = delete (Z.to_nat (near_idx (row moved) (col moved) d
                                   king_first_state))
                 (live king_first_state)
           ∧ game_over s' = 1
           ∧ victory s' = victory king_first_state
                          ++ [king_victory (color moved)]
           ∧ cell_control s' = cell_control king_first_state)
    ∧ (∀ d p1, 0 <= d < 4 →
         (∀ d', 0 <= d' < d →
            scan_dir (row moved) (col moved) (color moved) d'
              king_first_state = Some false) →
         scan_dir (row moved) (col moved) (color moved) d king_first_state
           = Some true →
         read_piece (pieces king_first_state)
           (near_idx (row moved) (col moved) d king_first_state) = Some p1 →
         is_king p1 = true →
         ∃ s', check_linca_capture 0 king_first_state = Some s'
           ∧ live s'
             = delete (Z.to_nat (near_idx (row moved) (col moved) d
                                   king_first_state))
                 (live king_first_state)
           ∧ game_over s' = 1
           ∧ victory s' = victory king_first_state
                          ++ [king_victory (color moved)]
           ∧ cell_control s' = cell_control king_first_state).
Proof.
  assert (H1 : array_ok king_first_state)
    by (apply test_state_array_ok; simpl; lia).
  assert (H2 : board_ok (cell_control king_first_state))
    by exact empty_board_ok.
  assert (H3 : 0 <= 0 < 20) by lia.
  split; [exact H1|]. split; [exact H2|]. split; [exact H3|].
  exact (king_capture_ends_match 0 5 4 king_first_state H1 H2 H3).
Defined.

(** In [king_first_state] both rules apply to the Red King of (3,4): it is
    sandwiched, in the first direction of the scan, and it stands ahead of
    the move from (5,4) with the Blue soldier of (2,4), not a Red piece,
    behind it. The Red soldier of (4,5) is sandwiched too, and
    [king_first_linca] shows that it stays. *)
Example king_first_premises :
  on_board 4 4 ∧ one_per_cell (live king_first_state)
  ∧ king 3 4 chr_R ∈ live king_first_state
  ∧ sandwiched (live king_first_state) 4 4 chr_B (king 3 4 chr_R) = true
  ∧ is_king (king 3 4 chr_R) = true
  ∧ straight (soldier 4 4 chr_B) 5 4 = true
  ∧ target (soldier 4 4 chr_B) 5 4 = (3, 4)
  ∧ behind (soldier 4 4 chr_B) 5 4 = (2, 4)
  ∧ scan_dir 4 4 chr_B 0 king_first_state = Some true
  ∧ read_piece (pieces king_first_state)
      (near_idx 4 4 0 king_first_state) = Some (king 3 4 chr_R)
  ∧ sandwiched (live king_first_state) 4 4 chr_B (soldier 4 5 chr_R) = true
  ∧ ¬ guarded_by (live king_first_state) 2 4 chr_R.
Proof.
  split_and!; [unfold on_board; lia|by apply one_per_cell_check
              |by apply (list_elem_of_lookup_2 _ 1%nat)|reflexivity..|].
  intros (_ & q & Hq & [Hr Hc] & Hcol).
  unfold king_first_state in Hq. rewrite test_state_live in Hq by (simpl; lia).
  repeat (apply elem_of_cons in Hq as [->|Hq]; [simpl in *; try lia; done|]).
  by apply elem_of_nil in Hq.
Qed.
